(** * Pribambase: a shallow embedding of the add-on's pure kernels

    [Py] gives the Python runtime the code leans on (exceptions, sequence
    indexing, float division) and [PyFloat] the binary64 facts (rounding in
    [SpecFloat], conversion from int, [math.ceil]).  The rest follows the
    source files one module at a time:
    - [Draw]   : draw.py  (Bresenham stepping, the blend modes of the pencil)
    - [Handle] : messaging/handle.py (spritesheet grid, source rename)
    - [Util]   : util.py (image identity, image update, action rebuild)
    - [Ui3d]   : ui_3d.py (reference image prescale)

    Python [int] is [Z]; Python [float] is IEEE-754 binary64, the kernel's
    primitive [float]; numpy's [float32] is [spec_float] at precision 24. *)

From Stdlib Require Import ZArith List Lia Bool Floats Ascii String.
From Stdlib Require Strings.Byte.
From stdpp Require Import base list strings gmap.
Import ListNotations.
Set Warnings "-inexact-float".
Local Open Scope Z_scope.

(** ** Python runtime: exceptions, sequence indexing, float division *)
Module Py.

Inductive exn := IndexError | ZeroDivisionError.

Inductive result (A : Type) := Ok (a : A) | Raise (e : exn).
Arguments Ok {A} a.
Arguments Raise {A} e.

(** A computation over one mutable float sequence (the pixel array of the
    image being painted).  The sequence survives an exception as it was when
    the exception was raised: Python mutates in place. *)
Definition M (A : Type) : Type := list float -> result A * list float.

Definition ret {A} (a : A) : M A := fun s => (Ok a, s).

Definition raise {A} (e : exn) : M A := fun s => (Raise e, s).

Definition bind {A B} (m : M A) (k : A -> M B) : M B :=
  fun s => match m s with
           | (Ok a, s') => k a s'
           | (Raise e, s') => (Raise e, s')
           end.

(** [seq[i]] resolves an index as Python does: [0 <= i < len] is itself,
    [-len <= i < 0] counts from the end, anything else is [IndexError]. *)
Definition index (len : nat) (i : Z) : option nat :=
  if (0 <=? i) && (i <? Z.of_nat len) then Some (Z.to_nat i)
  else if (- Z.of_nat len <=? i) && (i <? 0)
       then Some (Z.to_nat (i + Z.of_nat len))
       else None.

Definition getitem (i : Z) : M float :=
  fun s => match index (length s) i with
           | Some n => match s !! n with
                       | Some v => (Ok v, s)
                       | None => (Raise IndexError, s)
                       end
           | None => (Raise IndexError, s)
           end.

Definition setitem (i : Z) (v : float) : M unit :=
  fun s => match index (length s) i with
           | Some n => (Ok tt, <[n := v]> s)
           | None => (Raise IndexError, s)
           end.

(** [x / y] on floats: [ZeroDivisionError] when [y == 0.0] (either sign). *)
Definition truediv (x y : float) : M float :=
  if (y =? 0)%float then raise ZeroDivisionError else ret (x / y)%float.

(** [for x in xs: body(x)] *)
Fixpoint for_each {A} (xs : list A) (body : A -> M unit) : M unit :=
  match xs with
  | [] => ret tt
  | x :: xs' => bind (body x) (fun _ => for_each xs' body)
  end.

End Py.

Declare Scope py_scope.
Delimit Scope py_scope with py.
Notation "'let*' x ':=' m 'in' k" := (Py.bind m (fun x => k))
  (at level 10, x name, m at level 100, k at level 200) : py_scope.
Notation "m ';;' k" := (Py.bind m (fun _ => k))
  (at level 100, k at level 200, right associativity) : py_scope.

(** ** Binary64 facts the blend modes rely on *)
Module PyFloat.
Local Open Scope float_scope.

Lemma Prim2SF_zero : Prim2SF 0 = S754_zero false.
Proof. vm_compute. reflexivity. Qed.

Lemma Prim2SF_one : Prim2SF 1 = S754_finite false 4503599627370496 (-52).
Proof. vm_compute. reflexivity. Qed.

Lemma pos_neq_zero (a : float) : (0 <? a) = true -> (a =? 0) = false.
Proof.
  rewrite FloatAxioms.ltb_spec, FloatAxioms.eqb_spec, Prim2SF_zero. unfold SFltb, SFeqb.
  destruct (Prim2SF a) as [s|s| |s m e]; cbn [SFcompare];
    try discriminate; try reflexivity; now destruct s.
Qed.

Lemma zero_neq_one (a : float) : (a =? 0) = true -> (a =? 1) = false.
Proof.
  rewrite !FloatAxioms.eqb_spec, Prim2SF_zero, Prim2SF_one. unfold SFeqb.
  destruct (Prim2SF a) as [s|s| |s m e]; cbn [SFcompare];
    try discriminate; try reflexivity; now destruct s.
Qed.

Lemma lt_neq (a b : float) : (a <? b) = true -> (a =? b) = false.
Proof.
  rewrite FloatAxioms.ltb_spec, FloatAxioms.eqb_spec. unfold SFltb, SFeqb.
  now destruct (SFcompare _ _) as [[]|].
Qed.


(** *** Digits, shifts and rounding of [SpecFloat] *)

Local Open Scope Z_scope.

Lemma fexp_eq (e : Z) : fexp prec emax e = Z.max (e - 53) (-1074).
Proof. reflexivity. Qed.

Lemma Zdigits2_log2 (m : Z) : 0 < m -> Zdigits2 m = Z.succ (Z.log2 m).
Proof.
  destruct m as [|p|p]; try lia. intros _. cbn [Zdigits2].
  destruct p as [p|p|]; cbn [digits2_pos Z.log2]; try reflexivity.
  all: rewrite Pos2Z.inj_succ; f_equal; f_equal; induction p as [p IH|p IH|];
    cbn [digits2_pos Pos.size]; congruence.
Qed.

Lemma Zdigits2_bounds (m : Z) :
  0 < m -> 2 ^ (Zdigits2 m - 1) <= m < 2 ^ Zdigits2 m.
Proof.
  intros Hm. rewrite (Zdigits2_log2 m Hm).
  replace (Z.succ (Z.log2 m) - 1) with (Z.log2 m) by lia.
  apply Z.log2_spec, Hm.
Qed.

Lemma Zdigits2_unique (m d : Z) :
  2 ^ (d - 1) <= m < 2 ^ d -> 0 < d -> Zdigits2 m = d.
Proof.
  intros Hb Hd. assert (0 < m) by (pose proof (Z.pow_pos_nonneg 2 (d - 1)); lia).
  rewrite Zdigits2_log2 by assumption.
  rewrite (Z.log2_unique m (d - 1)); try lia.
  replace (Z.succ (d - 1)) with d by lia. lia.
Qed.

Lemma shr_1_m (mrs : shr_record) :
  0 <= shr_m mrs -> shr_m (shr_1 mrs) = shr_m mrs / 2.
Proof.
  destruct mrs as [m r s]. cbn [shr_m]. intros Hm.
  destruct m as [|[p|p|]|p]; cbn [shr_1 shr_m]; try lia; try reflexivity.
  - rewrite Pos2Z.inj_xI. apply Z.div_unique with 1; lia.
  - rewrite Pos2Z.inj_xO. apply Z.div_unique with 0; lia.
Qed.

Lemma iter_pos_shr_m (n : positive) : forall mrs,
  0 <= shr_m mrs ->
  shr_m (SpecFloat.iter_pos shr_1 n mrs) = shr_m mrs / 2 ^ Zpos n.
Proof.
  assert (forall k, 0 <= k -> 0 < 2 ^ k) as Hpow
    by (intros; apply Z.pow_pos_nonneg; lia).
  assert (forall m k, 0 <= m -> 0 <= k -> 0 <= m / 2 ^ k) as Hnn
    by (intros m k Hm Hk; apply Z.div_pos; [lia | now apply Hpow]).
  induction n as [n IH|n IH|]; intros mrs Hm; cbn [SpecFloat.iter_pos].
  - assert (2 ^ Zpos n~1 = 2 * 2 ^ Zpos n * 2 ^ Zpos n) as ->.
    { change 2 with (2 ^ 1) at 2. rewrite <- !Z.pow_add_r by lia. f_equal. lia. }
    assert (0 <= shr_m (shr_1 mrs)) as H1
      by (rewrite shr_1_m by assumption; apply Z.div_pos; lia).
    assert (0 <= shr_m (SpecFloat.iter_pos shr_1 n (shr_1 mrs))) as H2
      by (rewrite IH by assumption; apply Hnn; lia).
    rewrite (IH _ H2), (IH _ H1), (shr_1_m _ Hm).
    rewrite !Z.div_div by (try apply Hpow; lia). f_equal. ring.
  - assert (2 ^ Zpos n~0 = 2 ^ Zpos n * 2 ^ Zpos n) as ->.
    { rewrite <- Z.pow_add_r by lia. f_equal. lia. }
    assert (0 <= shr_m (SpecFloat.iter_pos shr_1 n mrs)) as H2
      by (rewrite IH by assumption; apply Hnn; lia).
    rewrite (IH _ H2), (IH _ Hm).
    rewrite !Z.div_div by (try apply Hpow; lia). reflexivity.
  - rewrite shr_1_m by assumption. reflexivity.
Qed.

Lemma shr_record_of_loc_m (m : Z) (l : location) : shr_m (shr_record_of_loc m l) = m.
Proof. now destruct l as [|[]]. Qed.

(** The mantissa and exponent [shr_fexp] returns: a right shift by the
    number of excess digits, if any. *)
Lemma shr_fexp_m (m e : Z) (l : location) :
  0 <= m ->
  shr_m (fst (shr_fexp prec emax m e l))
  = m / 2 ^ Z.max 0 (fexp prec emax (Zdigits2 m + e) - e)
  /\ snd (shr_fexp prec emax m e l)
     = e + Z.max 0 (fexp prec emax (Zdigits2 m + e) - e).
Proof.
  intros Hm. unfold shr_fexp, shr.
  destruct (fexp prec emax (Zdigits2 m + e) - e) as [|s|s]; cbn [fst snd].
  - rewrite shr_record_of_loc_m. change (Z.max 0 0) with 0.
    rewrite Z.div_1_r. split; [reflexivity | lia].
  - rewrite iter_pos_shr_m by (now rewrite shr_record_of_loc_m).
    rewrite shr_record_of_loc_m. now replace (Z.max 0 (Z.pos s)) with (Z.pos s) by lia.
  - rewrite shr_record_of_loc_m. replace (Z.max 0 (Z.neg s)) with 0 by lia.
    rewrite Z.div_1_r. split; [reflexivity | lia].
Qed.

Lemma round_nearest_even_bounds (m : Z) (l : location) :
  round_nearest_even m l = m \/ round_nearest_even m l = m + 1.
Proof.
  destruct l as [|[]]; cbn [round_nearest_even]; auto.
  destruct (Z.even m); auto.
Qed.

Lemma Zdigits2_nonneg (m : Z) : 0 <= Zdigits2 m.
Proof. destruct m; cbn; lia. Qed.

Lemma Zdigits2_mono (a b : Z) : 0 < a -> a <= b -> Zdigits2 a <= Zdigits2 b.
Proof.
  intros Ha Hab. rewrite !Zdigits2_log2 by lia.
  pose proof (Z.log2_le_mono a b Hab). lia.
Qed.

(** A positive mantissa whose digits reach above [emin] keeps a positive
    mantissa through [shr_fexp], and its top digit stays where it was. *)
Lemma shr_fexp_pos (m e : Z) (l : location) :
  0 < m -> -1074 < Zdigits2 m + e ->
  0 < shr_m (fst (shr_fexp prec emax m e l))
  /\ Zdigits2 m + e
     = Zdigits2 (shr_m (fst (shr_fexp prec emax m e l)))
       + snd (shr_fexp prec emax m e l).
Proof.
  intros Hm Hd. destruct (shr_fexp_m m e l (Z.lt_le_incl _ _ Hm)) as [-> ->].
  rewrite fexp_eq.
  set (k := Z.max 0 (Z.max (Zdigits2 m + e - 53) (-1074) - e)).
  pose proof (Zdigits2_bounds m Hm) as Hb.
  assert (0 < Zdigits2 m) as Hdp
    by (rewrite Zdigits2_log2 by assumption; pose proof (Z.log2_nonneg m); lia).
  assert (0 <= k < Zdigits2 m) as Hk by (subst k; lia).
  assert (0 < 2 ^ k) as Hp by (apply Z.pow_pos_nonneg; lia).
  assert (2 ^ k <= m) as Hkm.
  { eapply Z.le_trans; [|apply Hb]. apply Z.pow_le_mono_r; lia. }
  assert (0 < m / 2 ^ k) as Hq by (apply Z.div_str_pos; lia).
  split; [assumption|].
  rewrite (Zdigits2_unique (m / 2 ^ k) (Zdigits2 m - k)); [lia| |lia].
  split.
  - apply Z.div_le_lower_bound; [lia|].
    rewrite <- Z.pow_add_r by lia.
    replace (k + (Zdigits2 m - k - 1)) with (Zdigits2 m - 1) by lia. apply Hb.
  - apply Z.div_lt_upper_bound; [lia|].
    rewrite <- Z.pow_add_r by lia.
    replace (k + (Zdigits2 m - k)) with (Zdigits2 m) by lia. apply Hb.
Qed.

Definition sf_nonneg (x : spec_float) : Prop :=
  match x with
  | S754_zero false | S754_infinity false | S754_finite false _ _ => True
  | _ => False
  end.

Definition sf_pos (x : spec_float) : Prop :=
  match x with
  | S754_infinity false | S754_finite false _ _ => True
  | _ => False
  end.

Lemma binary_round_aux_nonneg (p : positive) (e : Z) (l : location) :
  sf_nonneg (binary_round_aux prec emax false (Zpos p) e l).
Proof.
  unfold binary_round_aux.
  destruct (shr_fexp_m (Zpos p) e l (Pos2Z.is_nonneg p)) as [H1 _].
  destruct (shr_fexp prec emax (Zpos p) e l) as [mrs' e'] eqn:E1. cbn [fst] in H1.
  set (m2 := round_nearest_even (shr_m mrs') (loc_of_shr_record mrs')).
  assert (0 <= shr_m mrs') as Hm1
    by (rewrite H1; apply Z.div_pos; [lia | apply Z.pow_pos_nonneg; lia]).
  assert (0 <= m2) as Hm2
    by (subst m2; destruct (round_nearest_even_bounds (shr_m mrs') (loc_of_shr_record mrs')) as [-> | ->]; lia).
  destruct (shr_fexp_m m2 e' loc_Exact Hm2) as [H2 _].
  destruct (shr_fexp prec emax m2 e' loc_Exact) as [mrs'' e'']. cbn [fst] in H2.
  assert (0 <= shr_m mrs'') as Hm3
    by (rewrite H2; apply Z.div_pos; [lia | apply Z.pow_pos_nonneg; lia]).
  destruct (shr_m mrs'') as [|q|q]; cbn; [exact I | | lia].
  now destruct (_ <=? _).
Qed.

Lemma binary_round_aux_pos (p : positive) (e : Z) (l : location) :
  -1074 < Zpos (digits2_pos p) + e ->
  sf_pos (binary_round_aux prec emax false (Zpos p) e l).
Proof.
  intros Hd. unfold binary_round_aux.
  destruct (shr_fexp_pos (Zpos p) e l (Pos2Z.is_pos p) Hd) as [H1 D1].
  destruct (shr_fexp prec emax (Zpos p) e l) as [mrs' e'] eqn:E1.
  cbn [fst snd] in H1, D1.
  set (m2 := round_nearest_even (shr_m mrs') (loc_of_shr_record mrs')).
  assert (shr_m mrs' <= m2) as Hm2
    by (subst m2; destruct (round_nearest_even_bounds (shr_m mrs') (loc_of_shr_record mrs')) as [-> | ->]; lia).
  pose proof (Zdigits2_mono _ _ H1 Hm2) as Hmono.
  assert (0 < m2) as Hm2' by lia.
  assert (-1074 < Zdigits2 m2 + e') as Hd2 by (cbn [Zdigits2] in D1; lia).
  destruct (shr_fexp_pos m2 e' loc_Exact Hm2' Hd2) as [H2 _].
  destruct (shr_fexp prec emax m2 e' loc_Exact) as [mrs'' e'']. cbn [fst] in H2.
  destruct (shr_m mrs'') as [|q|q]; try lia.
  now destruct (_ <=? _).
Qed.

Lemma iter_xO (m d : positive) : Zpos (Pos.iter xO m d) = Zpos m * 2 ^ Zpos d.
Proof.
  revert m. induction d as [|d IH] using Pos.peano_ind; intros m.
  - cbn [Pos.iter]. lia.
  - rewrite Pos.iter_succ, Pos2Z.inj_xO, IH, Pos2Z.inj_succ, Z.pow_succ_r by lia. ring.
Qed.

(** [shl_align] towards a lower exponent keeps the value. *)
Lemma shl_align_le (m : positive) (e e' : Z) :
  e' <= e ->
  Zpos (fst (shl_align m e e')) = Zpos m * 2 ^ (e - e')
  /\ snd (shl_align m e e') = e'.
Proof.
  intros He. unfold shl_align. destruct (e' - e) as [|d|d] eqn:E; cbn [fst snd]; try lia.
  - replace (e - e') with 0 by lia. split; lia.
  - rewrite iter_xO. replace (e - e') with (Zpos d) by lia. split; [reflexivity|lia].
Qed.

Lemma shl_align_digits (m : positive) (e e' : Z) :
  Zpos (digits2_pos (fst (shl_align m e e'))) + snd (shl_align m e e')
  = Zpos (digits2_pos m) + e.
Proof.
  unfold shl_align. destruct (e' - e) as [|d|d] eqn:E; cbn [fst snd]; try reflexivity.
  change (Zdigits2 (Zpos (Pos.iter xO m d)) + e' = Zdigits2 (Zpos m) + e).
  rewrite iter_xO, !Zdigits2_log2 by lia.
  rewrite Z.log2_mul_pow2 by lia. lia.
Qed.

Lemma binary_round_nonneg (p : positive) (e : Z) :
  sf_nonneg (binary_round prec emax false p e).
Proof.
  unfold binary_round. destruct (shl_align _ _ _) as [mz ez].
  apply binary_round_aux_nonneg.
Qed.

Lemma binary_round_pos (p : positive) (e : Z) :
  -1074 < Zpos (digits2_pos p) + e ->
  sf_pos (binary_round prec emax false p e).
Proof.
  intros H. unfold binary_round.
  pose proof (shl_align_digits p e (fexp prec emax (Zpos (digits2_pos p) + e))) as Hd.
  destruct (shl_align _ _ _) as [mz ez]. cbn [fst snd] in Hd.
  apply binary_round_aux_pos. lia.
Qed.

(** A valid finite float has at most 53 digits and an exponent at or above
    [emin]. *)
Lemma valid_finite (s : bool) (m : positive) (e : Z) :
  valid_binary (S754_finite s m e) = true ->
  Zpos (digits2_pos m) <= 53 /\ -1074 <= e.
Proof.
  cbn [SpecFloat.valid_binary]. unfold bounded, canonical_mantissa.
  rewrite andb_true_iff, Z.eqb_eq, fexp_eq. lia.
Qed.

Lemma Pos_digits_bound (m : positive) : Zpos m < 2 ^ Zpos (digits2_pos m).
Proof. apply (Zdigits2_bounds (Zpos m)). lia. Qed.

(** [0 < a <= 1] *)
Lemma unit_pos_shape (a : float) :
  (0 <? a)%float = true -> (a <=? 1)%float = true ->
  exists m e, Prim2SF a = S754_finite false m e.
Proof.
  rewrite FloatAxioms.ltb_spec, FloatAxioms.leb_spec, Prim2SF_zero, Prim2SF_one. unfold SFltb, SFleb.
  destruct (Prim2SF a) as [s|s| |s m e]; cbn [SFcompare]; try discriminate.
  - destruct s; discriminate.
  - destruct s; [discriminate|]. eauto.
Qed.

(** [0 <= d <= 1] *)
Lemma unit_nonneg_shape (d : float) :
  (0 <=? d)%float = true -> (d <=? 1)%float = true ->
  (exists s, Prim2SF d = S754_zero s)
  \/ (exists m e, Prim2SF d = S754_finite false m e
                  /\ (e < -52 \/ (e = -52 /\ Zpos m <= 4503599627370496))).
Proof.
  rewrite !FloatAxioms.leb_spec, Prim2SF_zero, Prim2SF_one. unfold SFleb.
  destruct (Prim2SF d) as [s|s| |s m e]; cbn [SFcompare]; try discriminate.
  - eauto.
  - destruct s; discriminate.
  - destruct s; [discriminate|]. intros _ H. right. exists m, e. split; [reflexivity|].
    revert H. destruct (Z.compare_spec e (-52)) as [E|E|E]; intros H;
      [|left; assumption|discriminate].
    right. split; [assumption|]. revert H.
    rewrite Pos.compare_cont_spec. unfold Pos.switch_Eq.
    destruct (Pos.compare_spec m 4503599627370496) as [E'|E'|E']; intros H;
      [subst m; apply Z.le_refl | apply Z.lt_le_incl; exact E' | discriminate].
Qed.

(** [1 - d] for [0 <= d <= 1] is not negative. *)
Lemma sub_one_nonneg (m : positive) (e : Z) :
  Zpos (digits2_pos m) <= 53 ->
  e < -52 \/ (e = -52 /\ Zpos m <= 4503599627370496) ->
  sf_nonneg (SF64sub (S754_finite false 4503599627370496 (-52)) (S754_finite false m e)).
Proof.
  intros Hd He. unfold SF64sub, SFsub. cbn [cond_Zopp].
  replace (Z.min (-52) e) with e by lia.
  destruct (shl_align_le 4503599627370496 (-52) e) as [H1 _]; [lia|].
  destruct (shl_align_le m e e) as [H2 _]; [lia|].
  rewrite H1, H2, Z.sub_diag, Z.mul_1_r.
  assert (Zpos m <= 4503599627370496 * 2 ^ (-52 - e)) as Hle.
  { destruct He as [He|[-> Hm]]; [|change (2 ^ (-52 - -52)) with 1; lia].
    pose proof (Pos_digits_bound m) as Hb.
    assert (2 ^ Zpos (digits2_pos m) <= 2 ^ 53) by (apply Z.pow_le_mono_r; lia).
    change 4503599627370496 with (2 ^ 52). rewrite <- Z.pow_add_r by lia.
    assert (2 ^ 53 <= 2 ^ (52 + (-52 - e))) by (apply Z.pow_le_mono_r; lia). lia. }
  destruct (4503599627370496 * 2 ^ (-52 - e) - Zpos m) as [|p|p] eqn:E; try lia.
  - exact I.
  - apply binary_round_nonneg.
Qed.

Lemma mul_nonneg (ma : positive) (ea : Z) (x : spec_float) :
  sf_nonneg x -> sf_nonneg (SF64mul (S754_finite false ma ea) x).
Proof.
  destruct x as [[]|[]| |[] mx ex]; cbn; try contradiction; try exact (fun _ => I).
  intros _. apply binary_round_aux_nonneg.
Qed.

Lemma mul_one_pos (ma : positive) (ea : Z) :
  -1074 <= ea ->
  sf_pos (SF64mul (S754_finite false ma ea) (S754_finite false 4503599627370496 (-52))).
Proof.
  intros He. unfold SF64mul, SFmul. cbn [xorb].
  apply binary_round_aux_pos.
  change (Zpos (digits2_pos (ma * 4503599627370496)))
    with (Zdigits2 (Zpos ma * 2 ^ 52)).
  rewrite Zdigits2_log2 by lia. rewrite Z.log2_mul_pow2 by lia.
  pose proof (Z.log2_nonneg (Zpos ma)). lia.
Qed.

Lemma add_pos (md : positive) (ed : Z) (y : spec_float) :
  -1074 <= ed -> valid_binary y = true -> sf_nonneg y ->
  sf_pos (SF64add (S754_finite false md ed) y).
Proof.
  intros Hd Hv Hy. destruct y as [[]|[]| |[] my ey]; try contradiction; try exact I.
  apply valid_finite in Hv as [_ Hey].
  unfold SF64add, SFadd. cbn [cond_Zopp].
  match goal with |- sf_pos (binary_normalize _ _ (Zpos ?a + Zpos ?b) _ _) =>
    change (Zpos a + Zpos b) with (Zpos (a + b)) end.
  cbn [binary_normalize]. apply binary_round_pos.
  pose proof (Zdigits2_nonneg (Zpos (fst (shl_align md ed (Z.min ed ey)) + fst (shl_align my ey (Z.min ed ey))))) as Hn.
  cbn [Zdigits2] in Hn. lia.
Qed.

Lemma sf_pos_gt_zero (x : float) :
  sf_pos (Prim2SF x) -> (0 <? x)%float = true /\ (x =? 0)%float = false.
Proof.
  rewrite FloatAxioms.ltb_spec, FloatAxioms.eqb_spec, Prim2SF_zero. unfold SFltb, SFeqb.
  destruct (Prim2SF x) as [[]|[]| |[] m e]; cbn; try contradiction; auto.
Qed.


Lemma outa_positive (a d : float) :
  (0 <? a)%float = true -> (a <=? 1)%float = true ->
  (0 <=? d)%float = true -> (d <=? 1)%float = true ->
  (0 <? d + a * (1 - d))%float = true /\ (d + a * (1 - d) =? 0)%float = false.
Proof.
  intros Ha0 Ha1 Hd0 Hd1. apply sf_pos_gt_zero.
  destruct (unit_pos_shape a Ha0 Ha1) as (ma & ea & EA).
  pose proof (FloatAxioms.Prim2SF_valid a) as VA. rewrite EA in VA.
  apply valid_finite in VA as [_ Hea].
  pose proof (FloatAxioms.Prim2SF_valid (a * (1 - d))) as VDA.
  pose proof (FloatAxioms.Prim2SF_valid d) as VD.
  rewrite FloatAxioms.add_spec. rewrite FloatAxioms.mul_spec, FloatAxioms.sub_spec, EA, Prim2SF_one in *.
  destruct (unit_nonneg_shape d Hd0 Hd1) as [[s ED]|(md & ed & ED & Hed)];
    rewrite ED in *.
  - change (SF64sub (S754_finite false 4503599627370496 (-52)) (S754_zero s))
      with (S754_finite false 4503599627370496 (-52)) in *.
    pose proof (mul_one_pos ma ea Hea) as Hp.
    destruct (SF64mul _ _) as [[]|[]| |[] m e]; try contradiction; exact I.
  - apply valid_finite in VD as [Hdig Hed'].
    apply add_pos; [assumption | assumption |].
    apply mul_nonneg, sub_one_nonneg; assumption.
Qed.


(** *** Conversion from int, [math.ceil], and exact ceilings *)

(** What rounding delivers in the normal range: the rounded 53-digit
    mantissa [m2] at exponent [e1], renormalised when the rounding carried
    into a 54th digit. *)
Definition rounded (m2 e1 : Z) : spec_float :=
  if m2 =? 9007199254740992
  then S754_finite false 4503599627370496 (e1 + 1)
  else S754_finite false (Z.to_pos m2) e1.

Lemma shr_fexp_keep (m e : Z) (l : location) :
  0 < m -> fexp prec emax (Zdigits2 m + e) = e ->
  shr_fexp prec emax m e l = (shr_record_of_loc m l, e).
Proof.
  intros Hm H. unfold shr_fexp. rewrite H, Z.sub_diag. reflexivity.
Qed.

Lemma shr_fexp_one (m e : Z) (l : location) :
  0 < m -> fexp prec emax (Zdigits2 m + e) = e + 1 ->
  shr_fexp prec emax m e l = (shr_1 (shr_record_of_loc m l), e + 1).
Proof.
  intros Hm H. unfold shr_fexp. rewrite H.
  replace (e + 1 - e) with 1 by lia. reflexivity.
Qed.

Lemma pow2_52 : 2 ^ 52 = 4503599627370496. Proof. reflexivity. Qed.
Lemma pow2_53 : 2 ^ 53 = 9007199254740992. Proof. reflexivity. Qed.

Lemma round_second (m2 e1 : Z) :
  4503599627370496 <= m2 <= 9007199254740992 ->
  -1074 <= e1 -> e1 + 1 <= 971 ->
  (let '(mrs'', e'') := shr_fexp prec emax m2 e1 loc_Exact in
   match shr_m mrs'' with
   | Z0 => S754_zero false
   | Zpos m => if e'' <=? emax - prec then S754_finite false m e''
               else S754_infinity false
   | Zneg _ => S754_nan
   end) = rounded m2 e1.
Proof.
  intros Hm He1 He2. unfold rounded.
  change (emax - prec) with 971.
  destruct (Z.eqb_spec m2 9007199254740992) as [->|Hne].
  - rewrite shr_fexp_one; [|lia|].
    + cbn [shr_record_of_loc shr_1 shr_m].
      now replace (e1 + 1 <=? 971) with true by (symmetry; apply Z.leb_le; lia).
    + rewrite fexp_eq. change (Zdigits2 9007199254740992) with 54. lia.
  - assert (Zdigits2 m2 = 53) as Hd
      by (apply Zdigits2_unique; [rewrite pow2_53; change (2 ^ (53 - 1)) with 4503599627370496|]; lia).
    rewrite shr_fexp_keep; [|lia|rewrite fexp_eq, Hd; lia].
    cbn [shr_record_of_loc shr_m]. destruct m2 as [|q|q]; try lia.
    now replace (e1 <=? 971) with true by (symmetry; apply Z.leb_le; lia).
Qed.

(** Rounding a positive mantissa of [53 + s] digits in the normal range. *)
Lemma binary_round_aux_normal (m e : Z) (l : location) (s : Z) :
  0 < m -> 0 <= s -> Zdigits2 m = 53 + s ->
  -1074 <= e + s -> e + s + 1 <= 971 ->
  exists m2,
    (m2 = m / 2 ^ s \/ m2 = m / 2 ^ s + 1)
    /\ (l = loc_Exact -> s = 0 \/ (s = 1 /\ Z.even m = true) -> m2 = m / 2 ^ s)
    /\ binary_round_aux prec emax false m e l = rounded m2 (e + s).
Proof.
  intros Hm Hs Hd He1 He2. unfold binary_round_aux.
  assert (fexp prec emax (Zdigits2 m + e) - e = s) as Hsh by (rewrite fexp_eq, Hd; lia).
  destruct (shr_fexp_m m e l (Z.lt_le_incl _ _ Hm)) as [H1 H2].
  destruct (shr_fexp_pos m e l Hm) as [Hp HD]; [rewrite Hd; lia|].
  assert (l = loc_Exact -> s = 0 \/ (s = 1 /\ Z.even m = true) ->
          loc_of_shr_record (fst (shr_fexp prec emax m e l)) = loc_Exact) as Hex.
  { intros -> [->|[-> Hev]].
    - rewrite shr_fexp_keep; [reflexivity | assumption | lia].
    - rewrite shr_fexp_one; [| assumption | lia].
      destruct m as [|[p|p|]|p]; try discriminate; try lia. reflexivity. }
  destruct (shr_fexp prec emax m e l) as [mrs' e'] eqn:E1. cbn [fst snd] in *.
  rewrite Hsh in H1, H2. replace (Z.max 0 s) with s in H1, H2 by lia.
  assert (Zdigits2 (shr_m mrs') = 53) as Hd1 by lia.
  pose proof (Zdigits2_bounds (shr_m mrs') Hp) as Hb. rewrite Hd1 in Hb.
  change (2 ^ (53 - 1)) with 4503599627370496 in Hb. rewrite pow2_53 in Hb.
  exists (round_nearest_even (shr_m mrs') (loc_of_shr_record mrs')).
  split; [rewrite <- H1; apply round_nearest_even_bounds|]. split.
  - intros Hl Hc. rewrite (Hex Hl Hc). cbn [round_nearest_even]. exact H1.
  - rewrite H2. apply round_second; [|lia|lia].
    destruct (round_nearest_even_bounds (shr_m mrs') (loc_of_shr_record mrs')) as [-> | ->]; lia.
Qed.

(** [float(z)] for a Python int, as [int * float] and [int + float] convert
    their int operand: the nearest binary64, ties to even.  (Python raises
    [OverflowError] where this gives an infinity, beyond 2^1024.) *)
Definition float_of_int (z : Z) : float :=
  SF2Prim (binary_normalize prec emax z 0 false).

(** [math.ceil(x)]: the least integer not below [x]; [None] where Python
    raises (infinities and NaN). *)
Definition math_ceil (x : float) : option Z :=
  match Prim2SF x with
  | S754_zero _ => Some 0
  | S754_finite s m e =>
      let v := if s then Zneg m else Zpos m in
      Some (if 0 <=? e then v * 2 ^ e else - (- v / 2 ^ (- e)))
  | _ => None
  end.

Lemma pow2_pos (k : Z) : 0 <= k -> 0 < 2 ^ k.
Proof. intros. apply Z.pow_pos_nonneg; lia. Qed.

(** An int of at most 53 bits converts exactly: the mantissa is the int
    shifted up to 53 digits. *)
Lemma float_of_int_exact (n : Z) :
  0 < n -> Zdigits2 n <= 53 ->
  exists mz : positive,
    Prim2SF (float_of_int n) = S754_finite false mz (Zdigits2 n - 53)
    /\ Zpos mz = n * 2 ^ (53 - Zdigits2 n)
    /\ Zdigits2 (Zpos mz) = 53.
Proof.
  intros Hn Hb. destruct n as [|p|p]; try lia.
  assert (0 < Zdigits2 (Zpos p)) as Hb0
    by (rewrite Zdigits2_log2 by lia; pose proof (Z.log2_nonneg (Zpos p)); lia).
  set (b := Zdigits2 (Zpos p)) in *.
  unfold float_of_int. cbn [binary_normalize]. unfold binary_round.
  change (Zpos (digits2_pos p)) with b. rewrite Z.add_0_r.
  assert (fexp prec emax b = b - 53) as Hf by (rewrite fexp_eq; lia).
  rewrite Hf.
  destruct (shl_align_le p 0 (b - 53)) as [Hv He]; [lia|].
  pose proof (shl_align_digits p 0 (b - 53)) as Hd.
  destruct (shl_align p 0 (b - 53)) as [mz ez]. cbn [fst snd] in *. subst ez.
  change (Zpos (digits2_pos p)) with b in Hd.
  assert (Zdigits2 (Zpos mz) = 53) as Hdz by (cbn [Zdigits2]; lia).
  destruct (binary_round_aux_normal (Zpos mz) (b - 53) loc_Exact 0)
    as (m2 & _ & Hex & ->); try lia.
  rewrite (Hex eq_refl (or_introl eq_refl)).
  change (2 ^ 0) with 1. rewrite Z.div_1_r, Z.add_0_r.
  pose proof (Zdigits2_bounds (Zpos mz)) as Hbd. rewrite Hdz, pow2_53 in Hbd.
  unfold rounded.
  replace (Zpos mz =? 9007199254740992) with false by (symmetry; apply Z.eqb_neq; lia).
  cbn [Z.to_pos]. exists mz. split; [|split; [|assumption]].
  - apply FloatAxioms.Prim2SF_SF2Prim. cbn [SpecFloat.valid_binary]. unfold bounded, canonical_mantissa.
    apply andb_true_iff. split.
    + apply Z.eqb_eq. change (Zpos (digits2_pos mz)) with (Zdigits2 (Zpos mz)).
      rewrite Hdz, fexp_eq. lia.
    + apply Z.leb_le. change (emax - prec) with 971. lia.
  - rewrite Hv. f_equal. f_equal. lia.
Qed.

Lemma halve_quotient (a k : Z) : 0 <= k -> 2 * a / 2 ^ (1 + k) = a / 2 ^ k.
Proof.
  intros Hk. rewrite Z.pow_add_r by lia. change (2 ^ 1) with 2.
  apply Z.div_mul_cancel_l; [|discriminate].
  pose proof (pow2_pos k Hk). lia.
Qed.

(** [ceil] of a rounded result with a negative exponent. *)
Lemma math_ceil_rounded (x : float) (m2 e1 : Z) :
  Prim2SF x = rounded m2 e1 -> 0 < m2 -> e1 + 1 < 0 ->
  math_ceil x = Some (- (- m2 / 2 ^ (- e1))).
Proof.
  intros Hx Hm He. unfold math_ceil. rewrite Hx. unfold rounded.
  destruct (Z.eqb_spec m2 9007199254740992) as [->|Hne].
  - replace (0 <=? e1 + 1) with false by (symmetry; apply Z.leb_gt; lia).
    f_equal. f_equal.
    replace (- e1) with (1 + - (e1 + 1)) by lia.
    symmetry. apply (halve_quotient (- 4503599627370496)). lia.
  - replace (0 <=? e1) with false by (symmetry; apply Z.leb_gt; lia).
    destruct m2 as [|q|q]; try lia. reflexivity.
Qed.

(** The ceiling of [a / b], as a quotient of integers. *)
Lemma ceil_div_unique (a b k : Z) :
  0 < b -> (k - 1) * b < a <= k * b -> - (- a / b) = k.
Proof.
  intros Hb H. assert (- a / b = - k) as ->; [|lia].
  symmetry. apply Z.div_unique with (k * b - a); lia.
Qed.

Lemma Zdigits2_le (n b : Z) : 0 < n -> 0 <= b -> n < 2 ^ b -> Zdigits2 n <= b.
Proof.
  intros Hn Hb Hlt. pose proof (Zdigits2_bounds n Hn) as [Hlo _].
  destruct (Z.le_gt_cases (Zdigits2 n) b) as [|Hgt]; [assumption|].
  assert (2 ^ b <= 2 ^ (Zdigits2 n - 1)) by (apply Z.pow_le_mono_r; lia). lia.
Qed.

Lemma Zdigits2_pos (n : Z) : 0 < n -> 0 < Zdigits2 n.
Proof.
  intros Hn. rewrite Zdigits2_log2 by assumption.
  pose proof (Z.log2_nonneg n). lia.
Qed.

Lemma square_lt_inv (a b : Z) : 0 <= a -> 0 <= b -> a * a < b * b -> a < b.
Proof. intros. nia. Qed.

Lemma square_le_mono (a b : Z) : 0 <= a -> a <= b -> a * a <= b * b.
Proof. intros. nia. Qed.

(** The integer square root that [SFsqrt] rounds, for the float of an int
    [n] of [b <= 50] bits: it is the root of [n * M^2] with [M = 2^E],
    [E = 53 - (b + 1) / 2], and has 53 digits. *)
Lemma sqrt_core_int (mz : positive) (n b : Z) :
  0 < n -> b = Zdigits2 n -> b <= 50 ->
  Zpos mz = n * 2 ^ (53 - b) -> Zdigits2 (Zpos mz) = 53 ->
  let E := 53 - (b + 1) / 2 in
  exists q r,
    SFsqrt_core_binary prec emax (Zpos mz) (b - 53)
    = (q, - E, if r =? 0 then loc_Exact
               else loc_Inexact (if r <=? q then Lt else Gt))
    /\ n * (2 ^ E * 2 ^ E) = q * q + r /\ 0 <= r <= 2 * q
    /\ Zdigits2 q = 53.
Proof.
  intros Hn Hb Hb50 Hmz Hdz E.
  pose proof (Zdigits2_pos n Hn) as Hb0. rewrite <- Hb in Hb0.
  unfold SFsqrt_core_binary. rewrite Hdz.
  replace (53 + (b - 53) + 1) with (b + 1) by lia.
  rewrite !Z.div2_div, fexp_eq.
  assert (Z.min (Z.max ((b + 1) / 2 - 53) (-1074)) ((b - 53) / 2) = - E) as ->.
  { subst E. Z.div_mod_to_equations. lia. }
  set (s := b - 53 - 2 * - E).
  assert (s = 52 \/ s = 53) as Hs by (subst s E; Z.div_mod_to_equations; lia).
  assert (0 <= E) as HE by (subst E; Z.div_mod_to_equations; lia).
  assert (Z.shiftl (Zpos mz) s = n * (2 ^ E * 2 ^ E)) as Hm'.
  { rewrite Z.shiftl_mul_pow2 by lia. rewrite Hmz, <- Z.mul_assoc.
    f_equal. rewrite <- !Z.pow_add_r by lia. f_equal. subst s. lia. }
  assert ((match s with Zpos _ => Z.shiftl (Zpos mz) s | Z0 => Zpos mz | Zneg _ => 0 end)
          = n * (2 ^ E * 2 ^ E)) as ->
    by (destruct s; try lia; exact Hm').
  pose proof (pow2_pos E HE) as HM.
  assert (0 <= n * (2 ^ E * 2 ^ E)) as Hnn by nia.
  pose proof (Z.sqrtrem_spec _ Hnn) as Hspec.
  destruct (Z.sqrtrem (n * (2 ^ E * 2 ^ E))) as [q r]. destruct Hspec as [Heq Hr].
  exists q, r. split; [reflexivity|]. split; [exact Heq|]. split; [exact Hr|].
  (* the radicand lies in [2^104, 2^106) *)
  pose proof (Zdigits2_bounds (Zpos mz) eq_refl) as Hbz. rewrite Hdz in Hbz.
  assert (2 ^ 104 <= n * (2 ^ E * 2 ^ E) < 2 ^ 106) as Hrad.
  { rewrite <- Hm', Z.shiftl_mul_pow2 by lia.
    pose proof (pow2_pos s ltac:(lia)) as Hps.
    assert (2 ^ 52 <= 2 ^ s) by (apply Z.pow_le_mono_r; lia).
    assert (2 ^ s <= 2 ^ 53) by (apply Z.pow_le_mono_r; lia).
    change (2 ^ (53 - 1)) with (2 ^ 52) in Hbz.
    change (2 ^ 104) with (2 ^ 52 * 2 ^ 52). change (2 ^ 106) with (2 ^ 53 * 2 ^ 53).
    split.
    - apply Z.mul_le_mono_nonneg; lia.
    - apply Z.le_lt_trans with (Zpos mz * 2 ^ 53);
        [apply Z.mul_le_mono_nonneg_l; lia | apply Z.mul_lt_mono_pos_r; lia]. }
  assert (0 <= q) as Hq0 by lia.
  apply Zdigits2_unique; [|lia]. change (2 ^ (53 - 1)) with (2 ^ 52). split.
  - destruct (Z.le_gt_cases (2 ^ 52) q) as [|Hlt]; [assumption|exfalso].
    assert ((q + 1) * (q + 1) <= 2 ^ 52 * 2 ^ 52) by (apply square_le_mono; lia).
    change (2 ^ 52 * 2 ^ 52) with (2 ^ 104) in *. lia.
  - destruct (Z.lt_ge_cases q (2 ^ 53)) as [|Hge]; [assumption|exfalso].
    assert (2 ^ 53 * 2 ^ 53 <= q * q) by (apply square_le_mono; lia).
    change (2 ^ 53 * 2 ^ 53) with (2 ^ 106) in *. lia.
Qed.

(** [math.ceil(n ** 0.5)], the power computed as the correctly rounded
    square root, is the exact ceiling of the root for every [n < 2^32]. *)
Lemma ceil_sqrt_exact (n k : Z) :
  0 < n < 2 ^ 32 -> 0 < k -> (k - 1) * (k - 1) < n <= k * k ->
  math_ceil (PrimFloat.sqrt (float_of_int n)) = Some k.
Proof.
  intros [Hn Hn32] Hk [Hlo Hhi].
  pose proof (Zdigits2_le n 32 Hn ltac:(lia) Hn32) as Hb32.
  pose proof (Zdigits2_pos n Hn) as Hb0.
  destruct (float_of_int_exact n Hn ltac:(lia)) as (mz & HF & Hmz & Hdz).
  set (b := Zdigits2 n) in *.
  destruct (sqrt_core_int mz n b Hn eq_refl ltac:(lia) Hmz Hdz)
    as (q & r & Hcore & Heq & Hr & Hdq).
  set (E := 53 - (b + 1) / 2) in *.
  assert (37 <= E <= 52) as HE by (subst E; Z.div_mod_to_equations; lia).
  assert (0 < q) as Hq
    by (pose proof (Zdigits2_bounds q) as Hbq; destruct q; try lia; discriminate).
  destruct (binary_round_aux_normal q (- E)
              (if r =? 0 then loc_Exact else loc_Inexact (if r <=? q then Lt else Gt)) 0)
    as (m2 & Hm2 & Hex & Hround); try lia.
  change (2 ^ 0) with 1 in Hm2, Hex. rewrite Z.div_1_r in Hm2, Hex.
  rewrite Z.add_0_r in Hround.
  assert (Prim2SF (PrimFloat.sqrt (float_of_int n)) = rounded m2 (- E)) as HS.
  { rewrite FloatAxioms.sqrt_spec, HF. unfold SF64sqrt, SFsqrt. rewrite Hcore. exact Hround. }
  rewrite (math_ceil_rounded _ m2 (- E) HS); [|lia|lia].
  rewrite Z.opp_involutive. f_equal.
  set (M := 2 ^ E) in *.
  assert (2 ^ 37 <= M) as HM by (subst M; apply Z.pow_le_mono_r; lia).
  assert (k <= 2 ^ 16) as Hk16.
  { assert (k - 1 < 2 ^ 16); [|lia]. apply square_lt_inv; lia. }
  change (2 ^ 37) with 137438953472 in HM. change (2 ^ 16) with 65536 in Hk16.
  apply ceil_div_unique; [lia|].
  destruct (Z.eq_dec n (k * k)) as [Hsq|Hnsq].
  - (* a perfect square: the root is exact *)
    assert (q = k * M) as Hqk.
    { assert (k * M < q + 1)
        by (apply square_lt_inv; try nia).
      assert (q < k * M + 1)
        by (apply square_lt_inv; try nia).
      lia. }
    assert (r = 0) as -> by nia.
    cbn [Z.eqb] in Hex. rewrite (Hex eq_refl (or_introl eq_refl)). nia.
  - (* otherwise the root stays strictly between (k-1) M and k M *)
    assert (q < k * M) as Hup by (apply square_lt_inv; try nia).
    assert ((k - 1) * M < q) as Hdn.
    { assert ((k - 1) * M + 1 < q + 1); [|lia].
      apply square_lt_inv; try nia. }
    destruct Hm2 as [-> | ->]; lia.
Qed.

Lemma new_location_zero (nb_steps : Z) : new_location nb_steps 0 = loc_Exact.
Proof.
  unfold new_location, new_location_even, new_location_odd.
  now destruct (Z.even nb_steps).
Qed.

(** The integer quotient that [SFdiv] rounds, for the floats of two ints
    [n] and [c] of [b1] and [b2] bits: it is the quotient of [n * M] by [c]
    with [M = 2^E], [E = 53 + b2 - b1], and it has 53 or 54 digits. *)
Lemma div_core_int (m1 m2 : positive) (n c b1 b2 : Z) :
  0 < n -> 0 < c -> b1 = Zdigits2 n -> b2 = Zdigits2 c -> b1 <= 53 -> b2 <= 53 ->
  Zpos m1 = n * 2 ^ (53 - b1) -> Zdigits2 (Zpos m1) = 53 ->
  Zpos m2 = c * 2 ^ (53 - b2) -> Zdigits2 (Zpos m2) = 53 ->
  let E := 53 + b2 - b1 in
  exists q r0 l,
    SFdiv_core_binary prec emax (Zpos m1) (b1 - 53) (Zpos m2) (b2 - 53)
    = (q, - E, l)
    /\ n * 2 ^ E = c * q + r0 /\ 0 <= r0 < c
    /\ (r0 = 0 -> l = loc_Exact)
    /\ 53 <= Zdigits2 q <= 54.
Proof.
  intros Hn Hc Hb1 Hb2 Hb1' Hb2' Hm1 Hd1 Hm2 Hd2 E.
  pose proof (Zdigits2_pos n Hn) as Hb10. rewrite <- Hb1 in Hb10.
  pose proof (Zdigits2_pos c Hc) as Hb20. rewrite <- Hb2 in Hb20.
  unfold SFdiv_core_binary. rewrite Hd1, Hd2, fexp_eq.
  assert (Z.min (Z.max (53 + (b1 - 53) - (53 + (b2 - 53)) - 53) (-1074))
                (b1 - 53 - (b2 - 53)) = - E) as -> by (subst E; lia).
  replace (b1 - 53 - (b2 - 53) - - E) with 53 by (subst E; lia).
  set (T := 2 ^ (53 - b2)) in *.
  set (M := 2 ^ E).
  assert (0 < T) as HT by (apply pow2_pos; lia).
  assert (0 < M) as HM by (apply pow2_pos; subst E; lia).
  assert (Z.shiftl (Zpos m1) 53 = n * M * T) as Hm'.
  { rewrite Z.shiftl_mul_pow2 by lia. rewrite Hm1, <- !Z.mul_assoc. f_equal.
    subst M T. rewrite <- !Z.pow_add_r by (subst E; lia). f_equal. subst E. lia. }
  rewrite Hm', Hm2.
  pose proof (Z.div_mod (n * M * T) (c * T) ltac:(nia)) as Hdm.
  pose proof (Z.mod_pos_bound (n * M * T) (c * T) ltac:(nia)) as Hmb.
  unfold Z.div, Z.modulo in Hdm, Hmb.
  destruct (Z.div_eucl (n * M * T) (c * T)) as [q r].
  (* the remainder is a multiple of T *)
  assert (exists r0, r = T * r0) as [r0 ->].
  { exists (n * M - c * q). nia. }
  assert (n * M = c * q + r0) as Hq by nia.
  assert (0 <= r0 < c) as Hr0 by nia.
  exists q, r0, (new_location (c * T) (T * r0)).
  split; [reflexivity|]. split; [exact Hq|]. split; [exact Hr0|]. split.
  - intros ->. rewrite Z.mul_0_r. apply new_location_zero.
  - (* 2^52 <= q < 2^54 *)
    pose proof (Zdigits2_bounds n Hn) as Hbn. rewrite <- Hb1 in Hbn.
    pose proof (Zdigits2_bounds c Hc) as Hbc. rewrite <- Hb2 in Hbc.
    assert (2 ^ (b1 - 1) * M = 2 ^ 52 * 2 ^ b2) as HlowM.
    { subst M. rewrite <- !Z.pow_add_r by (subst E; lia). f_equal. subst E. lia. }
    assert (2 ^ b1 * M = 2 ^ 54 * 2 ^ (b2 - 1)) as HupM.
    { subst M. rewrite <- !Z.pow_add_r by (subst E; lia). f_equal. subst E. lia. }
    assert (2 ^ 52 * 2 ^ b2 <= n * M) as Hlo
      by (rewrite <- HlowM; apply Z.mul_le_mono_nonneg_r; lia).
    assert (n * M < 2 ^ 54 * 2 ^ (b2 - 1)) as Hhi
      by (rewrite <- HupM; apply Z.mul_lt_mono_pos_r; lia).
    assert (2 ^ 52 <= q < 2 ^ 54) as [Hq1 Hq2].
    { change (2 ^ 52) with 4503599627370496 in *.
      change (2 ^ 54) with 18014398509481984 in *. split; nia. }
    assert (0 < q) by (change (2 ^ 52) with 4503599627370496 in *; lia).
    destruct (Z.lt_ge_cases q (2 ^ 53)) as [Hlt|Hge].
    + rewrite (Zdigits2_unique q 53); [lia | | lia]. split; assumption.
    + rewrite (Zdigits2_unique q 54); [lia | | lia]. split; assumption.
Qed.

(** [math.ceil(n / c)] on ints below [2^32], the quotient computed in
    binary64, is the exact ceiling of the quotient. *)
Lemma ceil_div_exact (n c j : Z) :
  0 < n < 2 ^ 32 -> 0 < c < 2 ^ 32 -> (j - 1) * c < n <= j * c ->
  math_ceil (float_of_int n / float_of_int c) = Some j.
Proof.
  intros [Hn Hn32] [Hc Hc32] [Hlo Hhi].
  pose proof (Zdigits2_le n 32 Hn ltac:(lia) Hn32) as Hb1.
  pose proof (Zdigits2_le c 32 Hc ltac:(lia) Hc32) as Hb2.
  pose proof (Zdigits2_pos n Hn) as Hb10.
  pose proof (Zdigits2_pos c Hc) as Hb20.
  destruct (float_of_int_exact n Hn ltac:(lia)) as (m1 & HF1 & Hm1 & Hd1).
  destruct (float_of_int_exact c Hc ltac:(lia)) as (m2 & HF2 & Hm2 & Hd2).
  set (b1 := Zdigits2 n) in *. set (b2 := Zdigits2 c) in *.
  destruct (div_core_int m1 m2 n c b1 b2 Hn Hc eq_refl eq_refl ltac:(lia) ltac:(lia)
              Hm1 Hd1 Hm2 Hd2) as (q & r0 & l & Hcore & Hq & Hr0 & Hl & Hdq).
  set (E := 53 + b2 - b1) in *.
  assert (0 < q) as Hq0.
  { pose proof (pow2_pos E ltac:(subst E; lia)) as HpE.
    assert (0 <= q) by nia. destruct q; cbn in Hdq; lia. }
  set (s := Zdigits2 q - 53).
  destruct (binary_round_aux_normal q (- E) l s) as (mv & Hmv & Hex & Hround);
    try (subst s E; lia).
  assert (Prim2SF (float_of_int n / float_of_int c) = rounded mv (- E + s)) as HS.
  { rewrite FloatAxioms.div_spec, HF1, HF2. unfold SF64div, SFdiv. rewrite Hcore. exact Hround. }
  assert (s = 0 \/ s = 1) as Hs by (subst s; lia).
  assert (0 < q / 2 ^ s) as Hqs.
  { pose proof (Zdigits2_bounds q Hq0) as [Hbq _].
    assert (2 ^ 52 <= 2 ^ (Zdigits2 q - 1)) by (apply Z.pow_le_mono_r; lia).
    change (2 ^ 52) with 4503599627370496 in *.
    apply Z.div_str_pos. destruct Hs as [-> | ->];
      [change (2 ^ 0) with 1 | change (2 ^ 1) with 2]; lia. }
  rewrite (math_ceil_rounded _ mv (- E + s) HS); [|lia | subst s E; lia].
  f_equal. replace (- (- E + s)) with (E - s) by lia.
  (* M = 2^E is at least 2 c *)
  pose proof (Zdigits2_bounds c Hc) as Hbc. fold b2 in Hbc.
  assert (2 ^ (b2 + 1) <= 2 ^ E) as HM2 by (apply Z.pow_le_mono_r; subst E; lia).
  rewrite Z.pow_add_r in HM2 by lia. change (2 ^ 1) with 2 in HM2.
  set (M := 2 ^ E) in *.
  assert (2 * c <= M) as HMc by lia.
  assert (M = 2 ^ (E - s) * 2 ^ s) as HMs
    by (subst M; rewrite <- Z.pow_add_r by (subst E; lia); f_equal; lia).
  assert (0 < 2 ^ (E - s)) as HM' by (apply pow2_pos; subst E; lia).
  apply ceil_div_unique; [assumption|].
  set (M' := 2 ^ (E - s)) in *.
  destruct (Z.eq_dec n (j * c)) as [Hdiv|Hndiv].
  - (* c divides n: the quotient is exact *)
    assert (q = j * M /\ r0 = 0) as [Hqj ->].
    { assert (r0 = c * (j * M - q)) as Hr by (rewrite Hdiv in Hq; lia).
      remember (j * M - q) as X eqn:HX. assert (X = 0) by nia. lia. }
    specialize (Hl eq_refl). subst l.
    destruct Hs as [Hs0|Hs1].
    + rewrite (Hex eq_refl (or_introl Hs0)). rewrite Hs0 in *.
      change (2 ^ 0) with 1 in *. rewrite Z.div_1_r. nia.
    + assert (q = j * M' * 2) as Hq2 by (rewrite Hqj, HMs, Hs1; change (2 ^ 1) with 2; ring).
      rewrite (Hex eq_refl); [|right; split; [exact Hs1|]].
      * rewrite Hs1. change (2 ^ 1) with 2. rewrite Hq2, Z.div_mul by discriminate. nia.
      * rewrite Hq2, Z.even_mul. apply orb_true_r.
  - (* otherwise the quotient stays 2 away from (j-1) M and from j M *)
    assert ((j - 1) * M + 2 <= q) as Hdn by nia.
    assert (q <= j * M - 2) as Hup by nia.
    destruct Hs as [Hs0|Hs1].
    + rewrite Hs0 in *. change (2 ^ 0) with 1 in *. rewrite Z.div_1_r in Hmv.
      rewrite Z.mul_1_r in HMs. destruct Hmv as [-> | ->]; lia.
    + rewrite Hs1 in *. change (2 ^ 1) with 2 in *.
      assert ((j - 1) * M' + 1 <= q / 2 <= j * M' - 1) as Hq2
        by (split; [apply Z.div_le_lower_bound | apply Z.div_le_upper_bound]; lia).
      destruct Hmv as [-> | ->]; lia.
Qed.

End PyFloat.

(** ** draw.py *)
Module Draw.

Definition point : Type := Z * Z.

(** The body of [for i in range(0, w_abs)] in the x-major branch of [line]:
    [n] iterations remain, [(x, y, pk)] are the loop-carried variables; every
    iteration yields one point. *)
Fixpoint line_loop_x (n : nat) (dx dy w_abs h_abs x y pk : Z) : list point :=
  match n with
  | O => []
  | S n' =>
      let x := x + dx in
      if pk <? 0
      then (x, y) :: line_loop_x n' dx dy w_abs h_abs x y (pk + 2 * h_abs)
      else let y := y + dy in
           (x, y) :: line_loop_x n' dx dy w_abs h_abs x y
                       (pk + (2 * h_abs - 2 * w_abs))
  end.

(** The body of [for i in range(0, h_abs)] in the y-major branch. *)
Fixpoint line_loop_y (n : nat) (dx dy w_abs h_abs x y pk : Z) : list point :=
  match n with
  | O => []
  | S n' =>
      let y := y + dy in
      if pk <? 0
      then (x, y) :: line_loop_y n' dx dy w_abs h_abs x y (pk + 2 * w_abs)
      else let x := x + dx in
           (x, y) :: line_loop_y n' dx dy w_abs h_abs x y
                       (pk + (2 * w_abs - 2 * h_abs))
  end.

(** [line(x1, y1, x2, y2)]: the generator, as the list of what it yields. *)
Definition line (x1 y1 x2 y2 : Z) : list point :=
  let w := x2 - x1 in
  let w_abs := Z.abs w in
  let h := y2 - y1 in
  let h_abs := Z.abs h in
  let x := x1 in
  let y := y1 in
  let dx := if w <? 0 then -1 else 1 in
  let dy := if h <? 0 then -1 else 1 in
  if Z.abs w >? Z.abs h
  then (x, y) :: line_loop_x (Z.to_nat w_abs) dx dy w_abs h_abs x y
                   (2 * h_abs - w_abs)
  else (x, y) :: line_loop_y (Z.to_nat h_abs) dx dy w_abs h_abs x y
                   (2 * w_abs - h_abs).

(** A color is a sequence of four floats, [color[0]] .. [color[3]]. *)
Record color := Color { red : float; green : float; blue : float; alpha : float }.

(** [bpy.types.Image] as the drawing functions see it: [img.size] and the
    flat float array [img.pixels]. *)
Record image := Image { size : Z * Z; pixels : list float }.

Local Open Scope py_scope.

Definition draw_replace (size0 : Z) (dots : list point) (c : color)
    (replace_alpha : bool) : Py.M unit :=
  Py.for_each dots (fun '(x, y) =>
    let addr := 4 * (size0 * y + x) in
    Py.setitem (addr + 0) (red c) ;;
    Py.setitem (addr + 1) (green c) ;;
    Py.setitem (addr + 2) (blue c) ;;
    if replace_alpha then Py.setitem (addr + 3) (alpha c) else Py.ret tt).

(** The two quantities [draw_alpha] computes per pixel from the incoming
    alpha [a] and the destination alpha [pix[addr + 3]]. *)
Definition alpha_da (a dst : float) : float := (a * (1 - dst))%float.
Definition alpha_outa (a dst : float) : float := (dst + alpha_da a dst)%float.

Definition draw_alpha (size0 : Z) (dots : list point) (c : color) : Py.M unit :=
  if (alpha c =? 0)%float then Py.ret tt
  else
    Py.for_each dots (fun '(x, y) =>
      let addr := 4 * (size0 * y + x) in
      let a := alpha c in
      let* p3 := Py.getitem (addr + 3) in
      let da := alpha_da a p3 in
      let* p3' := Py.getitem (addr + 3) in
      let outa := (p3' + da)%float in
      let* p0 := Py.getitem addr in
      let* v0 := Py.truediv (p0 * a + red c * da)%float outa in
      Py.setitem addr v0 ;;
      let* p1 := Py.getitem (addr + 1) in
      let* v1 := Py.truediv (p1 * a + green c * da)%float outa in
      Py.setitem (addr + 1) v1 ;;
      let* p2 := Py.getitem (addr + 2) in
      let* v2 := Py.truediv (p2 * a + blue c * da)%float outa in
      Py.setitem (addr + 2) v2 ;;
      Py.setitem (addr + 3) outa).

Definition draw_simple (size0 : Z) (dots : list point) (c : color) : Py.M unit :=
  if (alpha c =? 1)%float then draw_replace size0 dots c true
  else if (alpha c =? 0)%float
       then draw_replace size0 dots (Color 0 0 0 0) true
       else draw_alpha size0 dots c.

(** Running a drawing function on an image: only [img.pixels] is mutated. *)
Definition on_image (f : Z -> Py.M unit) (img : image) : Py.result unit * image :=
  let '(r, pix) := f (fst (size img)) (pixels img) in
  (r, Image (size img) pix).

Local Close Scope py_scope.

(** *** The stepper reaches its target *)

Lemma last_cons_default {A} (a d : A) (l : list A) :
  List.last (a :: l) d = List.last l a.
Proof.
  revert a d; induction l as [|b l IH]; intros a d; [reflexivity|].
  change (List.last (a :: b :: l) d) with (List.last (b :: l) d).
  now rewrite (IH b d), (IH b a).
Qed.

Section Stepper.
Variables (dx dy w_abs h_abs : Z).

Lemma line_loop_x_length n x y pk :
  length (line_loop_x n dx dy w_abs h_abs x y pk) = n.
Proof.
  revert x y pk; induction n as [|n IH]; intros x y pk; simpl; [reflexivity|].
  destruct (pk <? 0); simpl; now rewrite IH.
Qed.

Lemma line_loop_y_length n x y pk :
  length (line_loop_y n dx dy w_abs h_abs x y pk) = n.
Proof.
  revert x y pk; induction n as [|n IH]; intros x y pk; simpl; [reflexivity|].
  destruct (pk <? 0); simpl; now rewrite IH.
Qed.

(** Error-term invariant of the x-major loop.  With [i] major steps still to
    go and [j] minor steps still owed, [pk] stays in the window
    [2h - 2w <= pk < 2h] (which needs only [h <= w], so the lemma also
    serves the y-major loop, entered when [w <= h]) and equals [2h - w + 2h(w-i) - 2w(h-j)]; at [i = 0]
    the window forces [j = 0]. *)
Lemma line_loop_x_last n : forall x y pk j,
  0 <= h_abs <= w_abs -> 0 < w_abs ->
  Z.of_nat n <= w_abs ->
  2 * h_abs - 2 * w_abs <= pk < 2 * h_abs ->
  pk = 2 * h_abs - w_abs + 2 * h_abs * (w_abs - Z.of_nat n)
       - 2 * w_abs * (h_abs - j) ->
  List.last (line_loop_x n dx dy w_abs h_abs x y pk) (x, y)
  = (x + Z.of_nat n * dx, y + j * dy).
Proof.
  induction n as [|n IH]; intros x y pk j Hwh Hw Hn Hwin Hpk.
  - simpl. assert (j = 0) by nia. subst j. f_equal; lia.
  - cbn [line_loop_x].
    destruct (pk <? 0) eqn:E; [apply Z.ltb_lt in E | apply Z.ltb_ge in E].
    + rewrite last_cons_default.
      rewrite (IH (x + dx) y (pk + 2 * h_abs) j); try lia.
      f_equal; lia.
    + rewrite last_cons_default.
      rewrite (IH (x + dx) (y + dy) (pk + (2 * h_abs - 2 * w_abs)) (j - 1));
        try lia.
      f_equal; lia.
Qed.

Lemma line_loop_y_swap n : forall x y pk,
  line_loop_y n dx dy w_abs h_abs x y pk
  = map (fun p : point => (snd p, fst p))
        (line_loop_x n dy dx h_abs w_abs y x pk).
Proof.
  induction n as [|n IH]; intros x y pk; [reflexivity|].
  cbn [line_loop_x line_loop_y map].
  destruct (pk <? 0); cbn [map fst snd]; now rewrite IH.
Qed.
End Stepper.

Lemma last_map {A B} (f : A -> B) (l : list A) (d : A) :
  List.last (map f l) (f d) = f (List.last l d).
Proof.
  induction l as [|a l IH]; [reflexivity|].
  destruct l as [|b l]; [reflexivity|]. exact IH.
Qed.

Lemma line_last (x1 y1 x2 y2 : Z) (d : point) :
  List.last (line x1 y1 x2 y2) d = (x2, y2).
Proof.
  unfold line.
  destruct (Z.abs (x2 - x1) >? Z.abs (y2 - y1)) eqn:E.
  - apply Z.gtb_lt in E. rewrite last_cons_default.
    rewrite (line_loop_x_last _ _ _ _ _ _ _ _ (Z.abs (y2 - y1))); try lia.
    destruct (x2 - x1 <? 0) eqn:Ex; destruct (y2 - y1 <? 0) eqn:Ey;
      rewrite ?Z.ltb_lt, ?Z.ltb_ge in *; f_equal; lia.
  - rewrite Z.gtb_ltb in E. apply Z.ltb_ge in E. rewrite last_cons_default.
    rewrite line_loop_y_swap.
    change (x1, y1) with ((fun p : point => (snd p, fst p)) (y1, x1)).
    rewrite last_map.
    destruct (Z.eq_dec (Z.abs (y2 - y1)) 0) as [H0|H0].
    + rewrite H0. change (Z.to_nat 0) with O.
      cbn [line_loop_x List.last fst snd]. f_equal; lia.
    + rewrite (line_loop_x_last _ _ _ _ _ _ _ _ (Z.abs (x2 - x1))); try lia.
      cbn [fst snd].
      destruct (x2 - x1 <? 0) eqn:Ex; destruct (y2 - y1 <? 0) eqn:Ey;
        rewrite ?Z.ltb_lt, ?Z.ltb_ge in *; f_equal; lia.
Qed.

Lemma line_length (x1 y1 x2 y2 : Z) :
  Z.of_nat (length (line x1 y1 x2 y2))
  = Z.max (Z.abs (x2 - x1)) (Z.abs (y2 - y1)) + 1.
Proof.
  unfold line.
  destruct (Z.abs (x2 - x1) >? Z.abs (y2 - y1)) eqn:E;
    [apply Z.gtb_lt in E | rewrite Z.gtb_ltb in E; apply Z.ltb_ge in E];
    cbn [length]; rewrite ?line_loop_x_length, ?line_loop_y_length; lia.
Qed.

(** C1. For every pair of integer points the sequence yielded by [line]
    starts at P1, ends exactly at P2 (whatever default [last] is given, so
    the sequence is not empty) and has [max(|x2-x1|, |y2-y1|) + 1] elements;
    from (0,0) to (5,2) that is 6 points, first (0,0), last (5,2). *)
Theorem line_starts_ends_length (x1 y1 x2 y2 : Z) :
  hd_error (line x1 y1 x2 y2) = Some (x1, y1)
  /\ (forall d, List.last (line x1 y1 x2 y2) d = (x2, y2))
  /\ Z.of_nat (length (line x1 y1 x2 y2))
     = Z.max (Z.abs (x2 - x1)) (Z.abs (y2 - y1)) + 1
  /\ (length (line 0 0 5 2) = 6%nat
      /\ hd_error (line 0 0 5 2) = Some (0, 0)
      /\ List.last (line 0 0 5 2) (-1, -1) = (5, 2)).
Proof.
  split; [|split; [|split]].
  - unfold line. now destruct (_ >? _).
  - intro d. apply line_last.
  - apply line_length.
  - repeat split; reflexivity.
Qed.

(** *** Pixels of an image, as the drawing functions address them *)

Lemma getitem_inside (i : Z) (s : list float) (v : float) :
  0 <= i -> s !! Z.to_nat i = Some v -> Py.getitem i s = (Py.Ok v, s).
Proof.
  intros Hi Hv. pose proof (lookup_lt_Some _ _ _ Hv) as Hlt.
  unfold Py.getitem, Py.index.
  replace ((0 <=? i) && (i <? Z.of_nat (length s))) with true
    by (symmetry; apply andb_true_iff; split; [apply Z.leb_le | apply Z.ltb_lt]; lia).
  now rewrite Hv.
Qed.

Lemma setitem_inside (i : Z) (s : list float) (v : float) :
  0 <= i < Z.of_nat (length s) ->
  Py.setitem i v s = (Py.Ok tt, <[Z.to_nat i := v]> s).
Proof.
  intros Hi. unfold Py.setitem, Py.index.
  replace ((0 <=? i) && (i <? Z.of_nat (length s))) with true
    by (symmetry; apply andb_true_iff; split; [apply Z.leb_le | apply Z.ltb_lt]; lia).
  reflexivity.
Qed.

Section Canvas.
Variables (w h : Z).

(** [(x, y)] lies on the [w] by [h] canvas. *)
Definition inside (p : point) : Prop := 0 <= fst p < w /\ 0 <= snd p < h.

(** The pixel array holds [w * h] RGBA quadruples. *)
Definition well_sized (pix : list float) : Prop :=
  Z.of_nat (length pix) = 4 * w * h.

(** [addr = 4 * (img.size[0] * y + x)] as a position in the array. *)
Definition offset (p : point) : nat := Z.to_nat (4 * (w * snd p + fst p)).

(** The four channels stored for the pixel [(x, y)]. *)
Definition read_pixel (pix : list float) (p : point) : option color :=
  match pix !! offset p, pix !! (offset p + 1)%nat,
        pix !! (offset p + 2)%nat, pix !! (offset p + 3)%nat with
  | Some r, Some g, Some b, Some a => Some (Color r g b a)
  | _, _, _, _ => None
  end.

Definition write_pixel (pix : list float) (p : point) (c : color) : list float :=
  <[(offset p + 3)%nat := alpha c]>
    (<[(offset p + 2)%nat := blue c]>
       (<[(offset p + 1)%nat := green c]> (<[offset p := red c]> pix))).

Lemma inside_offset pix p :
  inside p -> well_sized pix ->
  Z.of_nat (offset p) = 4 * (w * snd p + fst p)
  /\ (offset p + 3 < length pix)%nat.
Proof.
  unfold inside, well_sized, offset. intros [Hx Hy] Hlen.
  split; [rewrite Z2Nat.id; nia|].
  apply Nat2Z.inj_lt. rewrite Nat2Z.inj_add, Z2Nat.id by nia. nia.
Qed.

Lemma offset_apart p q :
  inside p -> inside q -> p <> q ->
  (offset p + 4 <= offset q \/ offset q + 4 <= offset p)%nat.
Proof.
  destruct p as [x y], q as [x' y']. unfold inside, offset; cbn [fst snd].
  intros [Hx Hy] [Hx' Hy'] Hne.
  assert (w * y + x <> w * y' + x') as Hd.
  { intros Heq. apply Hne. assert (y = y') by nia. subst. f_equal. lia. }
  assert (0 <= w * y + x) by nia. assert (0 <= w * y' + x') by nia.
  destruct (Z.lt_total (w * y + x) (w * y' + x')) as [Hlt|[Heq|Hlt]];
    [left | contradiction | right]; apply Nat2Z.inj_le;
    rewrite Nat2Z.inj_add, !Z2Nat.id by lia; lia.
Qed.

Lemma write_pixel_length pix p c :
  length (write_pixel pix p c) = length pix.
Proof. unfold write_pixel. now rewrite !length_insert. Qed.

Lemma write_pixel_well_sized pix p c :
  well_sized pix -> well_sized (write_pixel pix p c).
Proof. unfold well_sized. now rewrite write_pixel_length. Qed.

Lemma read_pixel_inside pix p :
  inside p -> well_sized pix -> exists old, read_pixel pix p = Some old.
Proof.
  intros Hp Hs. destruct (inside_offset pix p Hp Hs) as [_ Hlt].
  unfold read_pixel.
  destruct (lookup_lt_is_Some_2 pix (offset p)) as [r ->]; [lia|].
  destruct (lookup_lt_is_Some_2 pix (offset p + 1)) as [g ->]; [lia|].
  destruct (lookup_lt_is_Some_2 pix (offset p + 2)) as [b ->]; [lia|].
  destruct (lookup_lt_is_Some_2 pix (offset p + 3)) as [a ->]; [lia|].
  eauto.
Qed.

Lemma read_write_same pix p c :
  inside p -> well_sized pix -> read_pixel (write_pixel pix p c) p = Some c.
Proof.
  intros Hp Hs. destruct (inside_offset pix p Hp Hs) as [_ Hlt].
  unfold read_pixel, write_pixel.
  repeat first
    [ rewrite list_lookup_insert_eq by (rewrite ?length_insert; lia)
    | rewrite list_lookup_insert_ne by lia ].
  now destruct c.
Qed.

Lemma read_write_other pix p q c :
  inside p -> inside q -> p <> q ->
  read_pixel (write_pixel pix p c) q = read_pixel pix q.
Proof.
  intros Hp Hq Hne. pose proof (offset_apart p q Hp Hq Hne) as Hd.
  unfold read_pixel, write_pixel.
  now rewrite !list_lookup_insert_ne by lia.
Qed.

(** A loop whose body rewrites the visited pixel as a function [g] of what
    it held, provided the old value is [good] (no exception on it), applied
    to distinct dots on the canvas: every visited pixel ends as [g] of its
    initial value and the others keep theirs. *)
Lemma for_each_pixelwise (body : point -> Py.M unit) (g : color -> color)
    (good : color -> Prop) :
  (forall pix p old, inside p -> well_sized pix ->
     read_pixel pix p = Some old -> good old ->
     body p pix = (Py.Ok tt, write_pixel pix p (g old))) ->
  forall dots pix,
    well_sized pix -> Forall inside dots -> NoDup dots ->
    (forall p old, p ∈ dots -> read_pixel pix p = Some old -> good old) ->
    exists pix',
      Py.for_each dots body pix = (Py.Ok tt, pix')
      /\ well_sized pix'
      /\ (forall p, p ∈ dots -> exists old,
            read_pixel pix p = Some old /\ read_pixel pix' p = Some (g old))
      /\ (forall q, inside q -> q ∉ dots -> read_pixel pix' q = read_pixel pix q).
Proof.
  intros Hbody dots. induction dots as [|p dots IH]; intros pix Hs Hin Hnd Hgood.
  - exists pix. split; [reflexivity|]. split; [assumption|].
    split; [intros q Hq; now apply elem_of_nil in Hq | reflexivity].
  - apply Forall_cons in Hin as [Hp Hin]. apply NoDup_cons in Hnd as [Hnp Hnd].
    destruct (read_pixel_inside pix p Hp Hs) as [old Hold].
    assert (good old) as Hg by (eapply Hgood; [left | exact Hold]).
    destruct (IH (write_pixel pix p (g old))) as (pix' & Hrun & Hs' & Hvis & Hoth);
      [now apply write_pixel_well_sized | assumption | assumption | |].
    { intros q oq Hq Hrq. apply (Hgood q oq); [now right|].
      assert (inside q) as Hq' by (eapply Forall_forall in Hin; eassumption).
      assert (p <> q) as Hne by (intros ->; contradiction).
      now rewrite (read_write_other pix p q _ Hp Hq' Hne) in Hrq. }
    exists pix'. split; [|split; [assumption|split]].
    + cbn [Py.for_each]. unfold Py.bind.
      now rewrite (Hbody pix p old Hp Hs Hold Hg).
    + intros q Hq. apply elem_of_cons in Hq as [->|Hq].
      * exists old. split; [assumption|].
        rewrite (Hoth p Hp Hnp). now apply read_write_same.
      * destruct (Hvis q Hq) as (oq & Hoq & Hnq). exists oq. split; [|assumption].
        assert (inside q) as Hq' by (eapply Forall_forall in Hin; eassumption).
        assert (p <> q) as Hne by (intros ->; contradiction).
        now rewrite (read_write_other pix p q _ Hp Hq' Hne) in Hoq.
    + intros q Hq Hnq. apply not_elem_of_cons in Hnq as [Hne Hnq].
      rewrite (Hoth q Hq Hnq). now apply read_write_other.
Qed.

(** A loop whose body stores the same color [c] at every dot: repeated
    dots are harmless. *)
Lemma for_each_overwrite (body : point -> Py.M unit) (c : color) :
  (forall pix p, inside p -> well_sized pix ->
     body p pix = (Py.Ok tt, write_pixel pix p c)) ->
  forall dots pix,
    well_sized pix -> Forall inside dots ->
    exists pix',
      Py.for_each dots body pix = (Py.Ok tt, pix')
      /\ well_sized pix'
      /\ (forall p, p ∈ dots -> read_pixel pix' p = Some c)
      /\ (forall q, inside q -> q ∉ dots -> read_pixel pix' q = read_pixel pix q).
Proof.
  intros Hbody dots. induction dots as [|p dots IH]; intros pix Hs Hin.
  - exists pix. split; [reflexivity|]. split; [assumption|].
    split; [intros q Hq; now apply elem_of_nil in Hq | reflexivity].
  - apply Forall_cons in Hin as [Hp Hin].
    destruct (IH (write_pixel pix p c)) as (pix' & Hrun & Hs' & Hvis & Hoth);
      [now apply write_pixel_well_sized | assumption |].
    exists pix'. split; [|split; [assumption|split]].
    + cbn [Py.for_each]. unfold Py.bind. now rewrite (Hbody pix p Hp Hs).
    + intros q Hq. destruct (decide (q ∈ dots)) as [Hqd|Hqd]; [now apply Hvis|].
      apply elem_of_cons in Hq as [->|Hq]; [|contradiction].
      rewrite (Hoth p Hp Hqd). now apply read_write_same.
    + intros q Hq Hnq. apply not_elem_of_cons in Hnq as [Hne Hnq].
      rewrite (Hoth q Hq Hnq). now apply read_write_other.
Qed.

Lemma read_pixel_channels pix p old :
  read_pixel pix p = Some old ->
  pix !! offset p = Some (red old)
  /\ pix !! (offset p + 1)%nat = Some (green old)
  /\ pix !! (offset p + 2)%nat = Some (blue old)
  /\ pix !! (offset p + 3)%nat = Some (alpha old).
Proof.
  unfold read_pixel.
  destruct (pix !! offset p), (pix !! (offset p + 1)%nat),
    (pix !! (offset p + 2)%nat), (pix !! (offset p + 3)%nat); try discriminate.
  now intros [= <-].
Qed.

Lemma addr_to_nat p (k : Z) :
  inside p -> 0 <= k ->
  Z.to_nat (4 * (w * snd p + fst p) + k) = (offset p + Z.to_nat k)%nat.
Proof.
  unfold inside, offset. intros [Hx Hy] Hk. rewrite Z2Nat.inj_add; [reflexivity | nia | lia].
Qed.

(** One iteration of the loop of [draw_replace] with [replace_alpha=True]. *)
Lemma draw_replace_dot c pix p :
  inside p -> well_sized pix ->
  draw_replace w [p] c true pix = (Py.Ok tt, write_pixel pix p c).
Proof.
  intros Hp Hs. destruct (inside_offset pix p Hp Hs) as [Ho Hlt].
  destruct p as [x y]. cbn [fst snd] in Ho.
  unfold draw_replace, write_pixel. cbn [Py.for_each]. unfold Py.bind.
  rewrite setitem_inside by lia.
  rewrite setitem_inside by (rewrite ?length_insert; lia).
  rewrite setitem_inside by (rewrite ?length_insert; lia).
  rewrite setitem_inside by (rewrite ?length_insert; lia).
  rewrite !(addr_to_nat (x, y)) by (assumption || lia).
  change (Z.to_nat 0) with 0%nat; change (Z.to_nat 1) with 1%nat;
    change (Z.to_nat 2) with 2%nat; change (Z.to_nat 3) with 3%nat.
  now rewrite Nat.add_0_r.
Qed.

(** What [draw_alpha] stores for a pixel that held [old]. *)
Definition composite (c old : color) : color :=
  let a := alpha c in
  let da := alpha_da a (alpha old) in
  let outa := alpha_outa a (alpha old) in
  Color ((red old * a + red c * da) / outa)
        ((green old * a + green c * da) / outa)
        ((blue old * a + blue c * da) / outa)
        outa.

(** One iteration of the loop of [draw_alpha], when the divisor is not 0. *)
Lemma draw_alpha_dot c pix p old :
  (alpha c =? 0)%float = false ->
  inside p -> well_sized pix -> read_pixel pix p = Some old ->
  (alpha_outa (alpha c) (alpha old) =? 0)%float = false ->
  draw_alpha w [p] c pix = (Py.Ok tt, write_pixel pix p (composite c old)).
Proof.
  intros Ha Hp Hs Hold Hdiv. destruct (inside_offset pix p Hp Hs) as [Ho Hlt].
  destruct (read_pixel_channels pix p old Hold) as (H0 & H1 & H2 & H3).
  destruct p as [x y]. cbn [fst snd] in Ho.
  set (n := offset (x, y)) in *.
  assert (forall k : Z, 0 <= k ->
            Z.to_nat (4 * (w * y + x) + k) = (n + Z.to_nat k)%nat) as Hk
    by (intros k; apply (addr_to_nat (x, y)); assumption).
  assert (Z.to_nat (4 * (w * y + x)) = n) as Hn by reflexivity.
  unfold draw_alpha, write_pixel, composite. rewrite Ha.
  cbn [Py.for_each]. unfold Py.bind, Py.truediv. fold n.
  rewrite !(getitem_inside (4 * (w * y + x) + 3) pix (alpha old))
    by (try lia; rewrite Hk by lia; exact H3).
  change (alpha old + alpha_da (alpha c) (alpha old))%float
    with (alpha_outa (alpha c) (alpha old)).
  rewrite Hdiv. unfold Py.ret.
  rewrite (getitem_inside _ pix (red old)) by (try lia; rewrite Hn; exact H0).
  rewrite setitem_inside by lia. rewrite Hn.
  rewrite (getitem_inside _ _ (green old))
    by (try lia; rewrite Hk by lia; rewrite list_lookup_insert_ne by lia; exact H1).
  rewrite setitem_inside by (rewrite ?length_insert; lia). rewrite Hk by lia.
  rewrite (getitem_inside _ _ (blue old))
    by (try lia; rewrite Hk by lia; rewrite !list_lookup_insert_ne by lia; exact H2).
  rewrite setitem_inside by (rewrite ?length_insert; lia). rewrite Hk by lia.
  rewrite setitem_inside by (rewrite ?length_insert; lia). rewrite Hk by lia.
  reflexivity.
Qed.
End Canvas.

Lemma for_each_single {A} (body : A -> Py.M unit) (x : A) (s s' : list float) :
  Py.for_each [x] body s = (Py.Ok tt, s') -> body x s = (Py.Ok tt, s').
Proof.
  cbn [Py.for_each]. unfold Py.bind, Py.ret.
  destruct (body x s) as [[[]|e] s0]; [now intros [= ->] | discriminate].
Qed.

(** *** The blend modes on an image *)

Definition on_canvas (img : image) : point -> Prop :=
  inside (fst (size img)) (snd (size img)).

Definition canvas_ok (img : image) : Prop :=
  well_sized (fst (size img)) (snd (size img)) (pixels img).

Definition pixel_at (img : image) : point -> option color :=
  read_pixel (fst (size img)) (pixels img).

Lemma draw_replace_image (img : image) (dots : list point) (c : color) :
  canvas_ok img -> Forall (on_canvas img) dots ->
  exists img',
    on_image (fun s0 => draw_replace s0 dots c true) img = (Py.Ok tt, img')
    /\ size img' = size img
    /\ (forall p, p ∈ dots -> pixel_at img' p = Some c)
    /\ (forall q, on_canvas img q -> q ∉ dots -> pixel_at img' q = pixel_at img q).
Proof.
  destruct img as [[w h] pix]. unfold canvas_ok, on_canvas, pixel_at, on_image.
  cbn [size pixels fst snd]. intros Hs Hin.
  destruct (for_each_overwrite w h _ c
              (fun pix p Hp Hs =>
                 for_each_single _ p pix _ (draw_replace_dot w h c pix p Hp Hs))
              dots pix Hs Hin)
    as (pix' & Hrun & _ & Hvis & Hoth).
  exists (Image (w, h) pix'). cbn [size pixels fst snd].
  unfold draw_replace. rewrite Hrun. auto.
Qed.

Lemma draw_alpha_image (img : image) (dots : list point) (c : color) :
  (alpha c =? 0)%float = false ->
  canvas_ok img -> Forall (on_canvas img) dots -> NoDup dots ->
  (forall p old, p ∈ dots -> pixel_at img p = Some old ->
     (alpha_outa (alpha c) (alpha old) =? 0)%float = false) ->
  exists img',
    on_image (fun s0 => draw_alpha s0 dots c) img = (Py.Ok tt, img')
    /\ size img' = size img
    /\ (forall p, p ∈ dots -> exists old,
          pixel_at img p = Some old /\ pixel_at img' p = Some (composite c old))
    /\ (forall q, on_canvas img q -> q ∉ dots -> pixel_at img' q = pixel_at img q).
Proof.
  destruct img as [[w h] pix]. unfold canvas_ok, on_canvas, pixel_at, on_image.
  cbn [size pixels fst snd]. intros Ha Hs Hin Hnd Hdiv.
  unfold draw_alpha. rewrite Ha.
  match goal with |- context [Py.for_each dots ?b] => set (body := b) end.
  assert (forall pix p old, inside w h p -> well_sized w h pix ->
            read_pixel w pix p = Some old ->
            (alpha_outa (alpha c) (alpha old) =? 0)%float = false ->
            body p pix = (Py.Ok tt, write_pixel w pix p (composite c old)))
    as Hbody.
  { intros pix0 p old Hp Hs0 Hold Hg. apply for_each_single.
    pose proof (draw_alpha_dot w h c pix0 p old Ha Hp Hs0 Hold Hg) as H.
    unfold draw_alpha in H. now rewrite Ha in H. }
  destruct (for_each_pixelwise w h body (composite c) _ Hbody dots pix Hs Hin Hnd Hdiv)
    as (pix' & Hrun & _ & Hvis & Hoth).
  exists (Image (w, h) pix'). cbn [size pixels fst snd].
  rewrite Hrun. auto.
Qed.

(** C2. [draw_alpha] with incoming alpha 0 returns at once and leaves the
    image as it was.  With incoming alpha [a > 0], on a well-sized image and
    for distinct dots on the canvas whose divisor is not zero, the call
    returns normally and every visited pixel, which held destination alpha
    [da_dst], holds afterwards: [deltaAlpha = a * (1 - da_dst)],
    [outAlpha = da_dst + deltaAlpha], each color channel
    [(destChannel * a + srcChannel * deltaAlpha) / outAlpha], and alpha
    [outAlpha]; the other pixels are untouched.  Destination
    (0.2,0.2,0.2,0.5) under (1,0,0,1) becomes red 0.7, alpha 1.0. *)
Theorem draw_alpha_composites (img : image) (dots : list point) (c : color) :
  ((alpha c =? 0)%float = true ->
     on_image (fun s0 => draw_alpha s0 dots c) img = (Py.Ok tt, img))
  /\ ((0 <? alpha c)%float = true ->
      canvas_ok img -> Forall (on_canvas img) dots -> NoDup dots ->
      (forall p old, p ∈ dots -> pixel_at img p = Some old ->
         (alpha old + alpha c * (1 - alpha old) =? 0)%float = false) ->
      exists img',
        on_image (fun s0 => draw_alpha s0 dots c) img = (Py.Ok tt, img')
        /\ size img' = size img
        /\ (forall p, p ∈ dots -> exists old new,
              pixel_at img p = Some old /\ pixel_at img' p = Some new
              /\ let a := alpha c in
                 let da_dst := alpha old in
                 let deltaAlpha := (a * (1 - da_dst))%float in
                 let outAlpha := (da_dst + deltaAlpha)%float in
                 red new = ((red old * a + red c * deltaAlpha) / outAlpha)%float
                 /\ green new = ((green old * a + green c * deltaAlpha) / outAlpha)%float
                 /\ blue new = ((blue old * a + blue c * deltaAlpha) / outAlpha)%float
                 /\ alpha new = outAlpha)
        /\ (forall q, on_canvas img q -> q ∉ dots -> pixel_at img' q = pixel_at img q))
  /\ on_image (fun s0 => draw_alpha s0 [(0, 0)] (Color 1 0 0 1))
       (Image (1, 1) [0.2; 0.2; 0.2; 0.5]%float)
     = (Py.Ok tt, Image (1, 1) [0.7; 0.2; 0.2; 1.0]%float).
Proof.
  split; [|split].
  - intros Ha. destruct img as [sz pix]. unfold on_image, draw_alpha.
    cbn [size pixels]. now rewrite Ha.
  - intros Ha Hs Hin Hnd Hdiv.
    destruct (draw_alpha_image img dots c (PyFloat.pos_neq_zero _ Ha) Hs Hin Hnd Hdiv)
      as (img' & Hrun & Hsz & Hvis & Hoth).
    exists img'. split; [assumption|]. split; [assumption|]. split; [|assumption].
    intros p Hp. destruct (Hvis p Hp) as (old & Hold & Hnew).
    exists old, (composite c old).
    split; [assumption|]. split; [assumption|]. cbn. auto.
  - vm_compute. reflexivity.
Qed.

Lemma draw_alpha_composites_witness :
  exists img',
    on_image (fun s0 => draw_alpha s0 [(0, 0)] (Color 0.5 0 0 0.5))
      (Image (1, 1) [0.2; 0.2; 0.2; 0.5]%float) = (Py.Ok tt, img')
    /\ size img' = (1, 1).
Proof.
  destruct (proj1 (proj2 (draw_alpha_composites
                            (Image (1, 1) [0.2; 0.2; 0.2; 0.5]%float)
                            [(0, 0)] (Color 0.5 0 0 0.5))))
    as (img' & Hrun & Hsz & _).
  - vm_compute. reflexivity.
  - reflexivity.
  - constructor; [|constructor]. unfold on_canvas, inside; cbn. lia.
  - constructor; [|constructor]. apply not_elem_of_nil.
  - intros p old Hp Hold. apply list_elem_of_singleton in Hp. subst p.
    vm_compute in Hold. injection Hold as <-. vm_compute. reflexivity.
  - exists img'. split; assumption.
Defined.

(** C3. [draw_simple]: with alpha exactly 1.0 every target pixel holds
    exactly the given color afterwards; with alpha exactly 0.0 every target
    pixel holds (0,0,0,0) whatever the color's RGB (input (1,0,0,0) stores
    (0,0,0,0)); with alpha strictly between 0 and 1 the call is [draw_alpha]
    on the same pixels and color. *)
Theorem draw_simple_cases (img : image) (dots : list point) (c : color) :
  ((alpha c =? 1)%float = true ->
     canvas_ok img -> Forall (on_canvas img) dots ->
     exists img',
       on_image (fun s0 => draw_simple s0 dots c) img = (Py.Ok tt, img')
       /\ size img' = size img
       /\ (forall p, p ∈ dots -> pixel_at img' p = Some c)
       /\ (forall q, on_canvas img q -> q ∉ dots -> pixel_at img' q = pixel_at img q))
  /\ ((alpha c =? 0)%float = true ->
      canvas_ok img -> Forall (on_canvas img) dots ->
      exists img',
        on_image (fun s0 => draw_simple s0 dots c) img = (Py.Ok tt, img')
        /\ size img' = size img
        /\ (forall p, p ∈ dots -> pixel_at img' p = Some (Color 0 0 0 0))
        /\ (forall q, on_canvas img q -> q ∉ dots -> pixel_at img' q = pixel_at img q))
  /\ ((0 <? alpha c)%float = true -> (alpha c <? 1)%float = true ->
      on_image (fun s0 => draw_simple s0 dots c) img
      = on_image (fun s0 => draw_alpha s0 dots c) img)
  /\ on_image (fun s0 => draw_simple s0 [(0, 0)] (Color 1 0 0 0))
       (Image (1, 1) [0.2; 0.2; 0.2; 0.5]%float)
     = (Py.Ok tt, Image (1, 1) [0; 0; 0; 0]%float).
Proof.
  split; [|split; [|split]].
  - intros H1 Hs Hin.
    destruct (draw_replace_image img dots c Hs Hin) as (img' & Hrun & Hrest).
    exists img'. split; [|assumption].
    unfold on_image, draw_simple in *. now rewrite H1.
  - intros H0 Hs Hin.
    destruct (draw_replace_image img dots (Color 0 0 0 0) Hs Hin)
      as (img' & Hrun & Hrest).
    exists img'. split; [|assumption].
    unfold on_image, draw_simple in *.
    now rewrite (PyFloat.zero_neq_one _ H0), H0.
  - intros Hpos Hlt. unfold on_image, draw_simple.
    now rewrite (PyFloat.lt_neq _ _ Hlt), (PyFloat.pos_neq_zero _ Hpos).
  - vm_compute. reflexivity.
Qed.

Lemma draw_simple_cases_witness :
  (exists img',
     on_image (fun s0 => draw_simple s0 [(0, 0)] (Color 0.5 0.25 0 1))
       (Image (1, 1) [0.2; 0.2; 0.2; 0.5]%float) = (Py.Ok tt, img')
     /\ pixel_at img' (0, 0) = Some (Color 0.5 0.25 0 1))
  /\ on_image (fun s0 => draw_simple s0 [(0, 0)] (Color 1 0 0 0.5))
       (Image (1, 1) [0.2; 0.2; 0.2; 0.5]%float)
     = on_image (fun s0 => draw_alpha s0 [(0, 0)] (Color 1 0 0 0.5))
         (Image (1, 1) [0.2; 0.2; 0.2; 0.5]%float).
Proof.
  split.
  - destruct (proj1 (draw_simple_cases (Image (1, 1) [0.2; 0.2; 0.2; 0.5]%float)
                       [(0, 0)] (Color 0.5 0.25 0 1)))
      as (img' & Hrun & _ & Hvis & _).
    + vm_compute. reflexivity.
    + reflexivity.
    + constructor; [|constructor]. unfold on_canvas, inside; cbn. lia.
    + exists img'. split; [assumption|]. apply Hvis. now left.
  - apply (proj1 (proj2 (proj2 (draw_simple_cases
                                  (Image (1, 1) [0.2; 0.2; 0.2; 0.5]%float)
                                  [(0, 0)] (Color 1 0 0 0.5)))));
      vm_compute; reflexivity.
Defined.

(** C10. With incoming alpha [0 < a <= 1] and destination alpha in [0, 1]
    the divisor [outa = dst_alpha + a * (1 - dst_alpha)], computed in
    binary64, is strictly positive: the divisions of [draw_alpha] do not
    raise [ZeroDivisionError], and a call on distinct dots of the canvas
    whose alphas are in range returns normally.  (With [a == 0] the function
    returns before any division.) *)
Theorem draw_alpha_divisor_positive (a dst : float) :
  (0 <? a)%float = true -> (a <=? 1)%float = true ->
  (0 <=? dst)%float = true -> (dst <=? 1)%float = true ->
  (0 <? alpha_outa a dst)%float = true
  /\ (forall num s,
        Py.truediv num (alpha_outa a dst) s = (Py.Ok (num / alpha_outa a dst)%float, s))
  /\ (forall img dots c,
        alpha c = a ->
        canvas_ok img -> Forall (on_canvas img) dots -> NoDup dots ->
        (forall p old, p ∈ dots -> pixel_at img p = Some old ->
           (0 <=? alpha old)%float = true /\ (alpha old <=? 1)%float = true) ->
        exists img',
          on_image (fun s0 => draw_alpha s0 dots c) img = (Py.Ok tt, img'))
  /\ (forall size0 dots c pix,
        (alpha c =? 0)%float = true ->
        draw_alpha size0 dots c pix = (Py.Ok tt, pix)).
Proof.
  intros Ha0 Ha1 Hd0 Hd1.
  destruct (PyFloat.outa_positive a dst Ha0 Ha1 Hd0 Hd1) as [Hpos Hne].
  split; [exact Hpos|]. split; [|split].
  - intros num s. unfold Py.truediv, alpha_outa, alpha_da. now rewrite Hne.
  - intros img dots c Hc Hs Hin Hnd Hrange. subst a.
    destruct (draw_alpha_image img dots c (PyFloat.pos_neq_zero _ Ha0) Hs Hin Hnd)
      as (img' & Hrun & _).
    + intros p old Hp Hold. destruct (Hrange p old Hp Hold) as [H0 H1].
      apply (PyFloat.outa_positive (alpha c) (alpha old) Ha0 Ha1 H0 H1).
    + now exists img'.
  - intros size0 dots c pix H0. unfold draw_alpha. now rewrite H0.
Qed.

Lemma draw_alpha_divisor_positive_witness :
  (0 <? alpha_outa 0.5 0.25)%float = true
  /\ Py.truediv 1 (alpha_outa 0.5 0.25) [] = (Py.Ok (1 / alpha_outa 0.5 0.25)%float, []).
Proof.
  destruct (draw_alpha_divisor_positive 0.5 0.25) as (Hpos & Hdiv & _);
    try (vm_compute; reflexivity).
  split; [exact Hpos | apply Hdiv].
Defined.

(** *** Shape of the stepped line *)

Section Steps.
Variables (dx dy w_abs h_abs : Z).

(** Whatever the error term does, each iteration moves one step along the
    major axis and at most one step along the minor axis. *)
Lemma line_loop_x_adjacent (n : nat) : forall x y pk (i : nat) p q,
  ((x, y) :: line_loop_x n dx dy w_abs h_abs x y pk) !! i = Some p ->
  ((x, y) :: line_loop_x n dx dy w_abs h_abs x y pk) !! S i = Some q ->
  fst q = fst p + dx /\ (snd q = snd p \/ snd q = snd p + dy).
Proof.
  induction n as [|n IH]; intros x y pk i p q Hp Hq.
  - destruct i; discriminate.
  - cbn [line_loop_x] in Hp, Hq. destruct (pk <? 0).
    + destruct i as [|i].
      * injection Hp as <-. injection Hq as <-. cbn. auto.
      * exact (IH _ _ _ i p q Hp Hq).
    + destruct i as [|i].
      * injection Hp as <-. injection Hq as <-. cbn. auto.
      * exact (IH _ _ _ i p q Hp Hq).
Qed.

(** Under the error-term invariant the [i]-th yielded point is [i + 1]
    major steps and at most [j] minor steps away from the loop's start. *)
Lemma line_loop_x_points (n : nat) : forall x y pk j (i : nat) p,
  0 <= h_abs <= w_abs -> 0 < w_abs ->
  Z.of_nat n <= w_abs ->
  2 * h_abs - 2 * w_abs <= pk < 2 * h_abs ->
  pk = 2 * h_abs - w_abs + 2 * h_abs * (w_abs - Z.of_nat n)
       - 2 * w_abs * (h_abs - j) ->
  line_loop_x n dx dy w_abs h_abs x y pk !! i = Some p ->
  fst p = x + (Z.of_nat i + 1) * dx
  /\ exists t, 0 <= t <= j /\ j <= h_abs /\ snd p = y + t * dy.
Proof.
  induction n as [|n IH]; intros x y pk j i p Hwh Hw Hn Hwin Hpk Hp;
    [discriminate|].
  assert (0 <= j <= h_abs) as Hj by nia.
  cbn [line_loop_x] in Hp.
  destruct (pk <? 0) eqn:E; [apply Z.ltb_lt in E | apply Z.ltb_ge in E].
  - destruct i as [|i].
    + injection Hp as <-. cbn. split; [lia|]. exists 0. lia.
    + destruct (IH (x + dx) y (pk + 2 * h_abs) j i p) as [Hx (t & Ht & Hjh & Hy)];
        try assumption; try lia.
      split; [lia|]. exists t. auto.
  - assert (1 <= j) by nia.
    destruct i as [|i].
    + injection Hp as <-. cbn. split; [lia|]. exists 1. lia.
    + destruct (IH (x + dx) (y + dy) (pk + (2 * h_abs - 2 * w_abs)) (j - 1) i p)
        as [Hx (t & Ht & Hjh & Hy)]; try assumption; try lia.
      split; [lia|]. exists (t + 1). lia.
Qed.
End Steps.

(** Every point of the line, by its position: the major coordinate has
    advanced by the position, the minor one by at most [|minor delta|],
    both towards the target. *)
Lemma line_points (x1 y1 x2 y2 : Z) (i : nat) (p : point) :
  line x1 y1 x2 y2 !! i = Some p ->
  let dx := if x2 - x1 <? 0 then -1 else 1 in
  let dy := if y2 - y1 <? 0 then -1 else 1 in
  exists a b,
    p = (x1 + a * dx, y1 + b * dy)
    /\ 0 <= a <= Z.abs (x2 - x1) /\ 0 <= b <= Z.abs (y2 - y1)
    /\ (if Z.abs (x2 - x1) >? Z.abs (y2 - y1) then a else b) = Z.of_nat i.
Proof.
  intros Hp dx dy. unfold line in Hp. fold dx dy in Hp.
  pose proof (Z.abs_nonneg (x2 - x1)) as Hw. pose proof (Z.abs_nonneg (y2 - y1)) as Hh.
  destruct (Z.abs (x2 - x1) >? Z.abs (y2 - y1)) eqn:E;
    [apply Z.gtb_lt in E | rewrite Z.gtb_ltb in E; apply Z.ltb_ge in E].
  - destruct i as [|i].
    + injection Hp as <-. exists 0, 0. split; [f_equal; lia|]. lia.
    + change (line_loop_x (Z.to_nat (Z.abs (x2 - x1))) dx dy (Z.abs (x2 - x1))
                (Z.abs (y2 - y1)) x1 y1 (2 * Z.abs (y2 - y1) - Z.abs (x2 - x1)) !! i
              = Some p) in Hp.
      pose proof (lookup_lt_Some _ _ _ Hp) as Hlt. rewrite line_loop_x_length in Hlt.
      destruct (line_loop_x_points dx dy (Z.abs (x2 - x1)) (Z.abs (y2 - y1))
                  (Z.to_nat (Z.abs (x2 - x1))) x1 y1
                  (2 * Z.abs (y2 - y1) - Z.abs (x2 - x1)) (Z.abs (y2 - y1)) i p)
        as [Hx (t & Ht & _ & Hy)]; try exact Hp; try lia.
      exists (Z.of_nat i + 1), t. destruct p as [px py]. cbn [fst snd] in *.
      split; [f_equal; lia|]. lia.
  - destruct i as [|i].
    + injection Hp as <-. exists 0, 0. split; [f_equal; lia|]. lia.
    + change (line_loop_y (Z.to_nat (Z.abs (y2 - y1))) dx dy (Z.abs (x2 - x1))
                (Z.abs (y2 - y1)) x1 y1 (2 * Z.abs (x2 - x1) - Z.abs (y2 - y1)) !! i
              = Some p) in Hp.
      rewrite line_loop_y_swap, list_lookup_fmap in Hp.
      destruct (line_loop_x _ _ _ _ _ _ _ _ !! i) as [q|] eqn:Hq; [|discriminate].
      injection Hp as <-.
      pose proof (lookup_lt_Some _ _ _ Hq) as Hlt. rewrite line_loop_x_length in Hlt.
      destruct (line_loop_x_points dy dx (Z.abs (y2 - y1)) (Z.abs (x2 - x1))
                  (Z.to_nat (Z.abs (y2 - y1))) y1 x1
                  (2 * Z.abs (x2 - x1) - Z.abs (y2 - y1)) (Z.abs (x2 - x1)) i q)
        as [Hx (t & Ht & _ & Hy)]; try exact Hq; try lia.
      exists t, (Z.of_nat i + 1). destruct q as [qx qy]. cbn [fst snd] in *.
      split; [f_equal; lia|]. lia.
Qed.

Lemma line_distinct (x1 y1 x2 y2 : Z) : NoDup (line x1 y1 x2 y2).
Proof.
  apply NoDup_alt. intros i j p Hi Hj.
  destruct (line_points _ _ _ _ _ _ Hi) as (a & b & Hp & Ha & Hb & Hm).
  destruct (line_points _ _ _ _ _ _ Hj) as (a' & b' & Hp' & Ha' & Hb' & Hm').
  rewrite Hp in Hp'. injection Hp' as Hx Hy.
  destruct (Z.abs (x2 - x1) >? Z.abs (y2 - y1)).
  - destruct (x2 - x1 <? 0); lia.
  - destruct (y2 - y1 <? 0); lia.
Qed.

Lemma line_points_in_box (x1 y1 x2 y2 : Z) (p : point) :
  p ∈ line x1 y1 x2 y2 ->
  Z.min x1 x2 <= fst p <= Z.max x1 x2 /\ Z.min y1 y2 <= snd p <= Z.max y1 y2.
Proof.
  intros Hin. apply list_elem_of_lookup in Hin as [i Hi].
  destruct (line_points _ _ _ _ _ _ Hi) as (a & b & -> & Ha & Hb & _).
  cbn [fst snd].
  destruct (x2 - x1 <? 0) eqn:Ex; destruct (y2 - y1 <? 0) eqn:Ey;
    rewrite ?Z.ltb_lt, ?Z.ltb_ge in *; lia.
Qed.

(** X1. The points yielded by [line] are pairwise distinct, so a stroke
    visits no pixel twice; the point at position [i] has moved exactly [i]
    steps from the start along the axis of the larger distance. *)
Theorem line_NoDup (x1 y1 x2 y2 : Z) :
  NoDup (line x1 y1 x2 y2)
  /\ forall (i : nat) p, line x1 y1 x2 y2 !! i = Some p ->
       if Z.abs (x2 - x1) >? Z.abs (y2 - y1)
       then Z.abs (fst p - x1) = Z.of_nat i
       else Z.abs (snd p - y1) = Z.of_nat i.
Proof.
  split; [apply line_distinct|].
  intros i p Hi.
  destruct (line_points _ _ _ _ _ _ Hi) as (a & b & -> & Ha & Hb & Hm).
  cbn [fst snd].
  destruct (Z.abs (x2 - x1) >? Z.abs (y2 - y1)).
  - destruct (x2 - x1 <? 0); lia.
  - destruct (y2 - y1 <? 0); lia.
Qed.

(** X2. Each point of the line lies in the rectangle spanned by the two
    end points; so a line between two cells of a [w] by [h] canvas stays
    on the canvas. *)
Theorem line_in_box (x1 y1 x2 y2 : Z) (p : point) :
  p ∈ line x1 y1 x2 y2 ->
  (Z.min x1 x2 <= fst p <= Z.max x1 x2 /\ Z.min y1 y2 <= snd p <= Z.max y1 y2)
  /\ forall w h, (0 <= x1 < w /\ 0 <= y1 < h) -> (0 <= x2 < w /\ 0 <= y2 < h) ->
       0 <= fst p < w /\ 0 <= snd p < h.
Proof.
  intros Hin. pose proof (line_points_in_box _ _ _ _ _ Hin) as Hbox.
  split; [exact Hbox|].
  intros w h H1 H2. lia.
Qed.

Lemma line_in_box_witness :
  Z.min 0 5 <= fst (2, 1) <= Z.max 0 5 /\ Z.min 0 2 <= snd (2, 1) <= Z.max 0 2.
Proof.
  apply (proj1 (line_in_box 0 0 5 2 (2, 1)
                  ltac:(apply list_elem_of_lookup; exists 2%nat; reflexivity))).
Defined.

(** X3. Consecutive points of the line are neighbours: each coordinate
    changes by at most one and the larger change is exactly one, so the
    stroke has no gap. *)
Theorem line_connected (x1 y1 x2 y2 : Z) (i : nat) (p q : point) :
  line x1 y1 x2 y2 !! i = Some p -> line x1 y1 x2 y2 !! S i = Some q ->
  Z.max (Z.abs (fst q - fst p)) (Z.abs (snd q - snd p)) = 1.
Proof.
  unfold line.
  set (dx := if x2 - x1 <? 0 then -1 else 1).
  set (dy := if y2 - y1 <? 0 then -1 else 1).
  assert (dx = 1 \/ dx = -1) as Hdx by (unfold dx; destruct (x2 - x1 <? 0); auto).
  assert (dy = 1 \/ dy = -1) as Hdy by (unfold dy; destruct (y2 - y1 <? 0); auto).
  destruct (Z.abs (x2 - x1) >? Z.abs (y2 - y1)); intros Hp Hq.
  - destruct (line_loop_x_adjacent dx dy _ _ _ _ _ _ i p q Hp Hq) as [Hx Hy]. lia.
  - rewrite line_loop_y_swap in Hp, Hq.
    change (x1, y1) with ((fun p : point => (snd p, fst p)) (y1, x1)) in Hp, Hq.
    rewrite <- fmap_cons in Hp, Hq. rewrite list_lookup_fmap in Hp, Hq.
    destruct (_ !! i) as [p'|] eqn:Hp'; [|discriminate].
    destruct (_ !! S i) as [q'|] eqn:Hq'; [|discriminate].
    injection Hp as <-. injection Hq as <-. cbn [fst snd].
    destruct (line_loop_x_adjacent dy dx _ _ _ _ _ _ i p' q' Hp' Hq') as [Hx Hy]. lia.
Qed.

Lemma line_connected_witness :
  Z.max (Z.abs (fst (2, 1) - fst (1, 0))) (Z.abs (snd (2, 1) - snd (1, 0))) = 1.
Proof.
  apply (line_connected 0 0 5 2 1 (1, 0) (2, 1)); reflexivity.
Defined.

(** *** The pencil: a stroke from the last painted cell to the current one *)

Inductive blend_mode := SIMPLE | ALPHA | COPY | LOCK.

(** The [if x0 != x or y0 != y:] block of [SB_OT_pencil.modal]. *)
Definition pencil_stroke (mode : blend_mode) (size0 : Z) (last_px px : point)
    (c : color) : Py.M unit :=
  let '(x0, y0) := last_px in
  let '(x, y) := px in
  if negb (x0 =? x) || negb (y0 =? y)
  then match mode with
       | SIMPLE => draw_simple size0 (line x0 y0 x y) c
       | ALPHA => draw_alpha size0 (line x0 y0 x y) c
       | COPY => draw_replace size0 (line x0 y0 x y) c true
       | LOCK => draw_replace size0 (line x0 y0 x y) c false
       end
  else Py.ret tt.

Lemma line_on_canvas (img : image) (x0 y0 x y : Z) :
  on_canvas img (x0, y0) -> on_canvas img (x, y) ->
  Forall (on_canvas img) (line x0 y0 x y).
Proof.
  unfold on_canvas, inside. cbn [fst snd]. intros H0 H1.
  apply Forall_forall. intros p Hp. apply line_points_in_box in Hp. lia.
Qed.

(** X4. A Copy stroke between two different cells of a well-sized image
    never raises: it stores the color, alpha included, at exactly the cells
    of the line and leaves every other pixel as it was.  When the cell has
    not changed, nothing is painted. *)
Theorem pencil_copy_stroke (img : image) (last_px px : point) (c : color) :
  canvas_ok img -> on_canvas img last_px -> on_canvas img px ->
  (last_px <> px ->
   exists img',
     on_image (fun s0 => pencil_stroke COPY s0 last_px px c) img = (Py.Ok tt, img')
     /\ size img' = size img
     /\ (forall p, p ∈ line (fst last_px) (snd last_px) (fst px) (snd px) ->
         pixel_at img' p = Some c)
     /\ (forall q, on_canvas img q ->
         q ∉ line (fst last_px) (snd last_px) (fst px) (snd px) ->
         pixel_at img' q = pixel_at img q))
  /\ (forall mode,
        on_image (fun s0 => pencil_stroke mode s0 px px c) img = (Py.Ok tt, img)).
Proof.
  intros Hs H0 H1. destruct last_px as [x0 y0], px as [x y]. split.
  - intros Hne. cbn [fst snd].
    destruct (draw_replace_image img (line x0 y0 x y) c Hs (line_on_canvas img _ _ _ _ H0 H1))
      as (img' & Hrun & Hrest).
    exists img'. split; [|exact Hrest].
    unfold on_image, pencil_stroke in *.
    replace (negb (x0 =? x) || negb (y0 =? y)) with true; [exact Hrun|].
    symmetry. apply orb_true_iff.
    destruct (Z.eqb_spec x0 x) as [->|]; [|now left].
    destruct (Z.eqb_spec y0 y) as [->|]; [contradiction|now right].
  - intros mode. unfold on_image, pencil_stroke. rewrite !Z.eqb_refl. cbn.
    now destruct img.
Qed.

Lemma pencil_copy_stroke_witness :
  exists img',
    on_image (fun s0 => pencil_stroke COPY s0 (0, 0) (1, 0) (Color 1 0 0 1))
      (Image (2, 1) (replicate 8 0%float)) = (Py.Ok tt, img')
    /\ size img' = (2, 1).
Proof.
  destruct (proj1 (pencil_copy_stroke (Image (2, 1) (replicate 8 0%float))
                     (0, 0) (1, 0) (Color 1 0 0 1) eq_refl
                     ltac:(unfold on_canvas, inside; cbn; lia)
                     ltac:(unfold on_canvas, inside; cbn; lia)))
    as (img' & Hrun & Hsz & _); [discriminate|].
  exists img'. split; assumption.
Defined.

(** One iteration of [draw_replace] with [replace_alpha=False]: the alpha
    slot is not written. *)
Lemma draw_replace_dot_lock (w h : Z) (c : color) (pix : list float) (p : point)
    (old : color) :
  inside w h p -> well_sized w h pix -> read_pixel w pix p = Some old ->
  draw_replace w [p] c false pix
  = (Py.Ok tt, write_pixel w pix p (Color (red c) (green c) (blue c) (alpha old))).
Proof.
  intros Hp Hs Hold. destruct (inside_offset w h pix p Hp Hs) as [Ho Hlt].
  destruct (read_pixel_channels w pix p old Hold) as (_ & _ & _ & H3).
  destruct p as [x y]. cbn [fst snd] in Ho.
  unfold draw_replace, write_pixel. cbn [Py.for_each red green blue alpha].
  unfold Py.bind, Py.ret.
  rewrite setitem_inside by lia.
  rewrite setitem_inside by (rewrite ?length_insert; lia).
  rewrite setitem_inside by (rewrite ?length_insert; lia).
  rewrite !(addr_to_nat w h (x, y)) by (assumption || lia).
  change (Z.to_nat 0) with 0%nat; change (Z.to_nat 1) with 1%nat;
    change (Z.to_nat 2) with 2%nat.
  rewrite Nat.add_0_r. f_equal. symmetry. apply list_insert_id.
  now rewrite !list_lookup_insert_ne by lia.
Qed.

(** X5. A Lock Alpha stroke between two different cells of a well-sized
    image replaces the red, green and blue of every cell of the line with
    the color's and keeps each cell's alpha; the other pixels are
    untouched. *)
Theorem pencil_lock_stroke (img : image) (last_px px : point) (c : color) :
  canvas_ok img -> on_canvas img last_px -> on_canvas img px ->
  last_px <> px ->
  exists img',
    on_image (fun s0 => pencil_stroke LOCK s0 last_px px c) img = (Py.Ok tt, img')
    /\ size img' = size img
    /\ (forall p, p ∈ line (fst last_px) (snd last_px) (fst px) (snd px) ->
        exists old,
          pixel_at img p = Some old
          /\ pixel_at img' p = Some (Color (red c) (green c) (blue c) (alpha old)))
    /\ (forall q, on_canvas img q ->
        q ∉ line (fst last_px) (snd last_px) (fst px) (snd px) ->
        pixel_at img' q = pixel_at img q).
Proof.
  intros Hs H0 H1 Hne. destruct last_px as [x0 y0], px as [x y]. cbn [fst snd].
  pose proof (line_on_canvas img _ _ _ _ H0 H1) as Hin.
  pose proof (line_distinct x0 y0 x y) as Hnd.
  destruct img as [[w h] pix]. unfold canvas_ok, on_canvas, pixel_at, on_image in *.
  cbn [size pixels fst snd] in *. unfold pencil_stroke.
  replace (negb (x0 =? x) || negb (y0 =? y)) with true.
  2:{ symmetry. apply orb_true_iff.
      destruct (Z.eqb_spec x0 x) as [->|]; [|now left].
      destruct (Z.eqb_spec y0 y) as [->|]; [contradiction|now right]. }
  unfold draw_replace.
  match goal with |- context [Py.for_each _ ?b] => set (body := b) end.
  assert (forall pix p old, inside w h p -> well_sized w h pix ->
            read_pixel w pix p = Some old -> True ->
            body p pix
            = (Py.Ok tt, write_pixel w pix p
                           (Color (red c) (green c) (blue c) (alpha old))))
    as Hbody.
  { intros pix0 p old Hp Hs0 Hold _. apply for_each_single.
    exact (draw_replace_dot_lock w h c pix0 p old Hp Hs0 Hold). }
  destruct (for_each_pixelwise w h body
              (fun old => Color (red c) (green c) (blue c) (alpha old))
              (fun _ => True) Hbody (line x0 y0 x y) pix Hs Hin Hnd
              (fun _ _ _ _ => I))
    as (pix' & Hrun & _ & Hvis & Hoth).
  exists (Image (w, h) pix'). cbn [size pixels fst snd]. rewrite Hrun. auto.
Qed.

Lemma pencil_lock_stroke_witness :
  exists img',
    on_image (fun s0 => pencil_stroke LOCK s0 (0, 0) (1, 0) (Color 1 0 0 1))
      (Image (2, 1) (replicate 8 0%float)) = (Py.Ok tt, img')
    /\ size img' = (2, 1).
Proof.
  destruct (pencil_lock_stroke (Image (2, 1) (replicate 8 0%float))
              (0, 0) (1, 0) (Color 1 0 0 1) eq_refl
              ltac:(unfold on_canvas, inside; cbn; lia)
              ltac:(unfold on_canvas, inside; cbn; lia) ltac:(discriminate))
    as (img' & Hrun & Hsz & _).
  exists img'. split; assumption.
Defined.

(** X6. An Alpha Compositing stroke with [0 < alpha <= 1] between two
    different cells of a well-sized image whose alphas on the line are in
    [0, 1] never raises, and blends every cell of the line exactly once:
    each holds the composite of the color with what it held before the
    stroke. *)
Theorem pencil_alpha_stroke (img : image) (last_px px : point) (c : color) :
  canvas_ok img -> on_canvas img last_px -> on_canvas img px ->
  last_px <> px ->
  (0 <? alpha c)%float = true -> (alpha c <=? 1)%float = true ->
  (forall p old, p ∈ line (fst last_px) (snd last_px) (fst px) (snd px) ->
     pixel_at img p = Some old ->
     (0 <=? alpha old)%float = true /\ (alpha old <=? 1)%float = true) ->
  exists img',
    on_image (fun s0 => pencil_stroke ALPHA s0 last_px px c) img = (Py.Ok tt, img')
    /\ size img' = size img
    /\ (forall p, p ∈ line (fst last_px) (snd last_px) (fst px) (snd px) ->
        exists old,
          pixel_at img p = Some old /\ pixel_at img' p = Some (composite c old))
    /\ (forall q, on_canvas img q ->
        q ∉ line (fst last_px) (snd last_px) (fst px) (snd px) ->
        pixel_at img' q = pixel_at img q).
Proof.
  intros Hs H0 H1 Hne Ha0 Ha1 Hrange.
  destruct last_px as [x0 y0], px as [x y]. cbn [fst snd] in *.
  destruct (draw_alpha_image img (line x0 y0 x y) c (PyFloat.pos_neq_zero _ Ha0) Hs
              (line_on_canvas img _ _ _ _ H0 H1) (line_distinct x0 y0 x y))
    as (img' & Hrun & Hrest).
  - intros p old Hp Hold. destruct (Hrange p old Hp Hold) as [Hd0 Hd1].
    apply (PyFloat.outa_positive (alpha c) (alpha old) Ha0 Ha1 Hd0 Hd1).
  - exists img'. split; [|exact Hrest].
    unfold on_image, pencil_stroke in *.
    replace (negb (x0 =? x) || negb (y0 =? y)) with true; [exact Hrun|].
    symmetry. apply orb_true_iff.
    destruct (Z.eqb_spec x0 x) as [->|]; [|now left].
    destruct (Z.eqb_spec y0 y) as [->|]; [contradiction|now right].
Qed.

Lemma pencil_alpha_stroke_witness :
  exists img',
    on_image (fun s0 => pencil_stroke ALPHA s0 (0, 0) (1, 0) (Color 1 0 0 0.5))
      (Image (2, 1) (replicate 8 0.5%float)) = (Py.Ok tt, img')
    /\ size img' = (2, 1).
Proof.
  destruct (pencil_alpha_stroke (Image (2, 1) (replicate 8 0.5%float))
              (0, 0) (1, 0) (Color 1 0 0 0.5) eq_refl
              ltac:(unfold on_canvas, inside; cbn; lia)
              ltac:(unfold on_canvas, inside; cbn; lia) ltac:(discriminate)
              ltac:(vm_compute; reflexivity) ltac:(vm_compute; reflexivity))
    as (img' & Hrun & Hsz & _).
  - intros p old Hp Hold.
    assert (p = (0, 0) \/ p = (1, 0)) as [-> | ->].
    { vm_compute in Hp. apply elem_of_cons in Hp as [->|Hp]; [now left|].
      apply list_elem_of_singleton in Hp. now right. }
    all: vm_compute in Hold; injection Hold as <-; split; vm_compute; reflexivity.
  - exists img'. split; assumption.
Defined.

(** *** Dots are not clipped to the canvas *)

Lemma for_each_app {A} (body : A -> Py.M unit) (xs ys : list A) (s : list float) :
  Py.for_each (xs ++ ys) body s
  = match Py.for_each xs body s with
    | (Py.Ok _, s') => Py.for_each ys body s'
    | (Py.Raise e, s') => (Py.Raise e, s')
    end.
Proof.
  revert s. induction xs as [|x xs IH]; intro s; [reflexivity|].
  cbn [app Py.for_each]. unfold Py.bind.
  destruct (body x s) as [[[]|e] s']; [apply IH | reflexivity].
Qed.

(** [seq[i] = v] with an index in [[-len, len)] stores at [i mod len]. *)
Lemma setitem_wraps (i : Z) (s : list float) (v : float) :
  - Z.of_nat (length s) <= i < Z.of_nat (length s) ->
  Py.setitem i v s = (Py.Ok tt, <[Z.to_nat (i mod Z.of_nat (length s)) := v]> s).
Proof.
  intros Hi. unfold Py.setitem, Py.index.
  destruct (Z.leb_spec 0 i) as [H0|H0].
  - replace (i <? Z.of_nat (length s)) with true by (symmetry; apply Z.ltb_lt; lia).
    cbn [andb]. now rewrite Z.mod_small by lia.
  - cbn [andb].
    replace (- Z.of_nat (length s) <=? i) with true by (symmetry; apply Z.leb_le; lia).
    replace (i <? 0) with true by (symmetry; apply Z.ltb_lt; lia).
    cbn [andb]. do 3 f_equal.
    apply Z.mod_unique with (q := -1); lia.
Qed.

Lemma setitem_outside (i : Z) (s : list float) (v : float) :
  i < - Z.of_nat (length s) \/ Z.of_nat (length s) <= i ->
  Py.setitem i v s = (Py.Raise Py.IndexError, s).
Proof.
  intros Hi. unfold Py.setitem, Py.index.
  replace ((0 <=? i) && (i <? Z.of_nat (length s))) with false.
  2:{ symmetry. apply andb_false_iff.
      destruct Hi; [left; apply Z.leb_gt | right; apply Z.ltb_ge]; lia. }
  replace ((- Z.of_nat (length s) <=? i) && (i <? 0)) with false; [reflexivity|].
  symmetry. apply andb_false_iff.
  destruct Hi; [left; apply Z.leb_gt | right; apply Z.ltb_ge]; lia.
Qed.

(** The cell a dot lands on: its flat index [w * y + x], taken modulo the
    number of cells, read back as a column and a row. *)
Definition landing (w h : Z) (p : point) : point :=
  let f := (w * snd p + fst p) mod (w * h) in (f mod w, f / w).

Lemma landing_inside (w h : Z) (p : point) :
  0 < w -> 0 < h -> inside w h (landing w h p).
Proof.
  intros Hw Hh. unfold landing, inside. cbn [fst snd].
  assert (0 <= (w * snd p + fst p) mod (w * h) < w * h) as Hf
    by (apply Z.mod_pos_bound; nia).
  split; [apply Z.mod_pos_bound; lia|].
  split; [apply Z.div_pos; lia|].
  apply Z.div_lt_upper_bound; lia.
Qed.

Lemma landing_offset (w h : Z) (p : point) :
  0 < w -> 0 < h ->
  Z.of_nat (offset w (landing w h p)) = 4 * ((w * snd p + fst p) mod (w * h)).
Proof.
  intros Hw Hh. unfold landing, offset. cbn [fst snd].
  set (f := (w * snd p + fst p) mod (w * h)).
  assert (0 <= f) by (apply Z.mod_pos_bound; nia).
  rewrite <- (Z.div_mod f w) by lia. rewrite Z2Nat.id; lia.
Qed.

Lemma draw_replace_landing (w h : Z) (c : color) (pix : list float) (p : point) :
  0 < w -> 0 < h -> well_sized w h pix ->
  - (w * h) <= w * snd p + fst p < w * h ->
  draw_replace w [p] c true pix
  = (Py.Ok tt, write_pixel w pix (landing w h p) c).
Proof.
  intros Hw Hh Hs Hf. pose proof (landing_offset w h p Hw Hh) as Ho.
  unfold well_sized in Hs. destruct p as [x y]. cbn [fst snd] in *.
  set (f := w * y + x) in *. set (n := offset w (landing w h (x, y))) in *.
  assert (0 <= f mod (w * h) < w * h) as Hm by (apply Z.mod_pos_bound; nia).
  assert (forall k (s : list float), 0 <= k < 4 -> length s = length pix ->
            Z.to_nat ((4 * f + k) mod Z.of_nat (length s)) = (n + Z.to_nat k)%nat)
    as Hk.
  { intros k s Hk Hl. rewrite Hl, Hs.
    assert ((4 * f + k) mod (4 * w * h) = 4 * (f mod (w * h)) + k) as ->.
    { symmetry. apply Z.mod_unique with (q := f / (w * h)); [lia|].
      pose proof (Z.div_mod f (w * h)) as Hd. nia. }
    rewrite <- Ho. rewrite Z2Nat.inj_add by lia. now rewrite Nat2Z.id. }
  unfold draw_replace, write_pixel. cbn [Py.for_each]. unfold Py.bind. fold f.
  rewrite setitem_wraps by lia. rewrite (Hk 0 pix) by (reflexivity || lia).
  rewrite setitem_wraps by (rewrite ?length_insert; lia).
  rewrite (Hk 1) by (rewrite ?length_insert; reflexivity || lia).
  rewrite setitem_wraps by (rewrite ?length_insert; lia).
  rewrite (Hk 2) by (rewrite ?length_insert; reflexivity || lia).
  rewrite setitem_wraps by (rewrite ?length_insert; lia).
  rewrite (Hk 3) by (rewrite ?length_insert; reflexivity || lia).
  change (Z.to_nat 0) with 0%nat; change (Z.to_nat 1) with 1%nat;
    change (Z.to_nat 2) with 2%nat; change (Z.to_nat 3) with 3%nat.
  now rewrite Nat.add_0_r.
Qed.

(** X7. [draw_replace] does not clip: a dot whose flat index [w * y + x]
    is in [[-w*h, w*h)] is painted without an exception on the cell with
    that flat index modulo [w * h] (a column right of the canvas lands on
    the next row, a negative index counts from the end of the array), and
    no other cell changes. *)
Theorem draw_replace_wraps (img : image) (p : point) (c : color) :
  canvas_ok img -> 0 < fst (size img) -> 0 < snd (size img) ->
  - (fst (size img) * snd (size img)) <= fst (size img) * snd p + fst p
    < fst (size img) * snd (size img) ->
  exists img',
    on_image (fun s0 => draw_replace s0 [p] c true) img = (Py.Ok tt, img')
    /\ size img' = size img
    /\ on_canvas img (landing (fst (size img)) (snd (size img)) p)
    /\ pixel_at img' (landing (fst (size img)) (snd (size img)) p) = Some c
    /\ (forall q, on_canvas img q ->
        q <> landing (fst (size img)) (snd (size img)) p ->
        pixel_at img' q = pixel_at img q).
Proof.
  destruct img as [[w h] pix]. unfold canvas_ok, on_canvas, pixel_at, on_image.
  cbn [size pixels fst snd]. intros Hs Hw Hh Hf.
  pose proof (landing_inside w h p Hw Hh) as Hin.
  rewrite (draw_replace_landing w h c pix p Hw Hh Hs Hf).
  eexists. split; [reflexivity|]. cbn [size pixels fst snd].
  split; [reflexivity|]. split; [assumption|].
  split; [now apply (read_write_same w h)|].
  intros q Hq Hne. apply (read_write_other w h); auto.
Qed.

Lemma draw_replace_wraps_witness :
  exists img',
    on_image (fun s0 => draw_replace s0 [(2, 0)] (Color 1 0 0 1) true)
      (Image (2, 2) (replicate 16 0%float)) = (Py.Ok tt, img')
    /\ pixel_at img' (0, 1) = Some (Color 1 0 0 1).
Proof.
  destruct (draw_replace_wraps (Image (2, 2) (replicate 16 0%float)) (2, 0)
              (Color 1 0 0 1) eq_refl ltac:(cbn; lia) ltac:(cbn; lia)
              ltac:(cbn; lia))
    as (img' & Hrun & _ & _ & Hpx & _).
  exists img'. split; [exact Hrun | exact Hpx].
Defined.

(** X8. A stroke is not rolled back: when the dots of [draw_replace] are
    cells of the canvas up to a dot whose flat index is outside
    [[-w*h, w*h)], the call raises [IndexError] at that dot, the cells
    before it hold the color, the remaining dots are not painted and every
    other cell is as before. *)
Theorem draw_replace_partial (img : image) (good rest : list point) (bad : point)
    (c : color) :
  canvas_ok img -> Forall (on_canvas img) good ->
  (fst (size img) * snd bad + fst bad < - (fst (size img) * snd (size img))
   \/ fst (size img) * snd (size img) <= fst (size img) * snd bad + fst bad) ->
  exists img',
    on_image (fun s0 => draw_replace s0 (good ++ bad :: rest) c true) img
    = (Py.Raise Py.IndexError, img')
    /\ on_image (fun s0 => draw_replace s0 good c true) img = (Py.Ok tt, img')
    /\ (forall p, p ∈ good -> pixel_at img' p = Some c)
    /\ (forall q, on_canvas img q -> q ∉ good -> pixel_at img' q = pixel_at img q).
Proof.
  intros Hs Hin Hbad.
  destruct (draw_replace_image img good c Hs Hin) as (img' & Hrun & Hsz & Hvis & Hoth).
  exists img'. split; [|split; [exact Hrun|split; assumption]].
  destruct img as [[w h] pix], img' as [sz' pix'].
  unfold canvas_ok, on_image in *. cbn [size pixels fst snd] in *.
  destruct (draw_replace w good c true pix) as [r s] eqn:Hg.
  injection Hrun as -> <- ->.
  assert (well_sized w h pix') as Hs'.
  { destruct (for_each_overwrite w h _ c
                (fun pix0 p Hp Hs0 =>
                   for_each_single _ p pix0 _ (draw_replace_dot w h c pix0 p Hp Hs0))
                good pix Hs Hin) as (pix2 & Hrun2 & Hs2 & _).
    unfold draw_replace in Hg. rewrite Hrun2 in Hg. now injection Hg as <-. }
  unfold draw_replace in *. rewrite for_each_app, Hg.
  destruct bad as [x y]. cbn [Py.for_each fst snd] in *. unfold Py.bind.
  unfold well_sized in Hs'.
  rewrite setitem_outside; [reflexivity|]. lia.
Qed.

Lemma draw_replace_partial_witness :
  exists img',
    on_image (fun s0 => draw_replace s0 ([(0, 0)] ++ (5, 0) :: [(1, 0)])
                          (Color 1 0 0 1) true)
      (Image (2, 1) (replicate 8 0%float)) = (Py.Raise Py.IndexError, img')
    /\ pixel_at img' (0, 0) = Some (Color 1 0 0 1).
Proof.
  destruct (draw_replace_partial (Image (2, 1) (replicate 8 0%float))
              [(0, 0)] [(1, 0)] (5, 0) (Color 1 0 0 1) eq_refl
              ltac:(repeat constructor; cbn; lia) ltac:(right; cbn; lia))
    as (img' & Hrun & _ & Hvis & _).
  exists img'. split; [exact Hrun|]. apply Hvis. now left.
Defined.

(** X9. Alpha compositing keeps an opaque cell opaque: with a destination
    alpha of exactly 1 and an incoming alpha in (0, 1], the alpha that
    [draw_alpha] stores is exactly 1. *)
Theorem composite_opaque (c old : color) :
  (0 <? alpha c)%float = true -> (alpha c <=? 1)%float = true ->
  alpha old = 1%float ->
  alpha (composite c old) = 1%float.
Proof.
  intros H0 H1 Hold. unfold composite, alpha_outa, alpha_da. cbn [alpha].
  rewrite Hold. set (a := alpha c) in *.
  rewrite <- (SF2Prim_Prim2SF (1 + a * (1 - 1))%float).
  rewrite <- (SF2Prim_Prim2SF 1%float) at 3. f_equal.
  rewrite FloatAxioms.add_spec, FloatAxioms.mul_spec.
  rewrite FloatAxioms.ltb_spec in H0. rewrite FloatAxioms.leb_spec in H1.
  replace (Prim2SF (1 - 1)) with (S754_zero false) by (vm_compute; reflexivity).
  replace (Prim2SF 1) with (S754_finite false 4503599627370496 (-52)) in *
    by (vm_compute; reflexivity).
  replace (Prim2SF 0) with (S754_zero false) in * by (vm_compute; reflexivity).
  destruct (Prim2SF a) as [s|s| |s m e]; try discriminate.
  - destruct s; discriminate.
  - destruct s; reflexivity.
Qed.

Lemma composite_opaque_witness :
  alpha (composite (Color 1 0 0 0.5) (Color 0 0 0 1)) = 1%float.
Proof.
  apply composite_opaque; vm_compute; reflexivity.
Defined.

End Draw.

(** ** The host's image resources, as util.py and handle.py use them *)
Module Host.

(** numpy's [float32] and the host's pixel storage: IEEE-754 binary32. *)
Definition f32 : Type := spec_float.

Record image := Image {
  name : string;            (* img.name *)
  filepath : string;        (* img.filepath *)
  source : string;          (* img.sb_props.source *)
  packed_file : bool;       (* img.packed_file is not None *)
  has_data : bool;          (* img.has_data *)
  use_fake_user : bool;     (* img.use_fake_user *)
  size : Z * Z;             (* img.size *)
  frame : Z;                (* img.sb_props.frame *)
  prescale : Z;             (* img.sb_props.prescale *)
  pixels : list f32         (* img.pixels *)
}.

Definition set_filepath (fp : string) (i : image) : image :=
  Image (name i) fp (source i) (packed_file i) (has_data i) (use_fake_user i)
        (size i) (frame i) (prescale i) (pixels i).

Definition set_frame (f : Z) (i : image) : image :=
  Image (name i) (filepath i) (source i) (packed_file i) (has_data i)
        (use_fake_user i) (size i) f (prescale i) (pixels i).

Definition set_pixels (px : list f32) (i : image) : image :=
  Image (name i) (filepath i) (source i) (packed_file i) (has_data i)
        (use_fake_user i) (size i) (frame i) (prescale i) px.

(** Modelled from the spec: [sb_props.source_abs] is defined in addon.py,
    which is not among the sources; the spec calls it the image's "explicit
    tracked source path", so it reads the tracked source. *)
Definition source_abs (i : image) : string := source i.

(** Modelled from the spec: [sb_props.source_set(new_name)] is defined in
    addon.py, which is not among the sources; the spec has the rename
    "update its tracked source to new name". *)
Definition source_set (new_name : string) (i : image) : image :=
  Image (name i) (filepath i) new_name (packed_file i) (has_data i)
        (use_fake_user i) (size i) (frame i) (prescale i) (pixels i).

End Host.

(** ** messaging/handle.py *)
Module Handle.
Import Host.
Local Open Scope string_scope.

(** *** [re.search(r"\.(?:png|jpg|jpeg|bmp|tga)$", new_name)] *)

Definition newline : string := String "010"%char EmptyString.

Definition raster_exts : list string := ["png"; "jpg"; "jpeg"; "bmp"; "tga"].

(** [$] without [re.MULTILINE]: the end of the string, or the position just
    before a newline that ends the string. *)
Definition at_dollar (s : string) : bool := (s =? "") || (s =? newline).

(** The literal [lit] at the start of [s]: what follows it. *)
Fixpoint strip_prefix (lit s : string) : option string :=
  match lit, s with
  | EmptyString, _ => Some s
  | String a lit', String b s' =>
      if Ascii.eqb a b then strip_prefix lit' s' else None
  | String _ _, EmptyString => None
  end.

(** The pattern anchored where [s] starts: a dot, one alternative, [$]. *)
Definition match_here (s : string) : bool :=
  match strip_prefix "." s with
  | Some rest =>
      existsb (fun ext => match strip_prefix ext rest with
                          | Some r => at_dollar r
                          | None => false
                          end) raster_exts
  | None => false
  end.

(** [re.search]: the pattern is tried at every position of the string. *)
Fixpoint re_search (s : string) : bool :=
  match_here s ||
  match s with
  | EmptyString => false
  | String _ s' => re_search s'
  end.

(** *** [Spritesheet.execute]: the grid of the composed sheet *)

(** [count_x = math.ceil(length ** 0.5)] and
    [count_y = math.ceil(length / count_x)].  The power is libm's [pow]; it
    is taken as the correctly rounded square root.  [int / int] is the
    correctly rounded quotient, which for operands below 2^53 is the
    binary64 quotient of their conversions.  [None]: [ZeroDivisionError]
    for [count_x = 0], or [math.ceil] raising. *)
Definition sheet_grid (length : Z) : option (Z * Z) :=
  match PyFloat.math_ceil (PrimFloat.sqrt (PyFloat.float_of_int length)) with
  | None => None
  | Some count_x =>
      if (count_x =? 0)%Z then None
      else
        match PyFloat.math_ceil (PyFloat.float_of_int length
                                 / PyFloat.float_of_int count_x)%float with
        | None => None
        | Some count_y => Some (count_x, count_y)
        end
  end.

(** *** [ChangeName.execute] *)

(** One reading of [bpy.context.window_manager.is_interface_locked] inside
    the [try]: [Some b] is the flag, [None] is a host (2.80) where reading it
    raises, which the bare [except] turns into [pass]. *)
Definition lock_reading : Type := option bool.

(** The [while] loop over the successive readings of the flag.  [None]:
    every reading that was observed said locked, the handler is still in
    the loop. *)
Fixpoint wait_unlocked (readings : list lock_reading) : option unit :=
  match readings with
  | [] => None
  | Some true :: rest => wait_unlocked rest
  | Some false :: _ => Some tt
  | None :: _ => Some tt
  end.

(** The body of [for img in bpy.data.images]. *)
Definition rename (old_name new_name : string) (img : image) : image :=
  if existsb (String.eqb old_name) [source_abs img; filepath img; name img]
  then
    let img := source_set new_name img in
    if re_search new_name
    then set_filepath new_name img
    else set_filepath "" img
  else img.

Definition execute (readings : list lock_reading) (old_name new_name : string)
    (images : list image) : option (list image) :=
  match wait_unlocked readings with
  | Some _ => Some (map (rename old_name new_name) images)
  | None => None
  end.

(** *** What the pattern accepts *)

(** [s] ends with a dot and one of the five lower-case extensions, with at
    most one newline after it. *)
Definition raster_suffix (s : string) : Prop :=
  exists pre ext tail,
    In ext raster_exts /\ (tail = "" \/ tail = newline)
    /\ s = pre ++ "." ++ ext ++ tail.

(** The claim's reading of the same test, "case-insensitive": the pattern
    applied to the name with its ASCII letters lowered. *)
Definition lower_ascii (c : ascii) : ascii :=
  let n := nat_of_ascii c in
  if (65 <=? n)%nat && (n <=? 90)%nat then ascii_of_nat (n + 32) else c.

Fixpoint lower (s : string) : string :=
  match s with
  | EmptyString => EmptyString
  | String c s' => String (lower_ascii c) (lower s')
  end.

Definition matches_ignoring_case (s : string) : bool := re_search (lower s).

Lemma strip_prefix_spec (lit s r : string) :
  strip_prefix lit s = Some r <-> s = lit ++ r.
Proof.
  revert s; induction lit as [|a lit IH]; intros s; cbn.
  - split; [now intros [= ->] | now intros ->].
  - destruct s as [|b s]; [split; discriminate|].
    destruct (Ascii.eqb_spec a b) as [->|Hne].
    + rewrite IH. split; [now intros -> | now intros [= ->]].
    + split; [discriminate | intros [= E _]; now symmetry in E].
Qed.

Lemma at_dollar_spec (s : string) :
  at_dollar s = true <-> s = "" \/ s = newline.
Proof.
  unfold at_dollar. rewrite orb_true_iff, !String.eqb_eq. reflexivity.
Qed.

Lemma match_here_spec (s : string) :
  match_here s = true <->
  exists ext tail, In ext raster_exts /\ (tail = "" \/ tail = newline)
                   /\ s = "." ++ ext ++ tail.
Proof.
  unfold match_here. destruct (strip_prefix "." s) as [rest|] eqn:E.
  - apply strip_prefix_spec in E. subst s. rewrite existsb_exists. split.
    + intros (ext & Hin & H). destruct (strip_prefix ext rest) as [r|] eqn:Er;
        [|discriminate].
      apply strip_prefix_spec in Er. apply at_dollar_spec in H.
      exists ext, r. subst rest. auto.
    + intros (ext & tail & Hin & Ht & E). exists ext. split; [assumption|].
      assert (rest = ext ++ tail) as -> by (now injection E).
      rewrite (proj2 (strip_prefix_spec ext (ext ++ tail) tail) eq_refl).
      now apply at_dollar_spec.
  - split; [discriminate|]. intros (ext & tail & _ & _ & ->).
    rewrite (proj2 (strip_prefix_spec "." ("." ++ ext ++ tail) (ext ++ tail))
               eq_refl) in E.
    discriminate.
Qed.

Lemma re_search_spec (s : string) : re_search s = true <-> raster_suffix s.
Proof.
  unfold raster_suffix. induction s as [|c s IH].
  - cbn [re_search]. rewrite orb_false_r, match_here_spec. split.
    + intros (ext & tail & Hin & Ht & E). now exists "", ext, tail.
    + intros (pre & ext & tail & Hin & Ht & E).
      destruct pre; [now exists ext, tail | discriminate].
  - cbn [re_search]. rewrite orb_true_iff, match_here_spec, IH. split.
    + intros [(ext & tail & Hin & Ht & E) | (pre & ext & tail & Hin & Ht & E)].
      * now exists "", ext, tail.
      * exists (String c pre), ext, tail. now rewrite E.
    + intros (pre & ext & tail & Hin & Ht & E). destruct pre as [|c' pre].
      * left. now exists ext, tail.
      * right. injection E as _ E. now exists pre, ext, tail.
Qed.

Lemma rename_hit (old_name new_name : string) (img : image) :
  source img = old_name \/ filepath img = old_name \/ name img = old_name ->
  rename old_name new_name img
  = set_filepath (if re_search new_name then new_name else "")
      (source_set new_name img).
Proof.
  intros H. unfold rename, source_abs. cbn [existsb].
  replace ((old_name =? source img) || ((old_name =? filepath img)
             || ((old_name =? name img) || false))) with true.
  - now destruct (re_search new_name).
  - symmetry. rewrite !orb_true_iff, !String.eqb_eq. intuition auto.
Qed.

Lemma rename_miss (old_name new_name : string) (img : image) :
  ~ (source img = old_name \/ filepath img = old_name \/ name img = old_name) ->
  rename old_name new_name img = img.
Proof.
  intros H. unfold rename, source_abs. cbn [existsb].
  replace ((old_name =? source img) || ((old_name =? filepath img)
             || ((old_name =? name img) || false))) with false; [reflexivity|].
  symmetry. rewrite !orb_false_iff, !String.eqb_neq. intuition auto.
Qed.

(** C4 as stated fails at a new name whose extension is upper case: the
    image matches the old name and the name matches the extensions when case
    is ignored, yet the load path is cleared, not set to the new name. *)
Lemma change_name_upper_case_counterexample :
  exists img',
    execute [Some false] "old.PNG" "new.PNG"
      [Image "sprite" "old.PNG" "" false true false (1, 1) 0 0 []]
    = Some [img']
    /\ source img' = "new.PNG"
    /\ matches_ignoring_case "new.PNG" = true
    /\ filepath img' = ""
    /\ filepath img' <> "new.PNG".
Proof.
  eexists. split; [vm_compute; reflexivity|].
  repeat split; try (vm_compute; reflexivity). cbn. discriminate.
Qed.

(** C4 (amended: the extension test is case-sensitive).  Once the interface
    lock lets the handler through, every open image whose tracked source,
    load path or resource name equals the old name gets its tracked source
    set to the new name; its load path is set to the new name when that
    ends in [.png], [.jpg], [.jpeg], [.bmp] or [.tga] in lower case (one
    final newline allowed), and is cleared otherwise; the other images are
    untouched.  [.png] sets both, [.aseprite] clears the load path. *)
Theorem change_name_renames (readings : list lock_reading)
    (old_name new_name : string) (images : list image) :
  wait_unlocked readings = Some tt ->
  exists images',
    execute readings old_name new_name images = Some images'
    /\ length images' = length images
    /\ (forall (k : nat) img, images !! k = Some img ->
        exists img', images' !! k = Some img'
          /\ (source img = old_name \/ filepath img = old_name
              \/ name img = old_name ->
              source img' = new_name
              /\ (raster_suffix new_name -> filepath img' = new_name)
              /\ (~ raster_suffix new_name -> filepath img' = "")
              /\ name img' = name img)
          /\ (~ (source img = old_name \/ filepath img = old_name
                 \/ name img = old_name) -> img' = img))
    /\ (raster_suffix "sprite.png" /\ ~ raster_suffix "sprite.aseprite").
Proof.
  intros Hw. exists (map (rename old_name new_name) images).
  split; [unfold execute; now rewrite Hw|].
  split; [apply length_map|]. split.
  - intros k img Hk. exists (rename old_name new_name img).
    split; [now rewrite list_lookup_fmap, Hk|]. split.
    + intros Hhit. rewrite (rename_hit _ _ _ Hhit). cbn.
      split; [reflexivity|]. split; [|split; [|reflexivity]].
      * intros Hr. apply re_search_spec in Hr. now rewrite Hr.
      * intros Hr. destruct (re_search new_name) eqn:E; [|reflexivity].
        apply re_search_spec in E. contradiction.
    + apply rename_miss.
  - split.
    + apply re_search_spec. vm_compute. reflexivity.
    + intros H. apply re_search_spec in H. vm_compute in H. discriminate.
Qed.

Lemma change_name_renames_witness :
  exists images',
    execute [Some true; Some false] "old.ase" "new.png"
      [Image "sprite" "" "old.ase" true true false (1, 1) 0 0 []] = Some images'
    /\ length images' = 1%nat.
Proof.
  destruct (change_name_renames [Some true; Some false] "old.ase" "new.png"
              [Image "sprite" "" "old.ase" true true false (1, 1) 0 0 []]
              eq_refl) as (images' & Hrun & Hlen & _).
  exists images'. split; assumption.
Defined.

(** C6. For every frame count [1 <= n < 2^32] (the field is a uint32) the
    grid is [columns = ceil(sqrt(n))], [rows = ceil(n / columns)], the
    ceilings being the exact ones although the code computes them through
    binary64: [(columns - 1)^2 < n <= columns^2] and
    [(rows - 1) * columns < n <= rows * columns].  7 frames give 3 by 3,
    10 frames give 4 by 3. *)
Theorem sheet_grid_exact (n : Z) :
  (1 <= n < 2 ^ 32)%Z ->
  (exists columns rows,
     sheet_grid n = Some (columns, rows)
     /\ columns = Z.sqrt_up n
     /\ ((columns - 1) * (columns - 1) < n <= columns * columns)%Z
     /\ ((rows - 1) * columns < n <= rows * columns)%Z)
  /\ sheet_grid 7 = Some (3, 3)%Z
  /\ sheet_grid 10 = Some (4, 3)%Z.
Proof.
  intros Hn. split; [|split; vm_compute; reflexivity].
  pose proof (Z.sqrt_up_spec n ltac:(lia)) as Hk.
  rewrite <- Z.sub_1_r in Hk.
  assert (0 < Z.sqrt_up n)%Z as Hk0 by (apply Z.sqrt_up_pos; lia).
  set (k := Z.sqrt_up n) in *.
  assert (k < 2 ^ 32)%Z as Hk32 by nia.
  set (j := (- (- n / k))%Z).
  assert ((j - 1) * k < n <= j * k)%Z as Hj.
  { subst j. pose proof (Z.div_mod (- n) k ltac:(lia)).
    pose proof (Z.mod_pos_bound (- n) k ltac:(lia)). nia. }
  exists k, j. unfold sheet_grid.
  rewrite (PyFloat.ceil_sqrt_exact n k) by lia.
  replace (k =? 0)%Z with false by (symmetry; apply Z.eqb_neq; lia).
  rewrite (PyFloat.ceil_div_exact n k j) by lia.
  auto.
Qed.

Lemma sheet_grid_exact_witness :
  exists columns rows,
    sheet_grid 5 = Some (columns, rows)
    /\ columns = Z.sqrt_up 5
    /\ ((columns - 1) * (columns - 1) < 5 <= columns * columns)%Z
    /\ ((rows - 1) * columns < 5 <= rows * columns)%Z.
Proof.
  apply (proj1 (sheet_grid_exact 5 ltac:(lia))).
Defined.

End Handle.

(** ** util.py *)
Module Util.
Import Host.

(** *** [image_name] and [SB_OT_update_image.modal_execute] *)

Definition to_float32 (b : Byte.byte) : f32 :=
  binary_normalize 24 128 (Z.of_N (Byte.to_N b)) 0 false.

Definition f32_255 : f32 := binary_normalize 24 128 255 0 false.

(** [np.float32(pixels) / 255.0]: elementwise, in binary32. *)
Definition convert (pixels : list Byte.byte) : list f32 :=
  map (fun b => SFdiv 24 128 (to_float32 b) f32_255) pixels.

(** [a.shape = (n_rows, row_len)]: the rows of a flat array. *)
Fixpoint rows_of {A} (n_rows row_len : nat) (l : list A) : list (list A) :=
  match n_rows with
  | O => []
  | S k => take row_len l :: rows_of k row_len (drop row_len l)
  end.

(** [pixels.shape = (h, pixels.size // h); pixels[::-1,:].ravel()].  [None]
    is the exception numpy or Python raises: [h == 0] divides by zero, and a
    shape that does not hold [pixels.size] elements is refused. *)
Definition flip_y {A} (h : Z) (pixels : list A) : option (list A) :=
  if h =? 0 then None
  else
    let row_len := Z.of_nat (length pixels) / h in
    if (0 <? h) && (h * row_len =? Z.of_nat (length pixels))
    then Some (concat (reverse (rows_of (Z.to_nat h) (Z.to_nat row_len) pixels)))
    else None.

Inductive status :=
| FINISHED      (* return {'FINISHED'} *)
| NOT_FOUND     (* the bare return under [except StopIteration] *)
| RAISED.       (* an exception left the operator *)

(** [next(i for i in bpy.data.images if name == image_name(i))]: the first
    match and its position. *)
Fixpoint find_image (key : image -> string) (name : string)
    (images : list image) : option (nat * image) :=
  match images with
  | [] => None
  | i :: rest =>
      if String.eqb name (key i) then Some (O, i)
      else match find_image key name rest with
           | Some (k, j) => Some (S k, j)
           | None => None
           end
  end.

Section UpdateImage.
(** [os.path.normpath], [bpy.path.abspath], and the host's resampling of a
    pixel buffer in [img.scale(w, h)]. *)
Variables (normpath abspath : string -> string).
Variable resample : Z -> Z -> image -> list f32.

Definition image_name (img : image) : string :=
  let fp := filepath img in
  let name := name img in
  if negb (String.eqb (source img) "")
  then normpath (source_abs img)
  else if negb (packed_file img) && negb (String.eqb fp "")
       then normpath (if String.prefix "//" fp then abspath fp else fp)
       else name.

(** The [if not img.has_data] branch: an empty [w] by [h] buffer is written
    to a temporary file, loaded, packed, and the path cleared. *)
Definition bootstrap (w h : Z) (img : image) : image :=
  Image (name img) "" (source img) true true true (w, h) (frame img)
        (prescale img) (replicate (Z.to_nat (4 * w * h)) (S754_zero false)).

(** [img.scale(w, h)] *)
Definition scale (w h : Z) (img : image) : image :=
  Image (name img) (filepath img) (source img) (packed_file img) (has_data img)
        (use_fake_user img) (w, h) (frame img) (prescale img) (resample w h img).

(** [self.args = (w, h, name, frame, pixels)]; the state is
    [bpy.data.images].  [img.pixels.foreach_set] (and the slice assignment
    of older hosts) refuses a sequence whose length is not the array's. *)
Definition modal_execute (args : Z * Z * string * Z * list Byte.byte)
    (images : list image) : status * list image :=
  let '(w, h, name, frame, pixels) := args in
  match find_image image_name name images with
  | None => (NOT_FOUND, images)
  | Some (k, img) =>
      let img :=
        if negb (has_data img) then bootstrap w h img
        else if negb (fst (size img) =? w) || negb (snd (size img) =? h)
             then scale w h img
             else img in
      let img := if negb (frame =? -1) then set_frame frame img else img in
      match flip_y h (convert pixels) with
      | None => (RAISED, <[k := img]> images)
      | Some px =>
          if (length px =? length (Host.pixels img))%nat
          then (FINISHED, <[k := set_pixels px img]> images)
          else (RAISED, <[k := img]> images)
      end
  end.

End UpdateImage.

(** *** [SB_OT_update_spritesheet.update_actions] *)

Inductive interpolation_mode := BEZIER | LINEAR | CONSTANT.

Record keyframe := Keyframe {
  co : float * float;
  select_control_point : bool;
  select_left_handle : bool;
  select_right_handle : bool;
  interpolation : interpolation_mode
}.

(** What [points.add(n)] appends. *)
Definition new_point : keyframe := Keyframe (0, 0)%float true true true BEZIER.

(** [l[i:j]] with Python's treatment of negative and out-of-range bounds. *)
Definition clamp_index (len i : Z) : Z :=
  if i <? 0 then Z.max (i + len) 0 else Z.min i len.

Definition py_slice {A} (l : list A) (i j : Z) : list A :=
  let len := Z.of_nat (length l) in
  let lo := clamp_index len i in
  let hi := clamp_index len j in
  take (Z.to_nat (hi - lo)) (drop (Z.to_nat lo) l).

(** [l[-2:0:-1]]: from the one before last down to index 1. *)
Definition py_inner_reversed {A} (l : list A) : list A :=
  reverse (py_slice l 1 (Z.of_nat (length l) - 1)).

(** The (cel, duration) pairs a tag plays, with the last one repeated;
    [None] is the [IndexError] of [tag_frames[-1]] on an empty range. *)
Definition tag_frames_of (frames : list (Z * Z)) (start tag_first tag_last ani_dir : Z)
    : option (list (Z * Z)) :=
  let tag_frames := py_slice frames (tag_first - start) (tag_last - start + 1) in
  let tag_frames :=
    if ani_dir =? 1 then reverse tag_frames
    else if ani_dir =? 2 then tag_frames ++ py_inner_reversed tag_frames
         else tag_frames in
  match last tag_frames with
  | Some x => Some (tag_frames ++ [x])
  | None => None
  end.

(** The [if npoints < nframes ... elif npoints > nframes ...] resizing. *)
Definition resize_points (points : list keyframe) (nframes : nat) : list keyframe :=
  let npoints := length points in
  if (npoints <? nframes)%nat
  then points ++ replicate (nframes - npoints) new_point
  else if (nframes <? npoints)%nat
       then drop (npoints - nframes) points
       else points.

(** [for point, (n, dt) in zip(points, tag_frames)], with the accumulator
    [time]. *)
Fixpoint place_keyframes (first : Z) (fps : float) (time : Z)
    (points : list keyframe) (tag_frames : list (Z * Z)) : list keyframe :=
  match points, tag_frames with
  | _ :: points', (n, dt) :: tag_frames' =>
      Keyframe (PyFloat.float_of_int first + PyFloat.float_of_int time * fps / 1000,
                PyFloat.float_of_int n)%float
               false false false CONSTANT
      :: place_keyframes first fps (time + dt) points' tag_frames'
  | _, _ => points
  end.

(** [fps = context.scene.render.fps / context.scene.render.fps_base] *)
Definition scene_fps (render_fps : Z) (render_fps_base : float) : float :=
  (PyFloat.float_of_int render_fps / render_fps_base)%float.

(** One iteration of [for tag, tag_first, tag_last, ani_dir in ...] on the
    keyframes of the action's curve. *)
Definition rebuild_curve (render_fps : Z) (render_fps_base : float)
    (frame_start : Z) (start : Z) (frames : list (Z * Z))
    (tag_first tag_last ani_dir : Z) (points : list keyframe)
    : option (list keyframe) :=
  let fps := scene_fps render_fps render_fps_base in
  let time := 0 in
  let first := frame_start in
  match tag_frames_of frames start tag_first tag_last ani_dir with
  | None => None
  | Some tag_frames =>
      let points := resize_points points (length tag_frames) in
      Some (place_keyframes first fps time points tag_frames)
  end.

Definition tag : Type := string * Z * Z * Z.

(** [bpy.data.actions], each action reduced to the keyframes of its
    ["Sprite Frame"] curve. *)
Abbreviation actions := (gmap string (list keyframe)).

Definition action_name (img_name tag_name : string) : string :=
  if String.eqb tag_name "" then img_name
  else (img_name ++ ": " ++ tag_name)%string.

(** [tag_editor]: the current tag's range, or the whole sheet. *)
Definition tag_editor (start : Z) (frames : list (Z * Z)) (tags : list tag)
    (current_tag : string) : option tag :=
  if negb (String.eqb current_tag "")
  then match List.find (fun t : tag => String.eqb (fst (fst (fst t))) current_tag) tags with
       | Some (_, tag_first, tag_last, ani_dir) =>
           Some (""%string, tag_first, tag_last, ani_dir)
       | None => None
       end
  else Some (""%string, start, start + Z.of_nat (length frames), 0).

Fixpoint rebuild_all (render_fps : Z) (render_fps_base : float)
    (frame_start start : Z) (frames : list (Z * Z)) (img_name : string)
    (tags : list tag) (acts : actions) : option actions :=
  match tags with
  | [] => Some acts
  | (tag_name, tag_first, tag_last, ani_dir) :: rest =>
      let name := action_name img_name tag_name in
      let points := default [] (acts !! name) in
      match rebuild_curve render_fps render_fps_base frame_start start frames
              tag_first tag_last ani_dir points with
      | None => None
      | Some points' =>
          rebuild_all render_fps render_fps_base frame_start start frames
            img_name rest (<[name := points']> acts)
      end
  end.

Definition update_actions (render_fps : Z) (render_fps_base : float)
    (frame_start : Z) (img_name : string) (start : Z) (frames : list (Z * Z))
    (tags : list tag) (current_tag : string) (acts : actions) : option actions :=
  match tag_editor start frames tags current_tag with
  | None => None
  | Some te =>
      rebuild_all render_fps render_fps_base frame_start start frames img_name
        (te :: tags) acts
  end.

(** *** Image update: identity, conversion, flip *)

Lemma find_image_none (key : image -> string) (name : string) (images : list image) :
  (forall img, img ∈ images -> key img <> name) ->
  find_image key name images = None.
Proof.
  induction images as [|i rest IH]; intros H; [reflexivity|].
  cbn [find_image]. destruct (String.eqb_spec name (key i)) as [E|_].
  - exfalso. apply (H i); [left | now symmetry].
  - rewrite IH; [reflexivity|]. intros img Hin. apply H. now right.
Qed.

Lemma find_image_some (key : image -> string) (name : string)
    (images : list image) (k : nat) (img : image) :
  find_image key name images = Some (k, img) ->
  images !! k = Some img /\ key img = name.
Proof.
  revert k; induction images as [|i rest IH]; intros k; [discriminate|].
  cbn [find_image]. destruct (String.eqb_spec name (key i)) as [E|_].
  - intros [= <- <-]. now split.
  - destruct (find_image key name rest) as [[k' j]|]; [|discriminate].
    intros [= <- <-]. now apply IH.
Qed.

Lemma rows_of_concat {A} (n : nat) (rows : list (list A)) :
  Forall (fun r => length r = n) rows ->
  rows_of (length rows) n (concat rows) = rows.
Proof.
  induction 1 as [|r rows Hr _ IH]; [reflexivity|].
  cbn [length rows_of concat].
  rewrite take_app_length' by (now symmetry).
  rewrite drop_app_length' by (now symmetry). now rewrite IH.
Qed.

Lemma length_concat_uniform {A} (n : nat) (rows : list (list A)) :
  Forall (fun r => length r = n) rows ->
  length (concat rows) = (length rows * n)%nat.
Proof.
  induction 1 as [|r rows Hr _ IH]; [reflexivity|].
  cbn [concat length]. rewrite length_app, IH, Hr. lia.
Qed.

Lemma convert_concat (rows : list (list Byte.byte)) :
  convert (concat rows) = concat (map convert rows).
Proof.
  unfold convert. induction rows as [|r rows IH]; [reflexivity|].
  cbn [concat map]. now rewrite map_app, IH.
Qed.

Lemma flip_y_rows {A} (h : Z) (n : nat) (rows : list (list A)) :
  0 < h -> length rows = Z.to_nat h ->
  Forall (fun r => length r = n) rows ->
  flip_y h (concat rows) = Some (concat (reverse rows)).
Proof.
  intros Hh Hlen Hrows. unfold flip_y.
  pose proof (length_concat_uniform n rows Hrows) as Hc.
  assert (Z.of_nat (length (concat rows)) = h * Z.of_nat n) as Hz
    by (rewrite Hc, Hlen; nia).
  replace (h =? 0) with false by (symmetry; apply Z.eqb_neq; lia).
  rewrite Hz. replace (h * Z.of_nat n / h) with (Z.of_nat n)
    by (rewrite Z.mul_comm, Z.div_mul; lia).
  replace (0 <? h) with true by (symmetry; apply Z.ltb_lt; lia).
  rewrite Z.eqb_refl. cbn [andb]. rewrite Nat2Z.id, <- Hlen.
  now rewrite rows_of_concat.
Qed.

Section UpdateImageFacts.
Variables (normpath abspath : string -> string).
Variable resample : Z -> Z -> image -> list f32.

(** C8. When no open image has the target name as its identity
    ([image_name]: the normalised tracked source if one is set, else the
    normalised load path of an unpacked image, else the resource name), the
    image update returns without any mutation: [bpy.data.images] is what it
    was, no image added, no pixels, size or frame index changed. *)
Theorem update_image_not_found (w h : Z) (name : string) (frame : Z)
    (pixels : list Byte.byte) (images : list image) :
  (forall img, img ∈ images -> image_name normpath abspath img <> name) ->
  modal_execute normpath abspath resample (w, h, name, frame, pixels) images
  = (NOT_FOUND, images)
  /\ (forall img,
        (source img <> ""%string ->
         image_name normpath abspath img = normpath (source img))
        /\ (source img = ""%string -> packed_file img = false ->
            filepath img <> ""%string ->
            image_name normpath abspath img
            = normpath (if String.prefix "//" (filepath img)
                        then abspath (filepath img) else filepath img))
        /\ (source img = ""%string ->
            packed_file img = true \/ filepath img = ""%string ->
            image_name normpath abspath img = Host.name img)).
Proof.
  intros Hnone. split.
  - unfold modal_execute. now rewrite (find_image_none _ _ _ Hnone).
  - intros img. unfold image_name, source_abs. repeat split.
    + intros Hs. apply String.eqb_neq in Hs. now rewrite Hs.
    + intros Hs Hp Hf. apply String.eqb_neq in Hf.
      now rewrite Hs, Hp, Hf.
    + intros Hs [Hp|Hf]; rewrite Hs; cbn.
      * now rewrite Hp.
      * rewrite Hf. cbn. now rewrite andb_false_r.
Qed.

(** C7. An image update whose 8-bit RGBA buffer holds the [h] rows of a
    [w]-wide image stores, for the target, each byte divided by 255.0 in
    binary32, the rows in reverse order: the first input row is the last
    stored one.  Byte 255 is stored as exactly 1.0, byte 0 as exactly 0.0. *)
Theorem update_image_converts_and_flips (w h : Z) (name : string) (frame : Z)
    (rows : list (list Byte.byte)) (images : list image) (k : nat) (img : image) :
  find_image (image_name normpath abspath) name images = Some (k, img) ->
  0 < h -> 0 <= w ->
  length rows = Z.to_nat h ->
  Forall (fun r => length r = Z.to_nat (4 * w)) rows ->
  length (Host.pixels img) = Z.to_nat (4 * fst (size img) * snd (size img)) ->
  length (resample w h img) = Z.to_nat (4 * w * h) ->
  (exists img',
     modal_execute normpath abspath resample
       (w, h, name, frame, concat rows) images
     = (FINISHED, <[k := img']> images)
     /\ Host.pixels img' = concat (reverse (map convert rows))
     /\ (forall r0 rest, rows = r0 :: rest ->
         Host.pixels img' = concat (reverse (map convert rest)) ++ convert r0)
     /\ (forall r b, r ∈ rows -> b ∈ convert r ->
         exists byte, b = SFdiv 24 128 (to_float32 byte) f32_255))
  /\ convert [Byte.xff; Byte.x00]
     = [binary_normalize 24 128 1 0 false; S754_zero false].
Proof.
  intros Hfind Hh Hw Hlen Hrows Himg Hres. split; [|vm_compute; reflexivity].
  set (img1 := if negb (has_data img) then bootstrap w h img
               else if negb (fst (size img) =? w) || negb (snd (size img) =? h)
                    then scale resample w h img else img).
  set (img2 := if negb (frame =? -1) then set_frame frame img1 else img1).
  assert (Forall (fun r => length r = Z.to_nat (4 * w)) (map convert rows)) as Hrows'.
  { apply Forall_map. eapply Forall_impl; [exact Hrows|].
    intros r Hr. unfold convert. cbn. now rewrite length_map. }
  assert (length (Host.pixels img2) = Z.to_nat (4 * w * h)) as Hpx.
  { assert (length (Host.pixels img1) = Z.to_nat (4 * w * h)) as H1.
    { unfold img1. destruct (has_data img); cbn [negb].
      - destruct (Z.eqb_spec (fst (size img)) w) as [Ew|_];
          [destruct (Z.eqb_spec (snd (size img)) h) as [Eh|_]|]; cbn;
          try exact Hres.
        now rewrite Himg, Ew, Eh.
      - cbn. now rewrite length_replicate. }
    unfold img2. now destruct (negb (frame =? -1)). }
  exists (set_pixels (concat (reverse (map convert rows))) img2).
  split; [|split; [reflexivity|split]].
  - unfold modal_execute. rewrite Hfind. fold img1. fold img2.
    rewrite convert_concat.
    rewrite (flip_y_rows h (Z.to_nat (4 * w)) (map convert rows) Hh)
      by (rewrite ?length_map; assumption).
    replace (length (concat (reverse (map convert rows)))
             =? length (Host.pixels img2))%nat with true; [reflexivity|].
    symmetry. apply Nat.eqb_eq. rewrite Hpx.
    rewrite (length_concat_uniform (Z.to_nat (4 * w)))
      by (now apply Forall_reverse).
    rewrite length_reverse, length_map, Hlen. nia.
  - intros r0 rest ->. cbn [set_pixels Host.pixels map].
    rewrite reverse_cons, concat_app. cbn [concat]. now rewrite app_nil_r.
  - intros r b _ Hb. unfold convert in Hb.
    apply list_elem_of_fmap in Hb as (byte & -> & _). now exists byte.
Qed.

End UpdateImageFacts.

Lemma update_image_not_found_witness :
  modal_execute id id (fun _ _ i => Host.pixels i)
    (2, 1, "sprite.ase"%string, 0, [Byte.xff; Byte.x00; Byte.x00; Byte.xff;
                                    Byte.x00; Byte.x00; Byte.x00; Byte.xff])
    [Image "other" "" "" true true true (1, 1) 0 0
       (replicate 4 (S754_zero false))]
  = (NOT_FOUND,
     [Image "other" "" "" true true true (1, 1) 0 0
        (replicate 4 (S754_zero false))]).
Proof.
  apply (update_image_not_found id id (fun _ _ i => Host.pixels i)).
  intros img Hin. apply list_elem_of_singleton in Hin. subst img.
  vm_compute. discriminate.
Defined.

Lemma update_image_converts_and_flips_witness :
  exists img',
    modal_execute id id (fun w h _ => replicate (Z.to_nat (4 * w * h)) (S754_zero false))
      (1, 2, "sprite"%string, -1, concat [[Byte.xff; Byte.x00; Byte.x00; Byte.xff];
                                          [Byte.x00; Byte.x00; Byte.xff; Byte.xff]])
      [Image "sprite" "" "" true true true (1, 1) 0 0
         (replicate 4 (S754_zero false))]
    = (FINISHED,
       <[0%nat := img']> [Image "sprite" "" "" true true true (1, 1) 0 0
                            (replicate 4 (S754_zero false))])
    /\ Host.pixels img'
       = [S754_zero false; S754_zero false;
          binary_normalize 24 128 1 0 false; binary_normalize 24 128 1 0 false;
          binary_normalize 24 128 1 0 false; S754_zero false;
          S754_zero false; binary_normalize 24 128 1 0 false].
Proof.
  destruct (proj1 (update_image_converts_and_flips id id
              (fun w h _ => replicate (Z.to_nat (4 * w * h)) (S754_zero false))
              1 2 "sprite"%string (-1)
              [[Byte.xff; Byte.x00; Byte.x00; Byte.xff];
               [Byte.x00; Byte.x00; Byte.xff; Byte.xff]]
              [Image "sprite" "" "" true true true (1, 1) 0 0
                 (replicate 4 (S754_zero false))]
              0%nat
              (Image "sprite" "" "" true true true (1, 1) 0 0
                 (replicate 4 (S754_zero false)))
              eq_refl eq_refl ltac:(discriminate) eq_refl
              ltac:(repeat constructor) eq_refl eq_refl))
    as (img' & Hrun & Hpx & _).
  exists img'. split; [exact Hrun|]. rewrite Hpx. vm_compute. reflexivity.
Defined.

(** *** Keyframe timing *)

(** Milliseconds elapsed before a keyframe: the durations of the pairs placed
    before it. *)
Definition elapsed (placed : list (Z * Z)) : Z :=
  foldr (fun p acc => snd p + acc) 0 placed.

Lemma resize_points_length (points : list keyframe) (nframes : nat) :
  length (resize_points points nframes) = nframes.
Proof.
  unfold resize_points.
  destruct (Nat.ltb_spec (length points) nframes) as [H|H].
  - rewrite length_app, length_replicate. lia.
  - destruct (Nat.ltb_spec nframes (length points)) as [H'|H'].
    + rewrite length_drop. lia.
    + lia.
Qed.

Lemma place_keyframes_length (first : Z) (fps : float) (tag_frames : list (Z * Z)) :
  forall points time, length points = length tag_frames ->
    length (place_keyframes first fps time points tag_frames) = length tag_frames.
Proof.
  induction tag_frames as [|[n dt] tfs IH]; intros [|pt pts] time Hlen;
    try discriminate; [reflexivity|].
  cbn [place_keyframes length]. f_equal. apply IH. now injection Hlen.
Qed.

Lemma place_keyframes_lookup (first : Z) (fps : float) (tag_frames : list (Z * Z)) :
  forall points time (k : nat) n dt,
    length points = length tag_frames ->
    tag_frames !! k = Some (n, dt) ->
    place_keyframes first fps time points tag_frames !! k
    = Some (Keyframe (PyFloat.float_of_int first
                      + PyFloat.float_of_int (time + elapsed (take k tag_frames)) * fps / 1000,
                      PyFloat.float_of_int n)%float
                     false false false CONSTANT).
Proof.
  induction tag_frames as [|[n0 dt0] tfs IH]; intros [|pt pts] time k n dt Hlen Hk;
    try discriminate.
  destruct k as [|k].
  - injection Hk as -> ->. cbn. now rewrite Z.add_0_r.
  - cbn [place_keyframes]. change (tfs !! k = Some (n, dt)) in Hk.
    match goal with |- (_ :: ?l) !! S k = ?r => change (l !! k = r) end.
    rewrite (IH pts (time + dt0) k n dt) by (try assumption; now injection Hlen).
    cbn [take elapsed foldr snd]. now rewrite Z.add_assoc.
Qed.

(** C9. In every rebuilt curve the keyframes follow the tag's (cel,
    duration) pairs in order; the horizontal coordinate of each is the
    scene's start frame plus the milliseconds elapsed before it times
    [fps / 1000], with [fps = render.fps / render.fps_base], the elapsed time
    growing by each pair's duration after its keyframe is placed.  With fps
    24 and durations 100 ms and 200 ms the coordinates are first, first+2.4
    and first+7.2. *)
Theorem keyframe_timing (render_fps : Z) (render_fps_base : float)
    (frame_start start : Z) (frames : list (Z * Z))
    (tag_first tag_last ani_dir : Z) (points : list keyframe)
    (tag_frames : list (Z * Z)) :
  tag_frames_of frames start tag_first tag_last ani_dir = Some tag_frames ->
  (exists keys,
     rebuild_curve render_fps render_fps_base frame_start start frames
       tag_first tag_last ani_dir points = Some keys
     /\ length keys = length tag_frames
     /\ forall (k : nat) n dt, tag_frames !! k = Some (n, dt) ->
        exists key, keys !! k = Some key
          /\ fst (co key)
             = (PyFloat.float_of_int frame_start
                + PyFloat.float_of_int (elapsed (take k tag_frames))
                  * (PyFloat.float_of_int render_fps / render_fps_base) / 1000)%float
          /\ snd (co key) = PyFloat.float_of_int n
          /\ interpolation key = CONSTANT)
  /\ (forall first c0 c1,
        option_map (map (fun key => fst (co key)))
          (rebuild_curve 24 1%float first 0 [(c0, 100); (c1, 200)] 0 2 0 points)
        = Some [PyFloat.float_of_int first + 0;
                PyFloat.float_of_int first + 2.4;
                PyFloat.float_of_int first + 7.2]%float)
  /\ option_map (map (fun key => fst (co key)))
       (rebuild_curve 24 1%float 1 0 [(0, 100); (1, 200)] 0 2 0 [])
     = Some [1; 3.4; 8.2]%float.
Proof.
  intros Htf. split; [|split].
  - unfold rebuild_curve. rewrite Htf.
    pose proof (resize_points_length points (length tag_frames)) as Hlen.
    eexists. split; [reflexivity|]. split.
    + now apply place_keyframes_length.
    + intros k n dt Hk. eexists. split.
      * apply (place_keyframes_lookup _ _ _ _ 0 k n dt Hlen Hk).
      * cbn [co fst snd interpolation]. rewrite Z.add_0_l. auto.
  - intros first c0 c1. unfold rebuild_curve.
    replace (tag_frames_of [(c0, 100); (c1, 200)] 0 0 2 0)
      with (Some [(c0, 100); (c1, 200); (c1, 200)])
      by (vm_compute; reflexivity).
    pose proof (resize_points_length points 3) as Hlen.
    cbn [length]. destruct (resize_points points 3) as [|p0 [|p1 [|p2 [|p3 l]]]];
      try discriminate.
    cbn [place_keyframes option_map map co fst].
    replace (PyFloat.float_of_int 0 * scene_fps 24 1 / 1000)%float with 0%float
      by (vm_compute; reflexivity).
    replace (PyFloat.float_of_int (0 + 100) * scene_fps 24 1 / 1000)%float with 2.4%float
      by (vm_compute; reflexivity).
    replace (PyFloat.float_of_int (0 + 100 + 200) * scene_fps 24 1 / 1000)%float
      with 7.2%float by (vm_compute; reflexivity).
    reflexivity.
  - vm_compute. reflexivity.
Qed.

(** With no tag active and no tags declared, [update_actions] rebuilds the
    one action named after the image, over the whole sheet. *)
Lemma update_actions_editor_only (render_fps : Z) (render_fps_base : float)
    (frame_start : Z) (img_name : string) (start : Z) (frames : list (Z * Z))
    (acts : actions) (keys : list keyframe) :
  rebuild_curve render_fps render_fps_base frame_start start frames
    start (start + Z.of_nat (length frames)) 0 (default [] (acts !! img_name))
  = Some keys ->
  update_actions render_fps render_fps_base frame_start img_name start frames
    [] "" acts
  = Some (<[img_name := keys]> acts).
Proof.
  intros H. unfold update_actions, tag_editor. cbn [String.eqb negb rebuild_all].
  unfold action_name. cbn [String.eqb]. now rewrite H.
Qed.

Lemma keyframe_timing_witness :
  exists keys,
    rebuild_curve 24 1%float 1 0 [(0, 100); (1, 200)] 0 1 1 [] = Some keys
    /\ length keys = 3%nat.
Proof.
  destruct (proj1 (keyframe_timing 24 1%float 1 0 [(0, 100); (1, 200)] 0 1 1 []
                     [(1, 200); (0, 100); (0, 100)] eq_refl))
    as (keys & Hrun & Hlen & _).
  exists keys. split; assumption.
Defined.

(** *** Image update: what it touches *)

Lemma find_image_first (key : image -> string) (name : string)
    (images : list image) (k : nat) (img : image) :
  find_image key name images = Some (k, img) ->
  forall (j : nat) i, (j < k)%nat -> images !! j = Some i -> key i <> name.
Proof.
  revert k; induction images as [|i0 rest IH]; intros k; [discriminate|].
  cbn [find_image]. destruct (String.eqb_spec name (key i0)) as [E|E].
  - intros [= <- <-] j i Hj. lia.
  - destruct (find_image key name rest) as [[k' j']|] eqn:Hf; [|discriminate].
    intros [= <- <-] j i Hj Hi. destruct j as [|j].
    + cbn in Hi. congruence.
    + apply (IH k' eq_refl j i); [lia | exact Hi].
Qed.

Lemma find_image_insert (key : image -> string) (name : string)
    (images : list image) (k : nat) (img img' : image) :
  find_image key name images = Some (k, img) -> key img' = name ->
  find_image key name (<[k := img']> images) = Some (k, img').
Proof.
  revert k; induction images as [|i0 rest IH]; intros k; [discriminate|].
  cbn [find_image]. destruct (String.eqb_spec name (key i0)) as [E|E].
  - intros [= <- <-] Hk.
    change (<[0%nat := img']> (i0 :: rest)) with (img' :: rest).
    cbn [find_image]. now rewrite Hk, String.eqb_refl.
  - destruct (find_image key name rest) as [[k' j']|] eqn:Hf; [|discriminate].
    intros [= <- <-] Hk.
    change (<[S k' := img']> (i0 :: rest)) with (i0 :: <[k' := img']> rest).
    cbn [find_image].
    destruct (String.eqb_spec name (key i0)) as [E'|_]; [contradiction|].
    now rewrite (IH k' eq_refl Hk).
Qed.

Section UpdateImageMore.
Variables (normpath abspath : string -> string).
Variable resample : Z -> Z -> image -> list f32.

Local Abbreviation image_name := (image_name normpath abspath).
Local Abbreviation modal_execute := (modal_execute normpath abspath resample).

(** The image as [modal_execute] leaves it before the pixels are stored. *)
Definition prepared (w h frame : Z) (img : image) : image :=
  let img :=
    if negb (has_data img) then bootstrap w h img
    else if negb (fst (size img) =? w) || negb (snd (size img) =? h)
         then scale resample w h img
         else img in
  if negb (frame =? -1) then set_frame frame img else img.

Lemma modal_execute_found (w h : Z) (name : string) (frame : Z)
    (pixels : list Byte.byte) (images : list image) (k : nat) (img : image) :
  find_image image_name name images = Some (k, img) ->
  exists st img',
    modal_execute (w, h, name, frame, pixels) images = (st, <[k := img']> images)
    /\ (img' = prepared w h frame img
        \/ exists px, st = FINISHED /\ flip_y h (convert pixels) = Some px
                      /\ length px = length (Host.pixels (prepared w h frame img))
                      /\ img' = set_pixels px (prepared w h frame img)).
Proof.
  intros Hf. unfold Util.modal_execute. rewrite Hf. fold (prepared w h frame img).
  destruct (flip_y h (convert pixels)) as [px|] eqn:Hfl.
  - destruct (Nat.eqb_spec (length px) (length (Host.pixels (prepared w h frame img))))
      as [E|E].
    + exists FINISHED, (set_pixels px (prepared w h frame img)).
      split; [reflexivity|]. right. exists px. auto.
    + eexists _, _. split; [reflexivity|]. now left.
  - eexists _, _. split; [reflexivity|]. now left.
Qed.

Lemma prepared_fields (w h frame : Z) (img : image) :
  Host.name (prepared w h frame img) = Host.name img
  /\ source (prepared w h frame img) = source img
  /\ prescale (prepared w h frame img) = prescale img.
Proof.
  unfold prepared, bootstrap, scale, set_frame.
  destruct (negb (has_data img)), (negb (frame =? -1)),
    (negb (fst (size img) =? w) || negb (snd (size img) =? h)); auto.
Qed.

Lemma prepared_identity (w h frame : Z) (img : image) :
  has_data img = true ->
  image_name (prepared w h frame img) = image_name img.
Proof.
  intros Hd. unfold prepared, scale, set_frame. rewrite Hd. cbn [negb].
  destruct (negb (frame =? -1)),
    (negb (fst (size img) =? w) || negb (snd (size img) =? h)); reflexivity.
Qed.

(** X10. An update changes at most the first image whose identity is the
    message's name: whatever the outcome (also when an exception leaves
    the operator), the list keeps its length, every other position holds
    the image it held, no earlier image has that identity, and the image
    at the position keeps its resource name, tracked source and prescale. *)
Theorem update_image_touches_first_match (w h : Z) (name : string) (frame : Z)
    (pixels : list Byte.byte) (images : list image) (k : nat) (img : image) :
  find_image image_name name images = Some (k, img) ->
  exists st images',
    modal_execute (w, h, name, frame, pixels) images = (st, images')
    /\ length images' = length images
    /\ (forall j : nat, j <> k -> images' !! j = images !! j)
    /\ (forall (j : nat) i, (j < k)%nat -> images !! j = Some i -> image_name i <> name)
    /\ exists img', images' !! k = Some img'
         /\ Host.name img' = Host.name img
         /\ source img' = source img
         /\ prescale img' = prescale img.
Proof.
  intros Hf. destruct (modal_execute_found w h name frame pixels images k img Hf)
    as (st & img' & Hrun & Himg).
  destruct (find_image_some _ _ _ _ _ Hf) as [Hk _].
  pose proof (lookup_lt_Some _ _ _ Hk) as Hlt.
  exists st, (<[k := img']> images). split; [exact Hrun|].
  split; [apply length_insert|].
  split; [intros j Hj; now apply list_lookup_insert_ne|].
  split; [exact (find_image_first _ _ _ _ _ Hf)|].
  exists img'. split; [now apply list_lookup_insert_eq|].
  pose proof (prepared_fields w h frame img) as (Hn & Hs & Hp).
  destruct Himg as [->|(px & _ & _ & _ & ->)]; auto.
Qed.

(** X11. An update that finished on an image that had data is idempotent:
    the same message applied again finishes and leaves every image as it
    is. *)
Theorem update_image_idempotent (w h : Z) (name : string) (frame : Z)
    (pixels : list Byte.byte) (images images' : list image) (k : nat)
    (img : image) :
  find_image image_name name images = Some (k, img) ->
  has_data img = true ->
  modal_execute (w, h, name, frame, pixels) images = (FINISHED, images') ->
  modal_execute (w, h, name, frame, pixels) images' = (FINISHED, images').
Proof.
  intros Hf Hd Hrun. destruct (find_image_some _ _ _ _ _ Hf) as [Hk Hname].
  unfold Util.modal_execute in Hrun. rewrite Hf in Hrun.
  fold (prepared w h frame img) in Hrun.
  destruct (flip_y h (convert pixels)) as [px|] eqn:Hfl; [|discriminate].
  destruct (Nat.eqb_spec (length px) (length (Host.pixels (prepared w h frame img))))
    as [E|E]; [|discriminate].
  injection Hrun as <-.
  set (img1 := prepared w h frame img) in *.
  set (img2 := set_pixels px img1).
  assert (image_name img2 = name) as Hid.
  { transitivity (image_name img1); [reflexivity|].
    unfold img1. now rewrite prepared_identity. }
  assert (has_data img2 = true) as Hd2.
  { unfold img2, img1, prepared, scale, set_frame, set_pixels. rewrite Hd. cbn [negb].
    destruct (negb (frame =? -1)),
      (negb (fst (size img) =? w) || negb (snd (size img) =? h)); cbn; first [reflexivity | exact Hd]. }
  assert (negb (fst (size img2) =? w) || negb (snd (size img2) =? h) = false) as Hsz.
  { unfold img2, img1, prepared, scale, set_frame, set_pixels. rewrite Hd. cbn [negb].
    destruct (negb (fst (size img) =? w) || negb (snd (size img) =? h)) eqn:Hc;
      destruct (negb (frame =? -1)); cbn [size fst snd];
      rewrite ?Z.eqb_refl; try reflexivity; exact Hc. }
  assert (prepared w h frame img2 = img2) as Hprep.
  { unfold prepared at 1. rewrite Hd2, Hsz. cbn [negb].
    destruct (Z.eqb_spec frame (-1)) as [Efr|Efr]; cbn [negb]; [reflexivity|].
    unfold img2, img1, prepared, set_frame, set_pixels.
    replace (negb (frame =? -1)) with true
      by (symmetry; apply negb_true_iff, Z.eqb_neq; exact Efr).
    reflexivity. }
  unfold Util.modal_execute.
  rewrite (find_image_insert _ _ _ _ _ img2 Hf Hid).
  fold (prepared w h frame img2). rewrite Hprep, Hfl.
  replace (length px =? length (Host.pixels img2))%nat with true
    by (symmetry; apply Nat.eqb_eq; reflexivity).
  rewrite list_insert_insert_eq. reflexivity.
Qed.

(** X12. The first update of an image without data cuts it from its file:
    whatever the outcome, the image is then packed, has an empty load
    path, the fake user and the message's size; when it has no tracked
    source its identity is from then on its resource name, so that, found
    by its load path only, it is not found by the same message again. *)
Theorem update_image_bootstrap_identity (w h : Z) (name : string) (frame : Z)
    (pixels : list Byte.byte) (images : list image) (k : nat) (img : image) :
  find_image image_name name images = Some (k, img) ->
  has_data img = false ->
  exists st images' img',
    modal_execute (w, h, name, frame, pixels) images = (st, images')
    /\ images' !! k = Some img'
    /\ packed_file img' = true /\ filepath img' = ""%string
    /\ use_fake_user img' = true /\ size img' = (w, h)
    /\ (source img = ""%string -> image_name img' = Host.name img)
    /\ (source img = ""%string -> Host.name img <> name ->
        (forall (j : nat) i, j <> k -> images !! j = Some i -> image_name i <> name) ->
        modal_execute (w, h, name, frame, pixels) images' = (NOT_FOUND, images')).
Proof.
  intros Hf Hd. destruct (modal_execute_found w h name frame pixels images k img Hf)
    as (st & img' & Hrun & Himg).
  destruct (find_image_some _ _ _ _ _ Hf) as [Hk _].
  pose proof (lookup_lt_Some _ _ _ Hk) as Hlt.
  exists st, (<[k := img']> images), img'. split; [exact Hrun|].
  split; [now apply list_lookup_insert_eq|].
  assert (packed_file img' = true /\ filepath img' = ""%string
          /\ use_fake_user img' = true /\ size img' = (w, h)
          /\ source img' = source img /\ Host.name img' = Host.name img)
    as (Hp & Hfp & Hu & Hsz & Hsrc & Hnm).
  { assert (packed_file (prepared w h frame img) = true
            /\ filepath (prepared w h frame img) = ""%string
            /\ use_fake_user (prepared w h frame img) = true
            /\ size (prepared w h frame img) = (w, h)
            /\ source (prepared w h frame img) = source img
            /\ Host.name (prepared w h frame img) = Host.name img) as Hprep.
    { unfold prepared, bootstrap, set_frame. rewrite Hd. cbn [negb].
      destruct (negb (frame =? -1)); cbn; auto 10. }
    destruct Himg as [->|(px & _ & _ & _ & ->)]; [exact Hprep|].
    unfold set_pixels. cbn. exact Hprep. }
  assert (source img = ""%string -> image_name img' = Host.name img) as Hid.
  { intros Hs. unfold Util.image_name. rewrite Hsrc, Hs, Hp, Hnm. reflexivity. }
  do 4 (split; [assumption|]). split; [exact Hid|].
  intros Hs Hne Hoth. unfold Util.modal_execute.
  rewrite find_image_none; [reflexivity|].
  intros i Hi. apply list_elem_of_lookup in Hi as [j Hj].
  destruct (decide (j = k)) as [->|Hjk].
  - rewrite list_lookup_insert_eq in Hj by assumption. injection Hj as <-.
    now rewrite (Hid Hs).
  - rewrite list_lookup_insert_ne in Hj by (intros ->; contradiction).
    now apply (Hoth j i).
Qed.

End UpdateImageMore.

Lemma update_image_touches_first_match_witness :
  exists st images',
    modal_execute id id (fun _ _ i => Host.pixels i)
      (1, 1, "sprite"%string, 0, [Byte.xff; Byte.x00; Byte.x00; Byte.xff])
      [Image "other" "" "" true true true (1, 1) 0 0 (replicate 4 (S754_zero false));
       Image "sprite" "" "" true true true (1, 1) 0 0 (replicate 4 (S754_zero false))]
    = (st, images')
    /\ length images' = 2%nat.
Proof.
  destruct (update_image_touches_first_match id id (fun _ _ i => Host.pixels i)
              1 1 "sprite"%string 0 [Byte.xff; Byte.x00; Byte.x00; Byte.xff]
              [Image "other" "" "" true true true (1, 1) 0 0
                 (replicate 4 (S754_zero false));
               Image "sprite" "" "" true true true (1, 1) 0 0
                 (replicate 4 (S754_zero false))]
              1%nat _ eq_refl)
    as (st & images' & Hrun & Hlen & _).
  exists st, images'. split; assumption.
Defined.

Lemma update_image_idempotent_witness :
  let images' :=
    [Image "sprite" "" "" true true true (1, 1) 0 0
       [binary_normalize 24 128 1 0 false; S754_zero false; S754_zero false;
        binary_normalize 24 128 1 0 false]] in
  modal_execute id id (fun _ _ i => Host.pixels i)
    (1, 1, "sprite"%string, 0, [Byte.xff; Byte.x00; Byte.x00; Byte.xff]) images'
  = (FINISHED, images').
Proof.
  apply (update_image_idempotent id id (fun _ _ i => Host.pixels i)
           1 1 "sprite"%string 0 [Byte.xff; Byte.x00; Byte.x00; Byte.xff]
           [Image "sprite" "" "" true true true (1, 1) 7 0
              (replicate 4 (S754_zero false))] _ 0%nat _ eq_refl eq_refl).
  vm_compute. reflexivity.
Defined.

Lemma update_image_bootstrap_identity_witness :
  exists st images' img',
    modal_execute id id (fun _ _ i => Host.pixels i)
      (1, 1, "/art/sprite.png"%string, 0, [Byte.xff; Byte.x00; Byte.x00; Byte.xff])
      [Image "sprite.png" "/art/sprite.png" "" false false false (0, 0) 0 0 []]
    = (st, images')
    /\ images' !! 0%nat = Some img'
    /\ filepath img' = ""%string.
Proof.
  destruct (update_image_bootstrap_identity id id (fun _ _ i => Host.pixels i)
              1 1 "/art/sprite.png"%string 0 [Byte.xff; Byte.x00; Byte.x00; Byte.xff]
              [Image "sprite.png" "/art/sprite.png" "" false false false (0, 0) 0 0 []]
              0%nat _ eq_refl eq_refl)
    as (st & images' & img' & Hrun & Hk & _ & Hfp & _).
  exists st, images', img'. auto.
Defined.

(** *** The vertical flip and the conversion *)

Lemma rows_of_length {A} (n m : nat) (l : list A) :
  length (rows_of n m l) = n.
Proof.
  revert l; induction n as [|n IH]; intro l; [reflexivity|].
  cbn [rows_of length]. now rewrite IH.
Qed.

Lemma rows_of_uniform {A} (n m : nat) (l : list A) :
  length l = (n * m)%nat ->
  Forall (fun r => length r = m) (rows_of n m l) /\ concat (rows_of n m l) = l.
Proof.
  revert l; induction n as [|n IH]; intros l Hl.
  - cbn. split; [constructor|]. destruct l; [reflexivity | discriminate].
  - cbn [rows_of concat].
    destruct (IH (drop m l)) as [Hr Hc]; [rewrite length_drop; lia|].
    split.
    + constructor; [rewrite length_take; lia | exact Hr].
    + rewrite Hc. apply take_drop.
Qed.

Lemma rows_of_lookup {A} (n m : nat) (l : list A) (i : nat) :
  (i < n)%nat -> rows_of n m l !! i = Some (take m (drop (i * m) l)).
Proof.
  revert l i; induction n as [|n IH]; intros l i Hi; [lia|].
  cbn [rows_of]. destruct i as [|i]; [reflexivity|].
  change ((?x :: ?r) !! S i) with (r !! i).
  rewrite IH by lia. rewrite drop_drop.
  replace (S i * m)%nat with (m + i * m)%nat by lia. reflexivity.
Qed.

Lemma flip_y_some {A} (h : Z) (pixels px : list A) :
  flip_y h pixels = Some px ->
  0 < h
  /\ length pixels = (Z.to_nat h * Z.to_nat (Z.of_nat (length pixels) / h))%nat
  /\ px = concat (reverse (rows_of (Z.to_nat h)
                             (Z.to_nat (Z.of_nat (length pixels) / h)) pixels)).
Proof.
  unfold flip_y. destruct (Z.eqb_spec h 0) as [|Hh0]; [discriminate|].
  destruct (Z.ltb_spec 0 h) as [Hh|]; [|discriminate]. cbn [andb].
  destruct (Z.eqb_spec (h * (Z.of_nat (length pixels) / h))
              (Z.of_nat (length pixels))) as [E|]; [|discriminate].
  intros [= <-]. split; [assumption|]. split; [|reflexivity].
  apply Nat2Z.inj. rewrite Nat2Z.inj_mul, !Z2Nat.id; [lia | | lia].
  apply Z.div_pos; lia.
Qed.

(** X13. The vertical flip is an involution: flipping the flipped array
    with the same height gives the array back, and the flipped array has
    the original's length. *)
Theorem flip_y_involutive {A} (h : Z) (pixels px : list A) :
  flip_y h pixels = Some px ->
  flip_y h px = Some pixels /\ length px = length pixels.
Proof.
  intros Hf. destruct (flip_y_some h pixels px Hf) as (Hh & Hlen & ->).
  set (m := Z.to_nat (Z.of_nat (length pixels) / h)) in *.
  destruct (rows_of_uniform (Z.to_nat h) m pixels Hlen) as [Hu Hc].
  set (rows := rows_of (Z.to_nat h) m pixels) in *.
  assert (Forall (fun r => length r = m) (reverse rows)) as Hu'
    by (now apply Forall_reverse).
  split.
  - rewrite (flip_y_rows h m (reverse rows) Hh); [| |exact Hu'].
    + now rewrite reverse_involutive, Hc.
    + unfold rows. now rewrite length_reverse, rows_of_length.
  - rewrite (length_concat_uniform m _ Hu'), length_reverse.
    unfold rows. now rewrite rows_of_length.
Qed.

Lemma flip_y_involutive_witness :
  flip_y 2 [3; 4; 1; 2] = Some [1; 2; 3; 4] /\ length [3; 4; 1; 2] = length [1; 2; 3; 4].
Proof.
  apply (flip_y_involutive 2 [1; 2; 3; 4] [3; 4; 1; 2]). reflexivity.
Defined.

(** The value one byte is converted to. *)
Definition convert1 (b : Byte.byte) : f32 := SFdiv 24 128 (to_float32 b) f32_255.

Lemma convert_lookup (pixels : list Byte.byte) (i : nat) :
  convert pixels !! i = convert1 <$> pixels !! i.
Proof. unfold convert. apply list_lookup_fmap. Qed.

(** All 256 byte values, in increasing order, converted. *)
Definition converted_bytes : list f32 :=
  Eval vm_compute in
    map (fun n => match Byte.of_N (N.of_nat n) with
                  | Some b => convert1 b
                  | None => S754_nan
                  end) (seq 0 256).

Lemma converted_bytes_lookup (b : Byte.byte) :
  converted_bytes !! N.to_nat (Byte.to_N b) = Some (convert1 b).
Proof. destruct b; vm_compute; reflexivity. Qed.

Fixpoint all_below (x : f32) (l : list f32) : bool :=
  match l with
  | [] => true
  | y :: l' => SFltb x y && all_below x l'
  end.

Fixpoint pairwise_lt (l : list f32) : bool :=
  match l with
  | [] => true
  | x :: l' => all_below x l' && pairwise_lt l'
  end.

Lemma all_below_lookup (x : f32) (l : list f32) (j : nat) (y : f32) :
  all_below x l = true -> l !! j = Some y -> SFltb x y = true.
Proof.
  revert j; induction l as [|z l IH]; intros j H Hj; [discriminate|].
  cbn [all_below] in H. apply andb_true_iff in H as [H1 H2].
  destruct j as [|j]; [cbn in Hj; congruence | now apply (IH j)].
Qed.

Lemma pairwise_lt_lookup (l : list f32) (i j : nat) (x y : f32) :
  pairwise_lt l = true -> (i < j)%nat ->
  l !! i = Some x -> l !! j = Some y -> SFltb x y = true.
Proof.
  revert i j; induction l as [|z l IH]; intros i j H Hij Hi Hj; [discriminate|].
  cbn [pairwise_lt] in H. apply andb_true_iff in H as [H1 H2].
  destruct j as [|j]; [lia|]. change (l !! j = Some y) in Hj.
  destruct i as [|i].
  - cbn in Hi. injection Hi as <-. now apply (all_below_lookup z l j).
  - change (l !! i = Some x) in Hi. apply (IH i j); auto; lia.
Qed.

(** X14. The conversion to floats loses nothing and keeps the order: a
    larger byte becomes a strictly larger binary32 value, 0 becomes 0.0
    and 255 becomes 1.0 exactly, so every converted channel is in
    [0, 1]. *)
Theorem convert_increasing (pixels : list Byte.byte) (i j : nat)
    (b1 b2 : Byte.byte) :
  pixels !! i = Some b1 -> pixels !! j = Some b2 ->
  (Byte.to_N b1 < Byte.to_N b2)%N ->
  exists v1 v2,
    convert pixels !! i = Some v1 /\ convert pixels !! j = Some v2
    /\ SFltb v1 v2 = true
    /\ SFleb (S754_zero false) v1 = true
    /\ SFleb v2 (binary_normalize 24 128 1 0 false) = true
    /\ convert [Byte.x00; Byte.xff]
       = [S754_zero false; binary_normalize 24 128 1 0 false].
Proof.
  intros Hi Hj Hlt. exists (convert1 b1), (convert1 b2).
  rewrite !convert_lookup, Hi, Hj. do 2 (split; [reflexivity|]).
  split; [|split; [|split]].
  - apply (pairwise_lt_lookup converted_bytes (N.to_nat (Byte.to_N b1))
             (N.to_nat (Byte.to_N b2))); [vm_compute; reflexivity | lia | |];
      apply converted_bytes_lookup.
  - destruct b1; vm_compute; reflexivity.
  - destruct b2; vm_compute; reflexivity.
  - vm_compute. reflexivity.
Qed.

Lemma convert_increasing_witness :
  exists v1 v2,
    convert [Byte.x10; Byte.x20] !! 0%nat = Some v1
    /\ convert [Byte.x10; Byte.x20] !! 1%nat = Some v2
    /\ SFltb v1 v2 = true.
Proof.
  destruct (convert_increasing [Byte.x10; Byte.x20] 0 1 Byte.x10 Byte.x20
              eq_refl eq_refl ltac:(vm_compute; reflexivity))
    as (v1 & v2 & H1 & H2 & H3 & _).
  exists v1, v2. auto.
Defined.

(** *** The frames a tag plays *)

Lemma py_slice_inside {A} (l : list A) (i j : Z) :
  0 <= i <= j -> j <= Z.of_nat (length l) ->
  py_slice l i j = take (Z.to_nat (j - i)) (drop (Z.to_nat i) l)
  /\ length (py_slice l i j) = Z.to_nat (j - i).
Proof.
  intros Hi Hj. unfold py_slice, clamp_index.
  replace (i <? 0) with false by (symmetry; apply Z.ltb_ge; lia).
  replace (j <? 0) with false by (symmetry; apply Z.ltb_ge; lia).
  rewrite !Z.min_l by lia. split; [reflexivity|].
  rewrite length_take, length_drop. lia.
Qed.

Lemma py_inner_reversed_spec {A} (l : list A) :
  py_inner_reversed l = reverse (take (length l - 2) (drop 1 l)).
Proof.
  unfold py_inner_reversed. f_equal.
  destruct l as [|a [|b l]]; [reflexivity | reflexivity |].
  rewrite (proj1 (py_slice_inside (a :: b :: l) 1 (Z.of_nat (length (a :: b :: l)) - 1)
                    ltac:(cbn [length]; lia) ltac:(lia))).
  f_equal. cbn [length]. lia.
Qed.

Lemma tag_frames_of_none (frames : list (Z * Z)) (start tag_first tag_last ani_dir : Z) :
  tag_frames_of frames start tag_first tag_last ani_dir = None
  <-> py_slice frames (tag_first - start) (tag_last - start + 1) = [].
Proof.
  unfold tag_frames_of.
  set (s := py_slice frames (tag_first - start) (tag_last - start + 1)).
  destruct (ani_dir =? 1); [|destruct (ani_dir =? 2)].
  - destruct (last (reverse s)) eqn:E.
    + split; [discriminate|]. intros Hs. rewrite Hs in E. discriminate.
    + apply last_None in E. split; [|reflexivity]. intros _.
      rewrite <- (reverse_involutive s), E. reflexivity.
  - destruct (last (s ++ py_inner_reversed s)) eqn:E.
    + split; [discriminate|]. intros Hs. rewrite Hs in E. discriminate.
    + apply last_None in E. split; [|reflexivity]. intros _.
      now apply app_eq_nil in E as [? _].
  - destruct (last s) eqn:E.
    + split; [discriminate|]. intros Hs. rewrite Hs in E. discriminate.
    + apply last_None in E. now split.
Qed.

(** X15. For a tag whose range lies within the sheet's frames, with [m]
    frames from [tag_first] to [tag_last]: played forward, the keyframes
    are the range followed by its last frame again; in reverse, the
    reversed range followed by the tag's first frame again; as ping-pong,
    the range, then the frames strictly between last and first in
    descending order, then the last of these again, which for [m >= 3] is
    the tag's second frame: [2 m - 1] keyframes. *)
Theorem tag_frames_of_directions (frames : list (Z * Z))
    (start tag_first tag_last ani_dir : Z) :
  0 <= tag_first - start -> tag_first <= tag_last ->
  tag_last - start < Z.of_nat (length frames) ->
  exists seg first_frame last_frame,
    seg = take (Z.to_nat (tag_last - tag_first + 1))
            (drop (Z.to_nat (tag_first - start)) frames)
    /\ Z.of_nat (length seg) = tag_last - tag_first + 1
    /\ frames !! Z.to_nat (tag_first - start) = Some first_frame
    /\ frames !! Z.to_nat (tag_last - start) = Some last_frame
    /\ (ani_dir <> 1 -> ani_dir <> 2 ->
        tag_frames_of frames start tag_first tag_last ani_dir
        = Some (seg ++ [last_frame]))
    /\ (ani_dir = 1 ->
        tag_frames_of frames start tag_first tag_last ani_dir
        = Some (reverse seg ++ [first_frame]))
    /\ (ani_dir = 2 -> tag_last - tag_first + 1 >= 3 ->
        exists second_frame,
          frames !! Z.to_nat (tag_first - start + 1) = Some second_frame
          /\ tag_frames_of frames start tag_first tag_last ani_dir
             = Some (seg ++ reverse (take (length seg - 2) (drop 1 seg))
                         ++ [second_frame])
          /\ forall tfs,
               tag_frames_of frames start tag_first tag_last ani_dir = Some tfs ->
               Z.of_nat (length tfs) = 2 * (tag_last - tag_first + 1) - 1)
    /\ (ani_dir = 2 -> tag_last - tag_first + 1 < 3 ->
        tag_frames_of frames start tag_first tag_last ani_dir
        = Some (seg ++ [last_frame])).
Proof.
  intros H0 H1 H2.
  destruct (py_slice_inside frames (tag_first - start) (tag_last - start + 1)
              ltac:(lia) ltac:(lia)) as [Hs Hl].
  replace (tag_last - start + 1 - (tag_first - start))
    with (tag_last - tag_first + 1) in * by lia.
  set (seg := take (Z.to_nat (tag_last - tag_first + 1))
                (drop (Z.to_nat (tag_first - start)) frames)) in *.
  assert (Z.of_nat (length seg) = tag_last - tag_first + 1) as Hlen
    by (rewrite <- Hs, Hl; lia).
  destruct (lookup_lt_is_Some_2 frames (Z.to_nat (tag_first - start)))
    as [f Hf]; [lia|].
  destruct (lookup_lt_is_Some_2 frames (Z.to_nat (tag_last - start)))
    as [l Hlast]; [lia|].
  assert (forall k : nat, (k < length seg)%nat ->
            seg !! k = frames !! (Z.to_nat (tag_first - start) + k)%nat) as Hseg.
  { intros k Hk. unfold seg. rewrite lookup_take_lt by lia. now rewrite lookup_drop. }
  assert (head seg = Some f) as Hhd.
  { rewrite head_lookup, Hseg by lia. now rewrite Nat.add_0_r. }
  assert (last seg = Some l) as Hla.
  { rewrite last_lookup, Hseg by lia. rewrite <- Hlast. f_equal. lia. }
  exists seg, f, l. do 4 (split; [assumption || reflexivity|]).
  unfold tag_frames_of. rewrite Hs.
  split; [|split; [|split]].
  - intros N1 N2.
    replace (ani_dir =? 1) with false by (symmetry; now apply Z.eqb_neq).
    replace (ani_dir =? 2) with false by (symmetry; now apply Z.eqb_neq).
    now rewrite Hla.
  - intros ->. cbn [Z.eqb Pos.eqb]. now rewrite last_reverse, Hhd.
  - intros -> Hm. cbn [Z.eqb Pos.eqb]. rewrite py_inner_reversed_spec.
    destruct (lookup_lt_is_Some_2 frames (Z.to_nat (tag_first - start + 1)))
      as [s2 Hs2]; [lia|].
    exists s2. split; [assumption|].
    assert (last (seg ++ reverse (take (length seg - 2) (drop 1 seg))) = Some s2)
      as Hl2.
    { rewrite last_app. rewrite last_reverse, head_lookup.
      rewrite lookup_take_lt by lia. rewrite lookup_drop, Hseg by lia.
      replace (Z.to_nat (tag_first - start) + (1 + 0))%nat
        with (Z.to_nat (tag_first - start + 1)) by lia.
      now rewrite Hs2. }
    rewrite Hl2. split; [now rewrite <- app_assoc|].
    intros tfs [= <-]. rewrite !length_app, length_reverse, length_take, length_drop.
    cbn [length]. lia.
  - intros -> Hm. cbn [Z.eqb Pos.eqb]. rewrite py_inner_reversed_spec.
    replace (length seg - 2)%nat with 0%nat by lia.
    rewrite take_0. change (reverse []) with (@nil (Z * Z)).
    now rewrite app_nil_r, Hla.
Qed.

Lemma tag_frames_of_directions_witness :
  exists seg first_frame last_frame,
    seg = take (Z.to_nat (2 - 0 + 1)) (drop (Z.to_nat (0 - 0)) [(0, 10); (1, 20); (2, 30)])
    /\ tag_frames_of [(0, 10); (1, 20); (2, 30)] 0 0 2 1
       = Some (reverse seg ++ [first_frame])
    /\ last_frame = (2, 30).
Proof.
  destruct (tag_frames_of_directions [(0, 10); (1, 20); (2, 30)] 0 0 2 1
              ltac:(lia) ltac:(lia) ltac:(cbn; lia))
    as (seg & f & l & Hseg & _ & _ & Hl & _ & Hrev & _).
  exists seg, f, l. split; [exact Hseg|]. split; [now apply Hrev|].
  vm_compute in Hl. now injection Hl.
Defined.

(** *** [update_actions]: when it raises and what it leaves alone *)

Lemma find_none_names (tags : list tag) (current_tag : string) :
  (forall t, t ∈ tags -> fst (fst (fst t)) <> current_tag) ->
  List.find (fun t : tag => String.eqb (fst (fst (fst t))) current_tag) tags = None.
Proof.
  induction tags as [|t tags IH]; intros H; [reflexivity|].
  cbn [List.find]. destruct (String.eqb_spec (fst (fst (fst t))) current_tag) as [E|_].
  - exfalso. apply (H t); [left | exact E].
  - apply IH. intros t' Ht'. apply H. now right.
Qed.

(** X16. [update_actions] raises without touching an action in two cases:
    the current tag is not empty and no tag has that name
    ([StopIteration]), or the sheet has no frames ([IndexError], whatever
    the tags are). *)
Theorem update_actions_raises (render_fps : Z) (render_fps_base : float)
    (frame_start : Z) (img_name : string) (start : Z) (frames : list (Z * Z))
    (tags : list tag) (current_tag : string) (acts : actions) :
  (current_tag <> ""%string
   /\ forall t, t ∈ tags -> fst (fst (fst t)) <> current_tag)
  \/ frames = [] ->
  update_actions render_fps render_fps_base frame_start img_name start frames
    tags current_tag acts = None.
Proof.
  intros [[Hne Hno]| ->]; unfold update_actions, tag_editor.
  - replace (negb (current_tag =? "")%string) with true
      by (symmetry; apply negb_true_iff, String.eqb_neq; exact Hne).
    now rewrite find_none_names.
  - destruct (if negb (current_tag =? "")%string then _ else _)
      as [[[[tn tf] tl] d]|]; [|reflexivity].
    cbn [rebuild_all]. unfold rebuild_curve.
    rewrite (proj2 (tag_frames_of_none [] start tf tl d)); [reflexivity|].
    unfold py_slice. now rewrite drop_nil, take_nil.
Qed.

Lemma update_actions_raises_witness :
  update_actions 24 1%float 1 "sprite" 0 [(0, 100)] [("walk"%string, 0, 0, 0)]
    "run" ∅ = None.
Proof.
  apply update_actions_raises. left. split; [discriminate|].
  intros t Ht. apply list_elem_of_singleton in Ht. subst t. discriminate.
Defined.

Lemma rebuild_all_frame (render_fps : Z) (render_fps_base : float)
    (frame_start start : Z) (frames : list (Z * Z)) (img_name : string)
    (tags : list tag) :
  forall acts acts',
    rebuild_all render_fps render_fps_base frame_start start frames img_name
      tags acts = Some acts' ->
    (forall name,
       (forall t, t ∈ tags -> name <> action_name img_name (fst (fst (fst t)))) ->
       acts' !! name = acts !! name)
    /\ (forall t, t ∈ tags ->
          is_Some (acts' !! action_name img_name (fst (fst (fst t)))))
    /\ (forall name, is_Some (acts !! name) -> is_Some (acts' !! name)).
Proof.
  induction tags as [|[[[tn tf] tl] d] tags IH]; intros acts acts' H.
  - injection H as <-. split; [reflexivity|].
    split; [intros t Ht; now apply elem_of_nil in Ht | auto].
  - cbn [rebuild_all] in H.
    destruct (rebuild_curve _ _ _ _ _ _ _ _ _) as [pts|]; [|discriminate].
    destruct (IH _ _ H) as (Hoth & Hin & Hdom).
    split; [|split].
    + intros name Hn. rewrite Hoth by (intros t Ht; apply Hn; now right).
      apply lookup_insert_ne. intros E. apply (Hn (tn, tf, tl, d)); [left|].
      now symmetry.
    + intros t Ht. apply elem_of_cons in Ht as [->|Ht]; [|now apply Hin].
      apply Hdom. cbn [fst]. rewrite lookup_insert_eq. eauto.
    + intros name Hs. apply Hdom.
      destruct (decide (action_name img_name tn = name)) as [<-|Hne].
      * rewrite lookup_insert_eq. eauto.
      * now rewrite lookup_insert_ne.
Qed.

(** X17. When [update_actions] returns, the action named after the image
    and the action of every tag exist, no action has been removed, and an
    action whose name is neither the image's nor a tag's
    ["<image>: <tag>"] has the keyframes it had. *)
Theorem update_actions_frame (render_fps : Z) (render_fps_base : float)
    (frame_start : Z) (img_name : string) (start : Z) (frames : list (Z * Z))
    (tags : list tag) (current_tag : string) (acts acts' : actions) :
  update_actions render_fps render_fps_base frame_start img_name start frames
    tags current_tag acts = Some acts' ->
  is_Some (acts' !! img_name)
  /\ (forall t, t ∈ tags ->
        is_Some (acts' !! action_name img_name (fst (fst (fst t)))))
  /\ (forall name, is_Some (acts !! name) -> is_Some (acts' !! name))
  /\ (forall name, name <> img_name ->
        (forall t, t ∈ tags -> name <> action_name img_name (fst (fst (fst t)))) ->
        acts' !! name = acts !! name).
Proof.
  unfold update_actions. intros H.
  destruct (tag_editor start frames tags current_tag) as [te|] eqn:Hte;
    [|discriminate].
  assert (fst (fst (fst te)) = ""%string) as Hname.
  { unfold tag_editor in Hte. destruct (negb _).
    - destruct (List.find _ tags) as [[[[? ?] ?] ?]|]; [|discriminate].
      now injection Hte as <-.
    - now injection Hte as <-. }
  destruct (rebuild_all_frame _ _ _ _ _ _ _ _ _ H) as (Hoth & Hin & Hdom).
  split; [|split; [|split]].
  - specialize (Hin te ltac:(left)). now rewrite Hname in Hin.
  - intros t Ht. apply Hin. now right.
  - exact Hdom.
  - intros name Hn Hts. apply Hoth. intros t Ht.
    apply elem_of_cons in Ht as [->|Ht]; [|now apply Hts].
    now rewrite Hname.
Qed.

Lemma update_actions_frame_witness :
  exists acts',
    update_actions 24 1%float 1 "sprite" 0 [(0, 100)] [] ""
      (<["other"%string := []]> ∅) = Some acts'
    /\ is_Some (acts' !! "sprite"%string)
    /\ acts' !! "other"%string = Some [].
Proof.
  eexists. split; [vm_compute; reflexivity|].
  pose proof (update_actions_frame 24 1%float 1 "sprite" 0 [(0, 100)] [] ""
                (<["other"%string := []]> ∅) _ eq_refl) as (H1 & _ & _ & H4).
  split; [exact H1|].
  rewrite H4; [reflexivity | discriminate |].
  intros t Ht. now apply elem_of_nil in Ht.
Defined.

End Util.

(** ** The sheet: composed in messaging/handle.py, cut in util.py *)
Module Spritesheet.
Import Host Util.

(** A two-dimensional [np.ubyte] array: its shape and its buffer in row
    order. *)
Record ndarray := Ndarray { shape : Z * Z; data : list Byte.byte }.

(** [np.zeros((rows, cols), dtype=np.ubyte)]; numpy refuses a negative
    dimension. *)
Definition np_zeros (rows cols : Z) : option ndarray :=
  if (0 <=? rows) && (0 <=? cols)
  then Some (Ndarray (rows, cols) (replicate (Z.to_nat (rows * cols)) Byte.x00))
  else None.

(** [fd = np.frombuffer(frame); fd.shape = (h, stride);
    dst = a[r0:r1, c0:c1]; np.copyto(dst, fd)].  [dst] is a view: the cells
    of [a] in the clamped ranges receive the cells of [fd].  [None]: the
    buffer does not have [h * stride] elements, or [fd] cannot be broadcast
    to the shape of [dst]. *)
Definition copyto (a : ndarray) (r0 r1 c0 c1 : Z) (h stride : Z)
    (frame : list Byte.byte) : option ndarray :=
  let '(R, C) := shape a in
  if (0 <=? h) && (0 <=? stride) && (Z.of_nat (length frame) =? h * stride)
  then
    let lo_r := clamp_index R r0 in
    let nr := Z.max 0 (clamp_index R r1 - lo_r) in
    let lo_c := clamp_index C c0 in
    let nc := Z.max 0 (clamp_index C c1 - lo_c) in
    if ((nr =? h) || (h =? 1)) && ((nc =? stride) || (stride =? 1))
    then Some (Ndarray (R, C)
           (imap (fun idx old =>
              let r := Z.of_nat idx / C - lo_r in
              let c := Z.of_nat idx mod C - lo_c in
              if (0 <=? r) && (r <? nr) && (0 <=? c) && (c <? nc)
              then default old
                     (frame !! Z.to_nat ((if h =? 1 then 0 else r) * stride
                                         + (if stride =? 1 then 0 else c)))
              else old) (data a)))
    else None
  else None.

(** [for n, frame in enumerate(images)] of [Spritesheet.execute], from
    the index [n] on. *)
Fixpoint paste_frames (count_x w h : Z) (n : Z) (images : list (list Byte.byte))
    (sheet_data : ndarray) : option ndarray :=
  match images with
  | [] => Some sheet_data
  | frame :: rest =>
      let stride := w * 4 in
      let x := n mod count_x in
      let y := n / count_x in
      match copyto sheet_data (y * h) ((y + 1) * h) (x * stride) ((x + 1) * stride)
              h stride frame with
      | Some sheet_data => paste_frames count_x w h (n + 1) rest sheet_data
      | None => None
      end
  end.

(** [Spritesheet.execute] up to the call of [util.update_spritesheet]: the
    grid and the composed sheet. *)
Definition compose (size : Z * Z) (length : Z) (images : list (list Byte.byte))
    : option (Z * Z * ndarray) :=
  match Handle.sheet_grid length with
  | None => None
  | Some (count_x, count_y) =>
      let '(w, h) := size in
      match np_zeros (h * count_y) (w * count_x * 4) with
      | None => None
      | Some sheet_data =>
          match paste_frames count_x w h 0 images sheet_data with
          | Some sheet_data => Some (count_x, count_y, sheet_data)
          | None => None
          end
      end
  end.

(** The cut of [SB_OT_update_spritesheet.modal_execute]:
    [np.ravel(pixels[frame_y * size[1] : (frame_y + 1) * size[1],
                     frame_x * size[0] * 4 : (frame_x + 1) * size[0] * 4])].
    [None]: [count[0]] is 0 and [%] raises. *)
Definition cut_frame (size count : Z * Z) (current_frame : Z) (pixels : ndarray)
    : option (list Byte.byte) :=
  if fst count =? 0 then None
  else
    let frame_x := current_frame mod fst count in
    let frame_y := current_frame / fst count in
    let rows := rows_of (Z.to_nat (fst (shape pixels))) (Z.to_nat (snd (shape pixels)))
                  (data pixels) in
    Some (concat (map (fun row => py_slice row (frame_x * fst size * 4)
                                    ((frame_x + 1) * fst size * 4))
                    (py_slice rows (frame_y * snd size) ((frame_y + 1) * snd size)))).

(** *** The grid *)

Lemma sheet_grid_some (n : Z) :
  1 <= n < 2 ^ 32 ->
  exists count_x count_y,
    Handle.sheet_grid n = Some (count_x, count_y)
    /\ 0 < count_x
    /\ (count_x - 1) * (count_x - 1) < n <= count_x * count_x
    /\ (count_y - 1) * count_x < n <= count_y * count_x.
Proof.
  intros Hn.
  pose proof (Z.sqrt_up_spec n ltac:(lia)) as Hk.
  rewrite <- Z.sub_1_r in Hk.
  assert (0 < Z.sqrt_up n) as Hk0 by (apply Z.sqrt_up_pos; lia).
  set (k := Z.sqrt_up n) in *.
  assert (k < 2 ^ 32) as Hk32 by nia.
  set (j := - (- n / k)).
  assert ((j - 1) * k < n <= j * k) as Hj.
  { subst j. pose proof (Z.div_mod (- n) k ltac:(lia)).
    pose proof (Z.mod_pos_bound (- n) k ltac:(lia)). nia. }
  exists k, j. unfold Handle.sheet_grid.
  rewrite (PyFloat.ceil_sqrt_exact n k) by lia.
  replace (k =? 0) with false by (symmetry; apply Z.eqb_neq; lia).
  rewrite (PyFloat.ceil_div_exact n k j) by lia.
  auto.
Qed.

(** X18. For a frame count in [1, 2^32) the grid is square or one row
    short of square ([rows <= columns <= rows + 1]), every frame index
    [i < n] gets a cell [(i mod columns, i div columns)] inside the grid,
    and fewer than [columns] cells stay empty; for no frames the handler
    raises ([ZeroDivisionError]). *)
Theorem sheet_grid_near_square (n : Z) :
  1 <= n < 2 ^ 32 ->
  (exists count_x count_y,
     Handle.sheet_grid n = Some (count_x, count_y)
     /\ 1 <= count_y <= count_x /\ count_x <= count_y + 1
     /\ (forall i, 0 <= i < n ->
           0 <= i mod count_x < count_x /\ 0 <= i / count_x < count_y)
     /\ 0 <= count_x * count_y - n < count_x)
  /\ Handle.sheet_grid 0 = None.
Proof.
  intros Hn. split; [|vm_compute; reflexivity].
  destruct (sheet_grid_some n Hn) as (cx & cy & Hg & Hcx & Hsq & Hdiv).
  exists cx, cy. split; [exact Hg|].
  assert (1 <= cy) by nia. assert (cy <= cx) by nia. assert (cx <= cy + 1) by nia.
  do 2 (split; [lia|]). split; [|lia].
  intros i Hi. split; [apply Z.mod_pos_bound; lia|].
  split; [apply Z.div_pos; lia|]. apply Z.div_lt_upper_bound; nia.
Qed.

Lemma sheet_grid_near_square_witness :
  exists count_x count_y,
    Handle.sheet_grid 10 = Some (count_x, count_y)
    /\ 1 <= count_y <= count_x /\ count_x <= count_y + 1.
Proof.
  destruct (proj1 (sheet_grid_near_square 10 ltac:(lia)))
    as (cx & cy & Hg & H1 & H2 & _).
  exists cx, cy. auto.
Defined.

(** *** Composing the sheet and cutting a frame out of it *)

Lemma cell_div_mod (C rr cc : Z) :
  0 <= cc < C -> (rr * C + cc) / C = rr /\ (rr * C + cc) mod C = cc.
Proof.
  intros Hc. split; symmetry.
  - apply Z.div_unique with (r := cc); lia.
  - apply Z.mod_unique with (q := rr); lia.
Qed.

(** The cells of the frame with index [m] in a sheet of [count_x]
    columns, as positions of the buffer. *)
Definition in_block (count_x h stride C m idx : Z) : Prop :=
  (m / count_x) * h <= idx / C < (m / count_x + 1) * h
  /\ (m mod count_x) * stride <= idx mod C < (m mod count_x + 1) * stride.

Lemma in_block_disjoint (count_x h stride C m m' idx : Z) :
  0 < count_x -> m <> m' ->
  in_block count_x h stride C m idx -> ~ in_block count_x h stride C m' idx.
Proof.
  intros Hcx Hne [Hr Hc] [Hr' Hc'].
  assert (m / count_x = m' / count_x) as Eq by nia.
  assert (m mod count_x = m' mod count_x) as Em by nia.
  apply Hne. rewrite (Z.div_mod m count_x), (Z.div_mod m' count_x) by lia.
  now rewrite Eq, Em.
Qed.

Lemma copyto_fits (a : ndarray) (R C y x h stride : Z) (frame : list Byte.byte) :
  shape a = (R, C) -> Z.of_nat (length (data a)) = R * C ->
  0 <= h -> 0 <= stride -> Z.of_nat (length frame) = h * stride ->
  0 <= y -> (y + 1) * h <= R -> 0 <= x -> (x + 1) * stride <= C ->
  exists a',
    copyto a (y * h) ((y + 1) * h) (x * stride) ((x + 1) * stride) h stride frame
    = Some a'
    /\ shape a' = (R, C)
    /\ length (data a') = length (data a)
    /\ (forall r c, 0 <= r < h -> 0 <= c < stride ->
          data a' !! Z.to_nat ((y * h + r) * C + (x * stride + c))
          = frame !! Z.to_nat (r * stride + c))
    /\ (forall idx : nat,
          ~ (y * h <= Z.of_nat idx / C < (y + 1) * h
             /\ x * stride <= Z.of_nat idx mod C < (x + 1) * stride) ->
          data a' !! idx = data a !! idx).
Proof.
  intros Hsh Hlen Hh Hst Hfr Hy HyR Hx HxC.
  unfold copyto. rewrite Hsh.
  replace ((0 <=? h) && (0 <=? stride) && (Z.of_nat (length frame) =? h * stride))
    with true.
  2:{ symmetry. rewrite !andb_true_iff. repeat split;
        [apply Z.leb_le | apply Z.leb_le | apply Z.eqb_eq]; lia. }
  assert (clamp_index R (y * h) = y * h) as ->.
  { unfold clamp_index. replace (y * h <? 0) with false
      by (symmetry; apply Z.ltb_ge; nia). apply Z.min_l. nia. }
  assert (clamp_index R ((y + 1) * h) = (y + 1) * h) as ->.
  { unfold clamp_index. replace ((y + 1) * h <? 0) with false
      by (symmetry; apply Z.ltb_ge; nia). apply Z.min_l. nia. }
  assert (clamp_index C (x * stride) = x * stride) as ->.
  { unfold clamp_index. replace (x * stride <? 0) with false
      by (symmetry; apply Z.ltb_ge; nia). apply Z.min_l. nia. }
  assert (clamp_index C ((x + 1) * stride) = (x + 1) * stride) as ->.
  { unfold clamp_index. replace ((x + 1) * stride <? 0) with false
      by (symmetry; apply Z.ltb_ge; nia). apply Z.min_l. nia. }
  replace (Z.max 0 ((y + 1) * h - y * h)) with h by lia.
  replace (Z.max 0 ((x + 1) * stride - x * stride)) with stride by lia.
  rewrite !Z.eqb_refl. cbn [orb andb].
  eexists. split; [reflexivity|]. cbn [shape data].
  split; [reflexivity|]. split; [apply length_imap|]. split.
  - intros r c Hr Hc.
    destruct (cell_div_mod C (y * h + r) (x * stride + c) ltac:(nia)) as [Hd Hm].
    assert (0 <= (y * h + r) * C + (x * stride + c) < R * C) as Hidx by nia.
    destruct (lookup_lt_is_Some_2 (data a)
                (Z.to_nat ((y * h + r) * C + (x * stride + c)))) as [old Hold];
      [lia|].
    destruct (lookup_lt_is_Some_2 frame (Z.to_nat (r * stride + c))) as [v Hv];
      [nia|].
    rewrite list_lookup_imap, Hold. cbn [fmap option_fmap option_map].
    rewrite Z2Nat.id by lia. rewrite Hd, Hm.
    replace (y * h + r - y * h) with r by lia.
    replace (x * stride + c - x * stride) with c by lia.
    replace ((0 <=? r) && (r <? h) && (0 <=? c) && (c <? stride)) with true.
    2:{ symmetry. rewrite !andb_true_iff. repeat split;
          [apply Z.leb_le | apply Z.ltb_lt | apply Z.leb_le | apply Z.ltb_lt]; lia. }
    assert ((if h =? 1 then 0 else r) = r) as ->
      by (destruct (Z.eqb_spec h 1); lia).
    assert ((if stride =? 1 then 0 else c) = c) as ->
      by (destruct (Z.eqb_spec stride 1); lia).
    now rewrite Hv.
  - intros idx Hout. rewrite list_lookup_imap.
    destruct (data a !! idx) as [old|]; [|reflexivity].
    cbn [fmap option_fmap option_map]. f_equal.
    match goal with |- (if ?b then _ else _) = _ => destruct b eqn:Hb end;
      [|reflexivity].
    exfalso. apply Hout. rewrite !andb_true_iff in Hb.
    destruct Hb as [[[H1 H2] H3] H4].
    apply Z.leb_le in H1, H3. apply Z.ltb_lt in H2, H4. lia.
Qed.

Lemma paste_frames_spec (count_x count_y w h : Z) :
  0 < count_x -> 0 <= w -> 0 <= h ->
  forall (images : list (list Byte.byte)) (n : Z) (a : ndarray),
    0 <= n -> n + Z.of_nat (length images) <= count_x * count_y ->
    shape a = (h * count_y, w * count_x * 4) ->
    Z.of_nat (length (data a)) = h * count_y * (w * count_x * 4) ->
    Forall (fun f => Z.of_nat (length f) = h * (w * 4)) images ->
    exists a',
      paste_frames count_x w h n images a = Some a'
      /\ shape a' = shape a
      /\ length (data a') = length (data a)
      /\ (forall (k : nat) frame, images !! k = Some frame ->
          forall r c, 0 <= r < h -> 0 <= c < w * 4 ->
            data a' !! Z.to_nat ((((n + Z.of_nat k) / count_x) * h + r)
                                 * (w * count_x * 4)
                                 + (((n + Z.of_nat k) mod count_x) * (w * 4) + c))
            = frame !! Z.to_nat (r * (w * 4) + c))
      /\ (forall idx : nat,
            (forall m, n <= m < n + Z.of_nat (length images) ->
               ~ in_block count_x h (w * 4) (w * count_x * 4) m (Z.of_nat idx)) ->
            data a' !! idx = data a !! idx).
Proof.
  intros Hcx Hw Hh images.
  induction images as [|frame rest IH]; intros n a Hn Hcap Hsh Hlen Hfr.
  - exists a. split; [reflexivity|]. split; [reflexivity|]. split; [reflexivity|].
    split; [intros k f Hk; now rewrite lookup_nil in Hk | reflexivity].
  - apply Forall_cons in Hfr as [Hf Hfr]. cbn [length] in Hcap.
    assert (0 <= n mod count_x < count_x) as Hx by (apply Z.mod_pos_bound; lia).
    assert (0 <= n / count_x) as Hy0 by (apply Z.div_pos; lia).
    assert (n / count_x < count_y) as Hy1 by (apply Z.div_lt_upper_bound; nia).
    destruct (copyto_fits a (h * count_y) (w * count_x * 4) (n / count_x)
                (n mod count_x) h (w * 4) frame Hsh Hlen Hh ltac:(lia) Hf Hy0
                ltac:(nia) ltac:(lia) ltac:(nia))
      as (a1 & Hrun1 & Hsh1 & Hlen1 & Hin1 & Hout1).
    destruct (IH (n + 1) a1 ltac:(lia) ltac:(lia) Hsh1 ltac:(rewrite Hlen1; exact Hlen) Hfr)
      as (a' & Hrun & Hsh' & Hlen' & Hin & Hout).
    exists a'. cbn [paste_frames]. rewrite Hrun1.
    split; [exact Hrun|]. split; [congruence|]. split; [congruence|]. split.
    + intros k f Hk r c Hr Hc. destruct k as [|k].
      * cbn in Hk. injection Hk as <-. rewrite Z.add_0_r.
        rewrite Hout; [apply Hin1; assumption|].
        intros m Hm. apply (in_block_disjoint count_x h (w * 4) (w * count_x * 4) n m);
          [lia | lia |].
        destruct (cell_div_mod (w * count_x * 4) (n / count_x * h + r)
                    (n mod count_x * (w * 4) + c) ltac:(nia)) as [Hd Hmo].
        unfold in_block. rewrite Z2Nat.id by nia. rewrite Hd, Hmo. lia.
      * change (rest !! k = Some f) in Hk.
        replace (n + Z.of_nat (S k)) with (n + 1 + Z.of_nat k) by lia.
        now apply (Hin k f Hk).
    + intros idx Hno. rewrite Hout by (intros m Hm; apply Hno; cbn [length]; lia).
      apply Hout1. intros Hblk. apply (Hno n ltac:(cbn [length]; lia)). exact Hblk.
Qed.

(** X19. Composing and cutting are inverse: for [1 <= n < 2^32] frames of
    [w] by [h] RGBA bytes each, the handler builds without an exception a
    sheet of [h * rows] by [w * columns * 4] bytes, and the cut the sheet
    update takes for any frame index [k < n] is exactly the [k]-th frame
    that was sent. *)
Theorem sheet_round_trip (w h : Z) (images : list (list Byte.byte)) :
  0 <= w -> 0 <= h ->
  1 <= Z.of_nat (length images) < 2 ^ 32 ->
  Forall (fun f => Z.of_nat (length f) = h * (w * 4)) images ->
  exists count_x count_y sheet_data,
    compose (w, h) (Z.of_nat (length images)) images
    = Some (count_x, count_y, sheet_data)
    /\ shape sheet_data = (h * count_y, w * count_x * 4)
    /\ Z.of_nat (length (data sheet_data)) = 4 * (w * count_x) * (h * count_y)
    /\ forall (k : nat) frame, images !! k = Some frame ->
         cut_frame (w, h) (count_x, count_y) (Z.of_nat k) sheet_data = Some frame.
Proof.
  intros Hw Hh Hn Hfr.
  destruct (sheet_grid_some _ Hn) as (cx & cy & Hg & Hcx & Hsq & Hdiv).
  assert (1 <= cy) as Hcy by nia.
  set (R := h * cy). set (C := w * cx * 4).
  assert (0 <= R) as HR by (unfold R; nia).
  assert (0 <= C) as HC by (unfold C; nia).
  destruct (paste_frames_spec cx cy w h Hcx Hw Hh images 0
              (Ndarray (R, C) (replicate (Z.to_nat (R * C)) Byte.x00))
              ltac:(lia) ltac:(lia) eq_refl
              ltac:(cbn [data]; rewrite length_replicate, Z2Nat.id by nia; reflexivity)
              Hfr) as (a' & Hrun & Hsh & Hlen & Hin & _).
  cbn [shape data] in Hsh, Hlen. rewrite length_replicate in Hlen.
  exists cx, cy, a'. unfold compose. rewrite Hg. unfold np_zeros. fold R C.
  replace ((0 <=? R) && (0 <=? C)) with true
    by (symmetry; apply andb_true_iff; split; apply Z.leb_le; lia).
  rewrite Hrun. split; [reflexivity|]. split; [exact Hsh|].
  split; [rewrite Hlen, Z2Nat.id by nia; unfold R, C; lia|].
  intros k frame Hk. unfold cut_frame. cbn [fst snd]. rewrite Hsh. cbn [fst snd].
  replace (cx =? 0) with false by (symmetry; apply Z.eqb_neq; lia).
  pose proof (lookup_lt_Some _ _ _ Hk) as Hklt.
  set (x := Z.of_nat k mod cx). set (y := Z.of_nat k / cx).
  assert (0 <= x < cx) as Hx by (apply Z.mod_pos_bound; lia).
  assert (0 <= y) as Hy0 by (apply Z.div_pos; lia).
  assert (y < cy) as Hy1 by (apply Z.div_lt_upper_bound; nia).
  set (s := w * 4). assert (0 <= s) as Hs by (unfold s; lia).
  assert (C = cx * s) as HCs by (unfold C, s; lia).
  assert (Z.of_nat (length frame) = h * s) as Hlf
    by (eapply Forall_forall in Hfr; [exact Hfr | now apply list_elem_of_lookup_2 in Hk]).
  assert (length (data a') = (Z.to_nat R * Z.to_nat C)%nat) as Hlen'
    by (rewrite Hlen; apply Z2Nat.inj_mul; lia).
  destruct (rows_of_uniform (Z.to_nat R) (Z.to_nat C) (data a') Hlen') as [Hu _].
  set (rows := rows_of (Z.to_nat R) (Z.to_nat C) (data a')) in *.
  assert (length rows = Z.to_nat R) as Hrl by apply rows_of_length.
  destruct (py_slice_inside rows (y * h) ((y + 1) * h) ltac:(nia)
              ltac:(rewrite Hrl, Z2Nat.id by lia; unfold R; nia)) as [-> _].
  replace ((y + 1) * h - y * h) with h by lia.
  replace (x * w * 4) with (x * s) by (unfold s; lia).
  replace ((x + 1) * w * 4) with ((x + 1) * s) by (unfold s; lia).
  f_equal.
  assert (length frame = (Z.to_nat h * Z.to_nat s)%nat) as Hlf'
    by (rewrite <- Z2Nat.inj_mul by lia; lia).
  transitivity (concat (rows_of (Z.to_nat h) (Z.to_nat s) frame));
    [|exact (proj2 (rows_of_uniform (Z.to_nat h) (Z.to_nat s) frame Hlf'))].
  f_equal. apply list_eq. intros i.
  destruct (decide (i < Z.to_nat h)%nat) as [Hi|Hi].
  2:{ rewrite list_lookup_fmap, lookup_take_ge by lia.
      symmetry. apply lookup_ge_None_2. rewrite rows_of_length. lia. }
  rewrite list_lookup_fmap, lookup_take_lt, lookup_drop by lia.
  assert (Z.to_nat (y * h) + i < Z.to_nat R)%nat as Hri by (unfold R; nia).
  unfold rows. rewrite !rows_of_lookup by lia.
  cbn [fmap option_fmap option_map]. f_equal.
  set (row := take (Z.to_nat C) (drop ((Z.to_nat (y * h) + i) * Z.to_nat C) (data a'))).
  assert (length row = Z.to_nat C) as Hrowl.
  { unfold row. rewrite length_take, length_drop, Hlen'. nia. }
  destruct (py_slice_inside row (x * s) ((x + 1) * s) ltac:(nia)
              ltac:(rewrite Hrowl, Z2Nat.id by lia; nia)) as [-> _].
  replace ((x + 1) * s - x * s) with s by lia.
  apply list_eq. intros c.
  destruct (decide (c < Z.to_nat s)%nat) as [Hc|Hc].
  2:{ now rewrite !lookup_take_ge by lia. }
  rewrite !lookup_take_lt, !lookup_drop by lia.
  unfold row. rewrite lookup_take_lt by nia. rewrite lookup_drop.
  specialize (Hin k frame Hk (Z.of_nat i) (Z.of_nat c) ltac:(lia) ltac:(fold s; lia)).
  rewrite Z.add_0_l in Hin. fold x y s C in Hin.
  replace ((Z.to_nat (y * h) + i) * Z.to_nat C + (Z.to_nat (x * s) + c))%nat
    with (Z.to_nat ((y * h + Z.of_nat i) * C + (x * s + Z.of_nat c))).
  2:{ apply Nat2Z.inj. rewrite Z2Nat.id by nia.
      rewrite !Nat2Z.inj_add, Nat2Z.inj_mul, Nat2Z.inj_add, !Z2Nat.id by nia.
      reflexivity. }
  replace (i * Z.to_nat s + c)%nat with (Z.to_nat (Z.of_nat i * s + Z.of_nat c)).
  2:{ apply Nat2Z.inj. rewrite Z2Nat.id by nia.
      rewrite Nat2Z.inj_add, Nat2Z.inj_mul, Z2Nat.id by lia. reflexivity. }
  exact Hin.
Qed.

Lemma sheet_round_trip_witness :
  exists count_x count_y sheet_data,
    compose (1, 1) 2 [[Byte.x01; Byte.x02; Byte.x03; Byte.x04];
                      [Byte.x05; Byte.x06; Byte.x07; Byte.x08]]
    = Some (count_x, count_y, sheet_data)
    /\ cut_frame (1, 1) (count_x, count_y) 1 sheet_data
       = Some [Byte.x05; Byte.x06; Byte.x07; Byte.x08].
Proof.
  destruct (sheet_round_trip 1 1 [[Byte.x01; Byte.x02; Byte.x03; Byte.x04];
                                  [Byte.x05; Byte.x06; Byte.x07; Byte.x08]]
              ltac:(lia) ltac:(lia) ltac:(cbn; lia)
              ltac:(repeat constructor))
    as (cx & cy & sheet & Hrun & _ & _ & Hcut).
  exists cx, cy, sheet. split; [exact Hrun|].
  apply (Hcut 1%nat). reflexivity.
Defined.

End Spritesheet.

(** ** ui_3d.py *)
Module Ui3d.
Import Host.

(** [a.repeat(scale, axis)] along the outermost axis of [a]. *)
Definition np_repeat {A} (scale : nat) (a : list A) : list A :=
  flat_map (replicate scale) a.

(** [scale_image(image, scale)].  [None]: numpy refuses the shape or a
    negative repeat count.  [image.scale] resizes the host buffer, which
    [foreach_set] then fills. *)
Definition scale_image (image : image) (scale : Z) : option Host.image :=
  let '(w, h) := size image in
  let px := pixels image in
  if (0 <=? w) && (0 <=? h) && (0 <=? scale)
     && (Z.of_nat (length px) =? w * h * 4)
  then
    (* px.shape = (w, h, 4) *)
    let px := Util.rows_of (Z.to_nat w) (Z.to_nat h)
                (Util.rows_of (Z.to_nat (w * h)) 4 px) in
    (* px.repeat(scale, 0).repeat(scale, 1) *)
    let px := map (np_repeat (Z.to_nat scale)) (np_repeat (Z.to_nat scale) px) in
    (* image.scale(w * scale, h * scale); foreach_set(px.ravel()) *)
    Some (Image (name image) (filepath image) (source image) (packed_file image)
                (has_data image) (use_fake_user image) (w * scale, h * scale)
                (frame image) (prescale image) (concat (concat px)))
  else None.

(** [SB_OT_reference_reload.execute]: [image.reload()] brings back the size
    and pixels of the file, then the recorded prescale is applied. *)
Definition reference_reload (file_size : Z * Z) (file_pixels : list f32)
    (image : image) : option Host.image :=
  let image :=
    Image (name image) (filepath image) (source image) (packed_file image)
          (has_data image) (use_fake_user image) file_size (frame image)
          (prescale image) file_pixels in
  scale_image image (prescale image).

(** The RGBA quadruple of pixel [(x, y)], addressed as draw.py and util.py
    address the host array: rows of [width] pixels. *)
Definition pixel_at (image : image) (x y : Z) : list f32 :=
  take 4 (drop (Z.to_nat (4 * (fst (size image) * y + x))) (pixels image)).

Lemma scale_image_size (image image' : Host.image) (scale : Z) :
  scale_image image scale = Some image' ->
  size image' = (fst (size image) * scale, snd (size image) * scale)
  /\ prescale image' = prescale image.
Proof.
  unfold scale_image. destruct (size image) as [w h].
  destruct (_ && _); [|discriminate]. now intros [= <-].
Qed.

(** Reloading any number of times keeps the dimensions at the file's
    dimensions times the recorded prescale. *)
Lemma reference_reload_size (file_size : Z * Z) (file_pixels : list f32)
    (image image' : Host.image) :
  reference_reload file_size file_pixels image = Some image' ->
  size image' = (fst file_size * prescale image, snd file_size * prescale image)
  /\ prescale image' = prescale image.
Proof.
  unfold reference_reload. intros H. now apply scale_image_size in H.
Qed.

(** C5 (the code departs from it).  On a 2 by 1 image holding a red pixel
    then a blue one, prescale 2 gives the 4 by 2 dimensions, but the pixel
    (2, 0) of the result is the red one, input pixel (0, 0), where
    replication of each pixel along both axes puts input pixel
    (2 div 2, 0 div 2) = (1, 0), the blue one: the array is shaped
    (w, h, 4) while its rows are [w] pixels long. *)
Theorem scale_image_nonsquare_misplaces :
  let one := binary_normalize 24 128 1 0 false in
  let zero := S754_zero false in
  let img := Image "ref" "ref.png" "" false true false (2, 1) 0 2
               [one; zero; zero; one; zero; zero; one; one] in
  exists img',
    scale_image img 2 = Some img'
    /\ size img' = (4, 2)
    /\ pixel_at img' 2 0 = pixel_at img 0 0
    /\ pixel_at img (2 / 2) (0 / 2) = [zero; zero; one; one]
    /\ pixel_at img' 2 0 <> pixel_at img (2 / 2) (0 / 2).
Proof.
  eexists. split; [vm_compute; reflexivity|].
  repeat split; try (vm_compute; reflexivity).
  vm_compute. discriminate.
Qed.

(** *** Where the scaled pixels come from *)

Lemma np_repeat_length {A} (s : nat) (a : list A) :
  length (np_repeat s a) = (length a * s)%nat.
Proof.
  unfold np_repeat. induction a as [|x a IH]; [reflexivity|].
  cbn [flat_map length]. rewrite length_app, length_replicate, IH. lia.
Qed.

Lemma np_repeat_lookup {A} (s : nat) (a : list A) (i : nat) :
  (0 < s)%nat -> np_repeat s a !! i = a !! (i / s)%nat.
Proof.
  intros Hs. unfold np_repeat. revert i; induction a as [|x a IH]; intro i.
  - now rewrite !lookup_nil.
  - cbn [flat_map]. destruct (decide (i < s)%nat) as [Hi|Hi].
    + rewrite lookup_app_l by (rewrite length_replicate; lia).
      rewrite Nat.div_small by lia. cbn. apply lookup_replicate_2. lia.
    + rewrite lookup_app_r by (rewrite length_replicate; lia).
      rewrite length_replicate, IH.
      replace (i / s)%nat with (S ((i - s) / s))%nat; [reflexivity|].
      replace i with ((i - s) + 1 * s)%nat at 2 by lia.
      rewrite Nat.div_add by lia. lia.
Qed.

Lemma np_repeat_Forall {A} (P : A -> Prop) (s : nat) (a : list A) :
  Forall P a -> Forall P (np_repeat s a).
Proof.
  unfold np_repeat. induction 1 as [|x a Hx _ IH]; [constructor|].
  cbn [flat_map]. apply Forall_app. split; [|exact IH].
  now apply Forall_replicate.
Qed.

Lemma concat_uniform_lookup {A} (m : nat) (rows : list (list A)) (i j : nat) :
  Forall (fun r => length r = m) rows -> (j < m)%nat ->
  concat rows !! (i * m + j)%nat = rows !! i ≫= (.!! j).
Proof.
  intros Hu Hj. revert i. induction Hu as [|r rows Hr _ IH]; intro i.
  - now rewrite lookup_nil.
  - cbn [concat]. destruct i as [|i].
    + rewrite lookup_app_l by lia. reflexivity.
    + rewrite lookup_app_r by lia.
      replace (S i * m + j - length r)%nat with (i * m + j)%nat by lia.
      apply IH.
Qed.

Lemma concat_uniform_chunk {A} (m : nat) (rows : list (list A)) (p : nat)
    (r : list A) :
  Forall (fun r => length r = m) rows -> rows !! p = Some r ->
  take m (drop (p * m) (concat rows)) = r.
Proof.
  intros Hu. revert p. induction Hu as [|r0 rows Hr0 _ IH]; intros p Hp.
  - now rewrite lookup_nil in Hp.
  - cbn [concat]. destruct p as [|p].
    + cbn in Hp. injection Hp as <-. rewrite Nat.mul_0_l, drop_0.
      now rewrite take_app_length' by (now symmetry).
    + change (rows !! p = Some r) in Hp.
      rewrite drop_app_ge by lia.
      replace (S p * m - length r0)%nat with (p * m)%nat by lia.
      now apply IH.
Qed.

Lemma rows_of_chunks {A} (n m : nat) (l : list A) :
  length l = (n * m)%nat -> Forall (fun r => length r = m) (Util.rows_of n m l).
Proof. intros H. exact (proj1 (Util.rows_of_uniform n m l H)). Qed.

Lemma scale_cells (W H s : nat) (px : list f32) (i j : nat) :
  (0 < s)%nat -> length px = (W * H * 4)%nat ->
  (i < W * s)%nat -> (j < H * s)%nat ->
  take 4 (drop (4 * (i * (H * s) + j))
            (concat (concat (map (np_repeat s)
                               (np_repeat s (Util.rows_of W H
                                               (Util.rows_of (W * H) 4 px)))))))
  = take 4 (drop (4 * (i / s * H + j / s)) px).
Proof.
  intros Hs Hlen Hi Hj.
  set (pixels4 := Util.rows_of (W * H) 4 px).
  assert (Forall (fun r => length r = 4%nat) pixels4) as Hu4
    by (apply rows_of_chunks; lia).
  assert (length pixels4 = (W * H)%nat) as Hl4 by apply Util.rows_of_length.
  set (px3 := Util.rows_of W H pixels4).
  assert (Forall (fun r => length r = H) px3) as Hu3
    by (apply rows_of_chunks; lia).
  set (out3 := map (np_repeat s) (np_repeat s px3)).
  assert (Forall (fun r => length r = (H * s)%nat) out3) as Huo.
  { unfold out3. apply Forall_fmap. apply np_repeat_Forall.
    eapply Forall_impl; [exact Hu3|]. intros r Hr. cbn.
    now rewrite np_repeat_length, Hr. }
  assert (Forall (fun r => length r = 4%nat) (concat out3)) as Hup.
  { apply Forall_concat. unfold out3. apply Forall_fmap. apply np_repeat_Forall.
    apply Forall_forall. intros row Hrow. cbn. apply np_repeat_Forall.
    apply list_elem_of_lookup in Hrow as [k Hk].
    assert (k < W)%nat as HkW.
    { apply lookup_lt_Some in Hk. unfold px3 in Hk. now rewrite Util.rows_of_length in Hk. }
    unfold px3 in Hk. rewrite Util.rows_of_lookup in Hk by assumption.
    injection Hk as <-. apply Forall_take, Forall_drop. exact Hu4. }
  assert (i / s < W)%nat as Hiw by (apply Nat.Div0.div_lt_upper_bound; lia).
  assert (j / s < H)%nat as Hjh by (apply Nat.Div0.div_lt_upper_bound; lia).
  assert (concat out3 !! (i * (H * s) + j)%nat
          = Some (take 4 (drop ((i / s * H + j / s) * 4) px))) as Hcell.
  { rewrite (concat_uniform_lookup (H * s) out3 i j Huo Hj).
    unfold out3. rewrite list_lookup_fmap, np_repeat_lookup by assumption.
    unfold px3. rewrite Util.rows_of_lookup by assumption.
    cbn [fmap option_fmap option_map mbind option_bind].
    rewrite np_repeat_lookup by assumption.
    rewrite lookup_take_lt by assumption. rewrite lookup_drop.
    unfold pixels4. rewrite Util.rows_of_lookup by nia. reflexivity. }
  rewrite (Nat.mul_comm 4 (i * (H * s) + j)).
  rewrite (concat_uniform_chunk 4 (concat out3) _ _ Hup Hcell).
  now rewrite (Nat.mul_comm 4).
Qed.

(** X20. For a scale [s >= 1] and a buffer of [4 * w * h] floats,
    [scale_image] returns an image of [w * s] by [h * s] whose RGBA
    quadruple number [i * (h * s) + j] ([i < w * s], [j < h * s]) is the
    input's quadruple number [(i div s) * h + (j div s)].  On a square
    image this is nearest-neighbour scaling: the pixel [(x, y)] of the
    result is the pixel [(x div s, y div s)] of the input. *)
Theorem scale_image_cells (image : Host.image) (scale : Z) :
  1 <= scale -> 0 <= fst (size image) -> 0 <= snd (size image) ->
  Z.of_nat (length (pixels image)) = fst (size image) * snd (size image) * 4 ->
  exists image',
    scale_image image scale = Some image'
    /\ size image' = (fst (size image) * scale, snd (size image) * scale)
    /\ (forall i j, 0 <= i < fst (size image) * scale ->
          0 <= j < snd (size image) * scale ->
          take 4 (drop (Z.to_nat (4 * (i * (snd (size image) * scale) + j)))
                    (pixels image'))
          = take 4 (drop (Z.to_nat (4 * (i / scale * snd (size image) + j / scale)))
                      (pixels image)))
    /\ (fst (size image) = snd (size image) ->
        forall x y, 0 <= x < fst (size image) * scale ->
          0 <= y < snd (size image) * scale ->
          pixel_at image' x y = pixel_at image (x / scale) (y / scale)).
Proof.
  intros Hs Hw Hh Hlen. destruct image as [nm fp src pk hd fu [w h] fr ps px].
  cbn [size pixels fst snd] in *. unfold scale_image. cbn [size pixels].
  replace ((0 <=? w) && (0 <=? h) && (0 <=? scale)
           && (Z.of_nat (length px) =? w * h * 4)) with true.
  2:{ symmetry. rewrite !andb_true_iff. repeat split;
        [apply Z.leb_le | apply Z.leb_le | apply Z.leb_le | apply Z.eqb_eq]; lia. }
  eexists. split; [reflexivity|]. cbn [size pixels fst snd].
  split; [reflexivity|].
  assert (forall i j, 0 <= i < w * scale -> 0 <= j < h * scale ->
    take 4 (drop (Z.to_nat (4 * (i * (h * scale) + j)))
      (concat (concat (map (np_repeat (Z.to_nat scale))
         (np_repeat (Z.to_nat scale)
            (Util.rows_of (Z.to_nat w) (Z.to_nat h)
               (Util.rows_of (Z.to_nat (w * h)) 4 px)))))))
    = take 4 (drop (Z.to_nat (4 * (i / scale * h + j / scale))) px)) as Hcells.
  { intros i j Hi Hj.
    assert (0 <= i / scale) by (apply Z.div_pos; lia).
    assert (0 <= j / scale) by (apply Z.div_pos; lia).
    pose proof (scale_cells (Z.to_nat w) (Z.to_nat h) (Z.to_nat scale) px
                  (Z.to_nat i) (Z.to_nat j) ltac:(lia)
                  ltac:(apply Nat2Z.inj;
                        rewrite !Nat2Z.inj_mul, !Z2Nat.id by lia; lia)
                  ltac:(rewrite <- Z2Nat.inj_mul by lia; nia)
                  ltac:(rewrite <- Z2Nat.inj_mul by lia; nia)) as Hc.
    rewrite <- (Z2Nat.inj_mul w h) in Hc by lia.
    replace (4 * (Z.to_nat i * (Z.to_nat h * Z.to_nat scale) + Z.to_nat j))%nat
      with (Z.to_nat (4 * (i * (h * scale) + j))) in Hc.
    2:{ apply Nat2Z.inj. rewrite Z2Nat.id by nia.
        rewrite Nat2Z.inj_mul, Nat2Z.inj_add, !Nat2Z.inj_mul, !Z2Nat.id by lia.
        reflexivity. }
    replace (4 * (Z.to_nat i / Z.to_nat scale * Z.to_nat h
                  + Z.to_nat j / Z.to_nat scale))%nat
      with (Z.to_nat (4 * (i / scale * h + j / scale))) in Hc.
    2:{ rewrite <- !Z2Nat.inj_div by lia. apply Nat2Z.inj.
        rewrite Z2Nat.id by nia.
        rewrite Nat2Z.inj_mul, Nat2Z.inj_add, !Nat2Z.inj_mul, !Z2Nat.id by lia.
        reflexivity. }
    exact Hc. }
  split; [exact Hcells|].
  intros <- x y Hx Hy. unfold pixel_at. cbn [size pixels fst snd].
  replace (w * scale * y + x) with (y * (w * scale) + x) by lia.
  replace (w * (y / scale) + x / scale) with (y / scale * w + x / scale) by lia.
  now apply Hcells.
Qed.

Lemma scale_image_cells_witness :
  exists image',
    scale_image (Image "ref" "ref.png" "" false true false (1, 1) 0 2
                   [S754_zero false; S754_zero false; S754_zero false;
                    S754_zero false]) 2 = Some image'
    /\ size image' = (2, 2).
Proof.
  destruct (scale_image_cells
              (Image "ref" "ref.png" "" false true false (1, 1) 0 2
                 [S754_zero false; S754_zero false; S754_zero false;
                  S754_zero false]) 2
              ltac:(lia) ltac:(cbn; lia) ltac:(cbn; lia) eq_refl)
    as (image' & Hrun & Hsz & _).
  exists image'. split; assumption.
Defined.

(** X21. Reloading a reference is idempotent: the prescale does not
    compound, a second reload of the same file gives the image of the
    first. *)
Theorem reference_reload_idempotent (file_size : Z * Z) (file_pixels : list f32)
    (image image' : Host.image) :
  reference_reload file_size file_pixels image = Some image' ->
  reference_reload file_size file_pixels image' = Some image'.
Proof.
  unfold reference_reload, scale_image. cbn [size pixels prescale name filepath
    source packed_file has_data use_fake_user frame].
  destruct file_size as [w h].
  destruct (_ && _) eqn:Hc; [|discriminate].
  intros [= <-]. cbn [size pixels prescale name filepath source packed_file
    has_data use_fake_user frame]. now rewrite Hc.
Qed.

Lemma reference_reload_idempotent_witness :
  exists image',
    reference_reload (1, 1) [S754_zero false; S754_zero false; S754_zero false;
                             S754_zero false]
      (Image "ref" "ref.png" "" false true false (5, 5) 0 2 []) = Some image'
    /\ reference_reload (1, 1) [S754_zero false; S754_zero false; S754_zero false;
                                S754_zero false] image' = Some image'.
Proof.
  eexists. split; [vm_compute; reflexivity|].
  apply (reference_reload_idempotent (1, 1) _
           (Image "ref" "ref.png" "" false true false (5, 5) 0 2 [])).
  vm_compute. reflexivity.
Defined.

(** [SB_OT_reference_add.execute] on the image [bpy.data.images.load]
    returned: scaled in place, then the prescale is recorded. *)
Definition reference_add (loaded : image) (scale : Z) : option image :=
  match scale_image loaded scale with
  | Some image =>
      Some (Image (name image) (filepath image) (source image) (packed_file image)
                  (has_data image) (use_fake_user image) (size image) (frame image)
                  scale (pixels image))
  | None => None
  end.

(** X22. Reloading a reference right after adding it changes nothing:
    the reload brings back the file's size and pixels and applies the
    prescale the add recorded. *)
Theorem reference_add_then_reload (loaded image : Host.image) (scale : Z) :
  reference_add loaded scale = Some image ->
  reference_reload (size loaded) (pixels loaded) image = Some image.
Proof.
  unfold reference_add, reference_reload, scale_image.
  destruct loaded as [nm fp src pk hd fu [w h] fr ps px].
  cbn [size pixels prescale name filepath source packed_file has_data
       use_fake_user frame].
  destruct (_ && _) eqn:Hc; [|discriminate].
  intros [= <-]. cbn [size pixels prescale name filepath source packed_file
    has_data use_fake_user frame]. now rewrite Hc.
Qed.

Lemma reference_add_then_reload_witness :
  exists image,
    reference_add (Image "ref" "ref.png" "" false true false (1, 1) 0 0
                     [S754_zero false; S754_zero false; S754_zero false;
                      S754_zero false]) 3 = Some image
    /\ reference_reload (1, 1) [S754_zero false; S754_zero false; S754_zero false;
                                S754_zero false] image = Some image.
Proof.
  eexists. split; [vm_compute; reflexivity|].
  apply (reference_add_then_reload
           (Image "ref" "ref.png" "" false true false (1, 1) 0 0
              [S754_zero false; S754_zero false; S754_zero false;
               S754_zero false]) _ 3).
  vm_compute. reflexivity.
Defined.

End Ui3d.
